(** * RenderCV: configuration resolution, error normalisation and render orchestration

    A shallow embedding of [rendercv/cli/utilities.py] and
    [rendercv/data/models/design.py], and the properties of the
    specification that talk about them.

    Conventions of the embedding.
    - A Python [str] is a [string]; every [ascii] stands for one code point
      in the range U+0000..U+00FF (not for a UTF-8 byte).  Code points above
      U+00FF are outside the model.
    - A Python exception is a value of [exn]; a call that may raise returns
      a [result].  A recursion that is not structural takes fuel, and raises
      [RecursionError] when the fuel is used up, as Python does at its
      recursion limit.
    - A Python [dict] with string keys is an association list in insertion
      order, without duplicate keys as long as it is only built with
      [dict_set]. *)

From stdpp Require Import base list strings pretty.
From Stdlib Require Import ZArith Ascii String Lia Bool.

Local Open Scope string_scope.
Local Open Scope list_scope.
Set Warnings "-register-all".

(** ** Exceptions and results *)

(** One argument of an exception: the sources raise [ValueError] with string
    arguments and, where a message is written with a trailing comma, with a
    one-element tuple holding a string. *)
Inductive exn_arg : Type :=
| AStr (s : string)
| ATuple1 (s : string).

Inductive exn : Type :=
| ValueError (args : list exn_arg)
| TypeError
| IndexError
| KeyError (key : string)
| AttributeError
| SyntaxError
| ImportError
| RecursionError
| ZeroDivisionError
| ExternalError (what : string).

Inductive result (A : Type) : Type :=
| Ok (a : A)
| Raise (e : exn).
Arguments Ok {A} a.
Arguments Raise {A} e.

Definition bind {A B : Type} (m : result A) (k : A -> result B) : result B :=
  match m with
  | Ok a => k a
  | Raise e => Raise e
  end.

Notation "'let*' x ':=' m 'in' k" := (bind m (fun x => k))
  (at level 10, x pattern, m at level 100, k at level 200).

(** ** Python string primitives *)
Module PyStr.

(** [s.startswith(p)] *)
Fixpoint startswith (p s : string) : bool :=
  match p with
  | EmptyString => true
  | String a p' =>
      match s with
      | EmptyString => false
      | String b s' => Ascii.eqb a b && startswith p' s'
      end
  end.

(** [s.endswith(p)] *)
Definition endswith (p s : string) : bool :=
  startswith (String.rev p) (String.rev s).

(** [sub in s] for strings *)
Fixpoint contains (sub s : string) : bool :=
  startswith sub s ||
  match s with
  | EmptyString => false
  | String _ s' => contains sub s'
  end.

(** [s.replace(old, new)] for a non-empty [old]: occurrences are found
    from the left and do not overlap.  [skip] counts the characters of the
    occurrence just replaced that are still to be dropped. *)
Fixpoint replace_from (old new : string) (skip : nat) (s : string) : string :=
  match s with
  | EmptyString => EmptyString
  | String c s' =>
      match skip with
      | S k => replace_from old new k s'
      | O =>
          if startswith old s
          then new +:+ replace_from old new (String.length old - 1) s'
          else String c (replace_from old new 0 s')
      end
  end.

(** [s.replace("", new)]: [new] goes before every character and at the
    end. *)
Fixpoint interleave (new s : string) : string :=
  match s with
  | EmptyString => new
  | String c s' => new +:+ String c (interleave new s')
  end.

Definition replace (old new s : string) : string :=
  match old with
  | EmptyString => interleave new s
  | String _ _ => replace_from old new 0 s
  end.

(** [s.split(sep)] for a one-character separator; the result is never
    empty. *)
Fixpoint split (sep : ascii) (s : string) : list string :=
  match s with
  | EmptyString => [EmptyString]
  | String c s' =>
      if Ascii.eqb c sep then EmptyString :: split sep s'
      else match split sep s' with
           | h :: t => String c h :: t
           | [] => [String c EmptyString]
           end
  end.

(** [sep.join(l)] *)
Definition join (sep : string) (l : list string) : string :=
  String.concat sep l.

(** [str(n)] for an integer: decimal digits, a leading [-] when negative. *)
Definition str_of_Z (z : Z) : string := pretty z.
Definition str_of_nat (n : nat) : string := pretty n.

Definition code (c : ascii) : nat := nat_of_ascii c.

Definition between (lo hi n : nat) : bool := (lo <=? n)%nat && (n <=? hi)%nat.

(** The class [[A-Za-z0-9]] of the specification's theme-name pattern. *)
Definition char_is_ascii_alnum (c : ascii) : bool :=
  let n := code c in
  between 48 57 n || between 65 90 n || between 97 122 n.

(** [c.isalnum()] for one code point up to U+00FF, after the Unicode
    character database: the ASCII letters and digits, the letters of
    Latin-1 (U+00AA, U+00B5, U+00BA, U+00C0..U+00D6, U+00D8..U+00F6,
    U+00F8..U+00FF), the superscript digits U+00B2, U+00B3, U+00B9 and the
    fractions U+00BC..U+00BE. *)
Definition char_isalnum (c : ascii) : bool :=
  let n := code c in
  char_is_ascii_alnum c
  || (n =? 170)%nat || (n =? 178)%nat || (n =? 179)%nat || (n =? 181)%nat
  || (n =? 185)%nat || (n =? 186)%nat || between 188 190 n
  || between 192 214 n || between 216 246 n || between 248 255 n.

Fixpoint all_chars (p : ascii -> bool) (s : string) : bool :=
  match s with
  | EmptyString => true
  | String c s' => p c && all_chars p s'
  end.

(** [s.isalnum()]: false on the empty string. *)
Definition isalnum (s : string) : bool :=
  match s with
  | EmptyString => false
  | String _ _ => all_chars char_isalnum s
  end.

(** The white space that [int] skips at both ends, up to U+00FF: the
    ASCII white space U+0009..U+000D and U+0020, and U+0085 and U+00A0.
    The separators U+001C..U+001F, which [str.isspace] accepts, are not
    skipped: [int] raises on them. *)
Definition char_is_int_space (c : ascii) : bool :=
  let n := code c in
  between 9 13 n || (n =? 32)%nat || (n =? 133)%nat || (n =? 160)%nat.

Fixpoint lstrip (s : string) : string :=
  match s with
  | EmptyString => EmptyString
  | String c s' => if char_is_int_space c then lstrip s' else s
  end.

(** The string without the white space that [int] skips. *)
Definition strip (s : string) : string :=
  String.rev (lstrip (String.rev (lstrip s))).

Definition digit_value (c : ascii) : option Z :=
  let n := code c in
  if between 48 57 n then Some (Z.of_nat (n - 48)) else None.

(** The digits of an integer literal as [int] reads them: decimal digits,
    single underscores only between two digits. *)
Fixpoint digits_value (acc : Z) (after_digit : bool) (s : string) : option Z :=
  match s with
  | EmptyString => if after_digit then Some acc else None
  | String c s' =>
      match digit_value c with
      | Some d => digits_value (10 * acc + d)%Z true s'
      | None =>
          if Ascii.eqb c "_" && after_digit
          then digits_value acc false s'
          else None
      end
  end.

(** [int(s)]: [None] stands for the [ValueError] of Python. *)
Definition int (s : string) : option Z :=
  match strip s with
  | String "-" r => option_map Z.opp (digits_value 0 false r)
  | String "+" r => digits_value 0 false r
  | t => digits_value 0 false t
  end.

End PyStr.

(** ** Python values *)

(** The values a configuration tree is made of.  A float is kept as its
    [repr]. *)
Inductive value : Type :=
| VNone
| VBool (b : bool)
| VInt (z : Z)
| VFloat (repr : string)
| VStr (s : string)
| VList (items : list value)
| VDict (entries : list (string * value)).

(** Truth value of an object in an [if]. *)
Definition truthy (v : value) : bool :=
  match v with
  | VNone => false
  | VBool b => b
  | VInt z => negb (z =? 0)%Z
  | VFloat r => negb (String.eqb r "0.0" || String.eqb r "-0.0")
  | VStr s => negb (String.eqb s "")
  | VList l => match l with [] => false | _ => true end
  | VDict d => match d with [] => false | _ => true end
  end.

(** [str(v)] for the scalars; [None] for a composite, whose [str] the
    sources never take. *)
Definition str_of_scalar (v : value) : option string :=
  match v with
  | VNone => Some "None"
  | VBool true => Some "True"
  | VBool false => Some "False"
  | VInt z => Some (PyStr.str_of_Z z)
  | VFloat r => Some r
  | VStr s => Some s
  | VList _ | VDict _ => None
  end.

(** Dictionaries as association lists. *)
Section Dict.
Context {V : Type}.

(** [d[k]], [None] when the key is missing. *)
Fixpoint dict_get (k : string) (d : list (string * V)) : option V :=
  match d with
  | [] => None
  | (k', v) :: d' => if String.eqb k k' then Some v else dict_get k d'
  end.

(** [k in d] *)
Definition dict_has (k : string) (d : list (string * V)) : bool :=
  match dict_get k d with Some _ => true | None => false end.

(** [d[k] = v]: an existing key keeps its place, a new key goes last. *)
Fixpoint dict_set (k : string) (v : V) (d : list (string * V)) : list (string * V) :=
  match d with
  | [] => [(k, v)]
  | (k', v') :: d' =>
      if String.eqb k k' then (k', v) :: d' else (k', v') :: dict_set k v d'
  end.
End Dict.

(** ** The step count of the render pipeline *)

(** The step count as the specification words it. *)
Definition spec_step_count (png_off md_off html_off : bool) : Z :=
  (6 - (if png_off then 1 else 0)
     - (if md_off then 2 else 0)
     - (if negb md_off && html_off then 1 else 0))%Z.

(** ** Paths *)

(** A [pathlib.Path]: its components, and whether it starts at the root. *)
Record path : Type := {
  anchored : bool;
  parts : list string
}.

Module Path.

(** [p.name]: the last component, empty for [Path(".")]. *)
Definition name (p : path) : string := List.last (parts p) "".

(** [p.parent] *)
Definition parent (p : path) : path :=
  {| anchored := anchored p; parts := List.removelast (parts p) |}.

(** [p / child] for a relative [child] of one component. *)
Definition child (p : path) (c : string) : path :=
  {| anchored := anchored p; parts := parts p ++ [c] |}.

(** [p / q] for a relative [q]. *)
Definition join (p q : path) : path :=
  if anchored q then q
  else {| anchored := anchored p; parts := parts p ++ parts q |}.

(** [s.rfind(".")]: the index of the last dot. *)
Fixpoint rfind_dot (s : string) : option nat :=
  match s with
  | EmptyString => None
  | String c s' =>
      match rfind_dot s' with
      | Some i => Some (S i)
      | None => if Ascii.eqb c "." then Some 0%nat else None
      end
  end.

(** Where [stem] and [suffix] cut a name: at the last dot, unless it is
    the first or the last character. *)
Definition cut (nm : string) : option nat :=
  match rfind_dot nm with
  | Some i =>
      if (0 <? i)%nat && (i <? String.length nm - 1)%nat then Some i else None
  | None => None
  end.

(** [p.stem] *)
Definition stem (p : path) : string :=
  let nm := name p in
  match cut nm with
  | Some i => String.substring 0 i nm
  | None => nm
  end.

(** [p.suffix] *)
Definition suffix (p : path) : string :=
  let nm := name p in
  match cut nm with
  | Some i => String.substring i (String.length nm - i) nm
  | None => ""
  end.

(** [str(p)] *)
Definition to_string (p : path) : string :=
  (if anchored p then "/" else "") +:+
  match parts p with
  | [] => if anchored p then "" else "."
  | _ => PyStr.join "/" (parts p)
  end.

End Path.

(** ** [copy_files] *)

(** What a stage hands to [copy_files]: one path or a list of paths. *)
Inductive artifacts : Type :=
| OnePath (p : path)
| PathList (ps : list path).

(** The destination of the artifact at (0-based) position [i] when the
    artifacts are not exactly one. *)
Definition png_path_with_page_number (new_path : path) (i : nat) : path :=
  let number := (i + 1)%nat in
  Path.child (Path.parent new_path)
    (Path.stem new_path +:+ "_" +:+ PyStr.str_of_nat number +:+ ".png").

(** The calls [shutil.copy2(source, destination)] that [copy_files] issues,
    in order. *)
Definition copy_files (paths : artifacts) (new_path : path) : list (path * path) :=
  let paths := match paths with OnePath p => [p] | PathList ps => ps end in
  match paths with
  | [p] => [(p, new_path)]
  | _ => imap (fun i file_path => (file_path, png_path_with_page_number new_path i)) paths
  end.

(** ** [parse_render_command_override_arguments] *)

Definition odd_arguments_message : string :=
  "There is a problem with the extra arguments! Each key should have a"
  +:+ " corresponding value.".

Definition missing_dashes_message (key : string) : string :=
  "The key (" +:+ key +:+ ") should start with double dashes!".

(** The loop over the pairs [(args[i], args[i + 1])], [i] even. *)
Fixpoint parse_pairs (args : list string) (key_and_values : list (string * string))
  : result (list (string * string)) :=
  match args with
  | key :: value :: rest =>
      if negb (PyStr.startswith "--" key)
      then Raise (ValueError [AStr (missing_dashes_message key)])
      else
        let key := PyStr.replace "--" "" key in
        parse_pairs rest (dict_set key value key_and_values)
  | _ => Ok key_and_values
  end.

Definition parse_render_command_override_arguments (args : list string)
  : result (list (string * string)) :=
  if negb (Nat.even (List.length args))
  then Raise (ValueError [AStr odd_arguments_message])
  else parse_pairs args [].

(** ** The pattern of a custom error *)

(** The fragment of regular expressions that the pattern of
    [get_error_message_and_location_and_value_from_a_custom_error] uses: a
    literal character, a character class, and the greedy capturing group of
    any characters (dot star in parentheses). *)
Inductive re_item : Type :=
| RChar (c : ascii)
| ROneOf (cs : list ascii)
| RGroupAny.

Module Re.

Fixpoint drop (n : nat) (s : string) : string :=
  match n, s with
  | S n', String _ s' => drop n' s'
  | _, _ => s
  end.

Fixpoint take (n : nat) (s : string) : string :=
  match n, s with
  | S n', String c s' => String c (take n' s')
  | _, _ => EmptyString
  end.

(** A dot matches every character but the line feed. *)
Definition dot (c : ascii) : bool := negb (Ascii.eqb c "010").

(** The length of the longest prefix that a group can take. *)
Fixpoint dot_run (s : string) : nat :=
  match s with
  | EmptyString => 0
  | String c s' => if dot c then S (dot_run s') else 0
  end.

Definition one_of (cs : list ascii) (c : ascii) : bool :=
  existsb (Ascii.eqb c) cs.

(** Backtracking match of [re] at the start of [s]; the captured groups
    on success.  A group first takes the longest run and gives characters
    back one by one. *)
Fixpoint match_here (re : list re_item) (s : string) : option (list string) :=
  match re with
  | [] => Some []
  | RChar c :: re' =>
      match s with
      | String d s' => if Ascii.eqb c d then match_here re' s' else None
      | EmptyString => None
      end
  | ROneOf cs :: re' =>
      match s with
      | String d s' => if one_of cs d then match_here re' s' else None
      | EmptyString => None
      end
  | RGroupAny :: re' =>
      (fix give_back (k : nat) : option (list string) :=
         match match_here re' (drop k s) with
         | Some groups => Some (take k s :: groups)
         | None =>
             match k with
             | O => None
             | S k' => give_back k'
             end
         end) (dot_run s)
  end.

(** [re.search]: the first position from the left where the pattern
    matches. *)
Fixpoint search (re : list re_item) (s : string) : option (list string) :=
  match match_here re s with
  | Some groups => Some groups
  | None =>
      match s with
      | EmptyString => None
      | String _ s' => search re s'
      end
  end.

End Re.

Definition double_quote : ascii := "034".
Definition dq : string := String double_quote "".

(** The pattern of the source: an opening parenthesis, a single or double
    quote, a group, a single or double quote, then twice a comma, a space
    and a group in single quotes, and a closing parenthesis. *)
Definition custom_error_pattern : list re_item :=
  [ RChar "("; ROneOf ["'"; double_quote]; RGroupAny; ROneOf ["'"; double_quote];
    RChar ","; RChar " "; RChar "'"; RGroupAny; RChar "'";
    RChar ","; RChar " "; RChar "'"; RGroupAny; RChar "'"; RChar ")" ]%char.

Definition get_error_message_and_location_and_value_from_a_custom_error
  (error_string : string) : option (string * string * string) :=
  match Re.search custom_error_pattern error_string with
  | Some [g1; g2; g3] => Some (g1, g2, g3)
  | _ => None
  end.

(** ** [parse_validation_errors] *)

(** One segment of a location: a field name or an index. *)
Inductive loc_item : Type :=
| LStr (s : string)
| LInt (n : Z).

Definition str_of_loc_item (l : loc_item) : string :=
  match l with
  | LStr s => s
  | LInt n => PyStr.str_of_Z n
  end.

(** The keys of an error object that the normalisation reads. *)
Record error_details : Type := {
  loc : list loc_item;
  msg : string;
  input : value
}.

(** The key [ctx] of an error object: absent, present without the key
    [error], or holding an exception whose [__cause__] is either missing
    ([None]) or a validation error with its own list of errors. *)
Inductive error_ctx : Type :=
| NoCtx
| CtxWithoutError
| CtxError (cause : option (list error_details)).

Record error_object : Type := {
  details : error_details;
  ctx : error_ctx
}.

(** A normalised error: the dictionary with the keys [loc], [msg] and
    [input]. *)
Record diagnostic : Type := {
  d_loc : string;
  d_msg : string;
  d_input : string
}.

Definition diagnostic_eqb (a b : diagnostic) : bool :=
  String.eqb (d_loc a) (d_loc b) && String.eqb (d_msg a) (d_msg b)
  && String.eqb (d_input a) (d_input b).

Definition date_format_message : string :=
  "This is not a valid date! Please use either YYYY-MM-DD, YYYY-MM, or YYYY"
  +:+ " format!".

Definition error_dictionary : list (string * string) :=
  [ ("Input should be 'present'",
     "This is not a valid date! Please use either YYYY-MM-DD, YYYY-MM, or YYYY"
     +:+ " format or " +:+ dq +:+ "present" +:+ dq +:+ "!");
    ("Input should be a valid integer, unable to parse string as an integer",
     date_format_message);
    ("String should match pattern '\d{4}-\d{2}(-\d{2})?'", date_format_message);
    ("String should match pattern '\b10\..*'",
     "A DOI prefix should always start with " +:+ dq +:+ "10." +:+ dq
     +:+ ". For example, " +:+ dq +:+ "10.1109/TASC.2023.3340648" +:+ dq +:+ ".");
    ("URL scheme should be 'http' or 'https'", "This is not a valid URL!");
    ("Field required", "This field is required!");
    ("value is not a valid phone number", "This is not a valid phone number!");
    ("month must be in 1..12", "The month must be between 1 and 12!");
    ("day is out of range for month", "The day is out of range for the month!");
    ("Extra inputs are not permitted",
     "This field is unknown for this object! Please remove it.");
    ("Input should be a valid string", "This field should be a string!");
    ("Input should be a valid list",
     "This field should contain a list of items but it doesn't!") ].

Definition unwanted_texts : list string :=
  ["value is not a valid email address: "; "Value error, "].

Definition unwanted_locations : list string :=
  ["tagged-union"; "list"; "literal"; "int"; "constrained-str"].

Definition end_date_message : string :=
  "This is not a valid end date! Please use either YYYY-MM-DD, YYYY-MM,"
  +:+ " or YYYY format or " +:+ dq +:+ "present" +:+ dq +:+ "!".

Definition section_error_marker : string :=
  "There are problems with the entries.".

(** The errors that one error object adds to the working list: the errors
    of its cause, each relocated under the error's own location without the
    first segment of its own. *)
Definition cause_errors (e : error_object) : result (list error_details) :=
  if PyStr.contains section_error_marker (msg (details e)) then
    match ctx e with
    | CtxError (Some cause_object_errors) =>
        Ok (map (fun c => {| loc := loc (details e) ++ List.tl (loc c);
                             msg := msg c; input := input c |})
                cause_object_errors)
    | CtxError None => Raise AttributeError
    | NoCtx | CtxWithoutError => Ok []
    end
  else Ok [].

Fixpoint extend_with_causes (errors : list error_object) : result (list error_details) :=
  match errors with
  | [] => Ok []
  | e :: rest =>
      let* here := cause_errors e in
      let* others := extend_with_causes rest in
      Ok (here ++ others)
  end.

(** [l.remove(x)]: the first element equal to [x] goes; [None] stands for
    the [ValueError] raised when there is none. *)
Fixpoint list_remove (x : string) (l : list string) : option (list string) :=
  match l with
  | [] => None
  | y :: l' =>
      if String.eqb x y then Some l'
      else option_map (cons y) (list_remove x l')
  end.

Definition remove_error : exn := ValueError [AStr "list.remove(x): x not in list"].

(** The inner loop over [unwanted_locations] for one segment. *)
Fixpoint remove_if_unwanted (unwanted : list string) (location_element : string)
  (new_location : list string) : result (list string) :=
  match unwanted with
  | [] => Ok new_location
  | unwanted_location :: rest =>
      if PyStr.contains unwanted_location location_element
      then match list_remove location_element new_location with
           | Some new_location' => remove_if_unwanted rest location_element new_location'
           | None => Raise remove_error
           end
      else remove_if_unwanted rest location_element new_location
  end.

(** The loop over the segments of [location]. *)
Fixpoint clean_segments (location new_location : list string) : result (list string) :=
  match location with
  | [] => Ok new_location
  | location_element :: rest =>
      let* new_location := remove_if_unwanted unwanted_locations location_element new_location in
      clean_segments rest new_location
  end.

Definition clean_location (l : list loc_item) : result (list string) :=
  let location := map str_of_loc_item l in
  clean_segments location location.

(** The second loop of [parse_validation_errors]: every error gets its
    cleaned location. *)
Fixpoint clean_locations (errors : list error_details)
  : result (list (list string * error_details)) :=
  match errors with
  | [] => Ok []
  | e :: rest =>
      let* new_location := clean_location (loc e) in
      let* others := clean_locations rest in
      Ok ((new_location, e) :: others)
  end.

Definition strip_unwanted_texts (message : string) : string :=
  fold_left (fun m unwanted_text => PyStr.replace unwanted_text "" m) unwanted_texts message.

(** The body of the third loop up to [new_error]. *)
Definition new_error (cleaned : list string) (e : error_details) : diagnostic :=
  let message := msg e in
  let location := PyStr.join "." cleaned in
  let input := input e in
  let '(message, location, input) :=
    match get_error_message_and_location_and_value_from_a_custom_error message with
    | Some (custom_message, custom_location, custom_input_value) =>
        (custom_message,
         if negb (String.eqb custom_location "")
         then location +:+ "." +:+ custom_location else location,
         VStr custom_input_value)
    | None => (message, location, input)
    end in
  let message := strip_unwanted_texts message in
  let message :=
    match dict_get message error_dictionary with
    | Some friendly => friendly
    | None => message
    end in
  let message :=
    if PyStr.contains "end_date" location then end_date_message else message in
  let input :=
    match str_of_scalar input with
    | Some s => s
    | None => ""
    end in
  {| d_loc := location; d_msg := message; d_input := input |}.

(** [if new_error not in new_errors: new_errors.append(new_error)] *)
Definition append_if_new (new_errors : list diagnostic) (d : diagnostic) : list diagnostic :=
  if existsb (diagnostic_eqb d) new_errors then new_errors else new_errors ++ [d].

(** The list [errors] after the first loop: the errors of the exception,
    then the errors of the causes. *)
Definition working_errors (errors : list error_object) : result (list error_details) :=
  let* causes := extend_with_causes errors in
  Ok (map details errors ++ causes).

Definition parse_validation_errors (errors : list error_object) : result (list diagnostic) :=
  let* errors := working_errors errors in
  let* cleaned := clean_locations errors in
  Ok (fold_left (fun new_errors '(l, e) => append_if_new new_errors (new_error l e))
        cleaned []).

(** ** [make_given_keywords_bold_in_a_dictionary] *)

(** [re.sub(pattern, repl, string)] of the regular-expression library; it
    raises on a pattern that does not compile. *)
Class RegexLibrary : Type := {
  re_sub : string -> string -> string -> result string
}.

Fixpoint map_result {A B : Type} (f : A -> result B) (l : list A) : result (list B) :=
  match l with
  | [] => Ok []
  | a :: l' =>
      let* b := f a in
      let* bs := map_result f l' in
      Ok (b :: bs)
  end.

Fixpoint fold_result {A S : Type} (f : S -> A -> result S) (l : list A) (s : S) : result S :=
  match l with
  | [] => Ok s
  | a :: l' =>
      let* s' := f s a in
      fold_result f l' s'
  end.

Definition word_pattern (keyword : string) : string := "\b" +:+ keyword +:+ "\b".
Definition emphasised (keyword : string) : string := "**" +:+ keyword +:+ "**".

Section Bold.
Context `{RegexLibrary}.

(** The function returns [new_dictionary]; the embedding returns with it
    the argument [dictionary] as the call leaves it, because the lists
    inside it are updated in place and are shared with [new_dictionary]
    (the copy is shallow).  An entry of the loop state is a key with the
    value under [dictionary] and the value under [new_dictionary]. *)
Fixpoint make_bold (fuel : nat) (keywords : list string)
  (dictionary : list (string * value))
  : result (list (string * value) * list (string * value)) :=
  match fuel with
  | O => Raise RecursionError
  | S fuel' =>
      let on_item (keyword : string) (item : value) : result value :=
        match item with
        | VStr s => Ok (VStr (PyStr.replace keyword (emphasised keyword) s))
        | VDict d =>
            let* r := make_bold fuel' keywords d in
            Ok (VDict (fst r))
        | _ => Ok item
        end in
      let on_entry (keyword : string) (entry : string * value * value)
        : result (string * value * value) :=
        let '(key, value, new_value) := entry in
        match value with
        | VStr s =>
            let* r := re_sub (word_pattern keyword) (emphasised keyword) s in
            Ok (key, value, VStr r)
        | VDict d =>
            let* r := make_bold fuel' keywords d in
            Ok (key, VDict (snd r), VDict (fst r))
        | VList l =>
            let* l' := map_result (on_item keyword) l in
            Ok (key, VList l', VList l')
        | _ => Ok entry
        end in
      let* entries :=
        fold_result (fun entries keyword => map_result (on_entry keyword) entries)
          keywords (map (fun '(k, v) => (k, v, v)) dictionary) in
      Ok (map (fun '(k, _, n) => (k, n)) entries,
          map (fun '(k, v, _) => (k, v)) entries)
  end.
End Bold.

(** The nesting depth of a value. *)
Fixpoint value_depth (v : value) : nat :=
  match v with
  | VList l => S (fold_right (fun x acc => Nat.max (value_depth x) acc) 0%nat l)
  | VDict d => S (fold_right (fun kv acc => Nat.max (value_depth (snd kv)) acc) 0%nat d)
  | _ => 0%nat
  end.

Definition make_given_keywords_bold_in_a_dictionary `{RegexLibrary}
  (dictionary : list (string * value)) (keywords : list string)
  : result (list (string * value)) :=
  let* r := make_bold (value_depth (VDict dictionary)) keywords dictionary in
  Ok (fst r).

(** ** [validate_design_options] *)

(** A validated design: an instance of a theme data model. *)
Record theme_instance : Type := {
  instance_class : string;
  instance_fields : list (string * value)
}.

(** A theme data model: a class with its name and its constructor, which
    validates the keyword arguments it is given.  The class of a custom
    theme is code of the theme: its constructor runs in a working directory
    and leaves a working directory, like any code. *)
Record theme_class : Type := {
  class_name : string;
  construct : path -> list (string * value) -> path * result theme_instance
}.

(** The argument [design]: an instance of some data model, or a value read
    from the input file. *)
Inductive design_arg : Type :=
| DesignInstance (i : theme_instance)
| DesignValue (v : value).

(** What the function reads from its surroundings: the constant
    [INPUT_FILE_DIRECTORY] of [rendercv_data_model], the file system (seen
    from a working directory), the import machinery and [str.capitalize].
    [exec_module cwd file] runs the code of [file] in the working directory
    [cwd]: it gives the working directory that the code leaves, and the
    module or the exception of the code. *)
Class ThemeEnvironment : Type := {
  INPUT_FILE_DIRECTORY : path;
  path_exists : path -> path -> bool;
  exec_module : path -> path -> path * result (list (string * theme_class));
  capitalize : string -> string
}.

Definition theme_name_message : string :=
  "The custom theme name should only contain letters and digits.".

Definition theme_folder_message (custom_theme_folder : path) : string :=
  "The custom theme folder `" +:+ Path.to_string custom_theme_folder
  +:+ "` does not exist."
  +:+ " It should be in the working directory as the input file.".

Definition theme_file_message (file : string) (custom_theme_folder : path) : string :=
  "You provided a custom theme, but the file `" +:+ file +:+ "` is not"
  +:+ " found in the folder `" +:+ Path.to_string custom_theme_folder +:+ "`.".

Definition theme_syntax_message (theme_name : string) : string :=
  "The custom theme " +:+ theme_name +:+ "'s __init__.py file has a syntax"
  +:+ " error. Please fix it.".

Definition theme_import_message (theme_name : string) : string :=
  "The custom theme " +:+ theme_name +:+ "'s __init__.py file has an"
  +:+ " import error. If you have copy-pasted RenderCV's built-in"
  +:+ " themes, make sure to update the import statements (e.g., "
  +:+ dq +:+ "from . import" +:+ dq +:+ " to " +:+ dq
  +:+ "from rendercv.themes import" +:+ dq +:+ ").".

(** [design["theme"]] *)
Definition design_theme (design : design_arg) : result value :=
  match design with
  | DesignInstance _ => Raise TypeError
  | DesignValue (VDict d) =>
      match dict_get "theme" d with
      | Some v => Ok v
      | None => Raise (KeyError "theme")
      end
  | DesignValue _ => Raise TypeError
  end.

(** [theme in available_theme_options]: a list or a dictionary cannot be
    hashed, and only a string can be equal to a key. *)
Definition theme_lookup (theme : value) (available_theme_options : list (string * theme_class))
  : result (option theme_class) :=
  match theme with
  | VList _ | VDict _ => Raise TypeError
  | VStr s => Ok (dict_get s available_theme_options)
  | _ => Ok None
  end.

(** The keyword arguments that unpacking [design] gives to a data model. *)
Definition design_keywords (design : design_arg) : list (string * value) :=
  match design with
  | DesignValue (VDict d) => d
  | _ => []
  end.

Definition required_files (available_entry_type_names : list string) : list string :=
  [ "SectionBeginning.j2.tex"; "SectionEnding.j2.tex"; "Preamble.j2.tex"; "Header.j2.tex" ]
  ++ map (fun entry_type_name => entry_type_name +:+ ".j2.tex") available_entry_type_names.

(** The loop over [required_files]: the first file that is missing. *)
Fixpoint first_missing_file `{ThemeEnvironment} (cwd custom_theme_folder : path)
  (files : list string) : option string :=
  match files with
  | [] => None
  | file :: rest =>
      if negb (path_exists cwd (Path.child custom_theme_folder file)) then Some file
      else first_missing_file cwd custom_theme_folder rest
  end.

(** The import of [__init__.py] and the construction of the data model of
    the theme, from the working directory [cwd]. *)
Definition import_theme_data_model `{ThemeEnvironment} (cwd : path)
  (path_to_init_file : path) (theme_name : string) (design : design_arg)
  : path * result theme_instance :=
  match exec_module cwd path_to_init_file with
  | (cwd, Raise SyntaxError) =>
      (cwd, Raise (ValueError [AStr (theme_syntax_message theme_name)]))
  | (cwd, Raise ImportError) =>
      (cwd, Raise (ValueError [ATuple1 (theme_import_message theme_name)]))
  | (cwd, Raise e) => (cwd, Raise e)
  | (cwd, Ok theme_module) =>
      match dict_get (capitalize theme_name +:+ "ThemeOptions") theme_module with
      | None => (cwd, Raise AttributeError)
      | Some ThemeDataModel => construct ThemeDataModel cwd (design_keywords design)
      end
  end.

(** The function on the working directory [cwd] at entry: the working
    directory at exit, and the value returned or the exception raised. *)
Definition validate_design_options `{ThemeEnvironment} (cwd : path)
  (design : design_arg) (available_theme_options : list (string * theme_class))
  (available_entry_type_names : list string) : path * result theme_instance :=
  let original_working_directory := cwd in
  let already_validated :=
    match design with
    | DesignInstance i =>
        existsb (fun c => String.eqb (class_name (snd c)) (instance_class i))
          available_theme_options
    | DesignValue _ => false
    end in
  match design, already_validated with
  | DesignInstance i, true => (cwd, Ok i)
  | _, _ =>
    match design_theme design with
    | Raise e => (cwd, Raise e)
    | Ok theme =>
      match theme_lookup theme available_theme_options with
      | Raise e => (cwd, Raise e)
      | Ok (Some ThemeDataModel) => construct ThemeDataModel cwd (design_keywords design)
      | Ok None =>
        let theme_name := match str_of_scalar theme with Some s => s | None => "" end in
        if negb (PyStr.isalnum theme_name) then
          (cwd, Raise (ValueError [AStr theme_name_message; AStr "theme"; AStr theme_name]))
        else
          let custom_theme_folder := Path.child INPUT_FILE_DIRECTORY theme_name in
          if negb (path_exists cwd custom_theme_folder) then
            (cwd, Raise (ValueError [ATuple1 (theme_folder_message custom_theme_folder);
                                     AStr ""; AStr theme_name]))
          else
            match first_missing_file cwd custom_theme_folder
                    (required_files available_entry_type_names) with
            | Some file =>
                (cwd, Raise (ValueError [AStr (theme_file_message file custom_theme_folder);
                                         AStr ""; AStr theme_name]))
            | None =>
                let path_to_init_file :=
                  {| anchored := false; parts := [theme_name; "__init__.py"] |} in
                let '(cwd, validated) :=
                  if path_exists cwd path_to_init_file then
                    import_theme_data_model cwd path_to_init_file theme_name design
                  else
                    (cwd, Ok {| instance_class := "ThemeOptionsAreNotProvided";
                                instance_fields := [("theme", VStr theme_name)] |}) in
                match validated with
                | Raise e => (cwd, Raise e)
                | Ok theme_data_model =>
                    (* os.chdir(original_working_directory) *)
                    (original_working_directory, Ok theme_data_model)
                end
            end
      end
    end
  end.

(** ** [run_rendercv_with_printer] *)

(** [v[key]] for a string key. *)
Definition getitem (v : value) (key : string) : result value :=
  match v with
  | VDict d =>
      match dict_get key d with
      | Some x => Ok x
      | None => Raise (KeyError key)
      end
  | _ => Raise TypeError
  end.

(** The computation of [number_of_steps] from the dictionary
    [rendercv_settings.render_command] of the input. *)
Definition compute_number_of_steps (render_command_settings_dict : value) : result Z :=
  let number_of_steps := 6%Z in
  let* png := getitem render_command_settings_dict "dont_generate_png" in
  let number_of_steps :=
    if truthy png then (number_of_steps - 1)%Z else number_of_steps in
  let* markdown := getitem render_command_settings_dict "dont_generate_markdown" in
  if truthy markdown then Ok (number_of_steps - 2)%Z
  else
    let* html := getitem render_command_settings_dict "dont_generate_html" in
    if truthy html then Ok (number_of_steps - 1)%Z else Ok number_of_steps.

(** The validated [rendercv_settings.render_command]. *)
Record render_command_settings : Type := {
  output_folder_name : string;
  typst_path : option path;
  pdf_path : option path;
  png_path : option path;
  markdown_path : option path;
  html_path : option path;
  dont_generate_png : bool;
  dont_generate_markdown : bool;
  dont_generate_html : bool
}.

Record rendercv_settings : Type := {
  bold_keywords : list string;
  render_command : render_command_settings
}.

(** The services the pipeline calls: the validation of the input, the
    renderers and [shutil.copy2].  A renderer sees the working directory in
    which it is called. *)
Class Collaborators : Type := {
  data_model : Type;
  settings_of : data_model -> option rendercv_settings;
  dump_sections : data_model -> value;
  with_sections : data_model -> list (string * value) -> result data_model;
  validate_input_dictionary_and_return_the_data_model : value -> path -> result data_model;
  create_a_typst_file_and_copy_theme_files : path -> data_model -> path -> result path;
  render_a_pdf_from_typst : path -> path -> result path;
  render_pngs_from_typst : path -> path -> result (list path);
  create_a_markdown_file : path -> data_model -> path -> result path;
  render_an_html_from_markdown : path -> path -> result path;
  copy2 : path -> path -> result unit
}.

(** What an observer sees of a run. *)
Inductive event : Type :=
| ReporterOpened (number_of_steps : Z)
| StepStarted (name : string)
| StepFinished
| Copied (source destination : path).

(** The state of the process: its working directory and what it has done
    so far, oldest event first. *)
Record world : Type := {
  cwd : path;
  events : list event
}.

Definition M (A : Type) : Type := world -> world * result A.

Definition ret {A : Type} (a : A) : M A := fun w => (w, Ok a).

Definition bindM {A B : Type} (m : M A) (k : A -> M B) : M B :=
  fun w =>
    match m w with
    | (w', Ok a) => k a w'
    | (w', Raise e) => (w', Raise e)
    end.

Notation "'let!' x ':=' m 'in' k" := (bindM m (fun x => k))
  (at level 10, x pattern, m at level 100, k at level 200).

Definition lift {A : Type} (r : result A) : M A := fun w => (w, r).

Definition emit (e : event) : M unit :=
  fun w => ({| cwd := cwd w; events := events w ++ [e] |}, Ok tt).

(** [os.chdir(p)] *)
Definition chdir (p : path) : M unit :=
  fun w => ({| cwd := p; events := events w |}, Ok tt).

Definition get_cwd : M path := fun w => (w, Ok (cwd w)).

Section Pipeline.
Context `{Collaborators} `{RegexLibrary}.

(** [copy_files] with its effects: the calls of [copy2] one after the
    other. *)
Fixpoint run_copies (calls : list (path * path)) : M unit :=
  match calls with
  | [] => ret tt
  | (source, destination) :: rest =>
      let! _ := lift (copy2 source destination) in
      let! _ := emit (Copied source destination) in
      run_copies rest
  end.

Definition copy_to (paths : artifacts) (destination : option path) : M unit :=
  match destination with
  | Some new_path => run_copies (copy_files paths new_path)
  | None => ret tt
  end.

(** The step between validation and typesetting that emphasises the
    keywords of [bold_keywords] in [cv.sections]. *)
Definition bold_keywords_step (dm : data_model) : result data_model :=
  match settings_of dm with
  | Some settings =>
      match bold_keywords settings with
      | [] => Ok dm
      | keywords =>
          match dump_sections dm with
          | VDict sections =>
              let* new_sections_field :=
                make_given_keywords_bold_in_a_dictionary sections keywords in
              with_sections dm new_sections_field
          | _ => Raise AttributeError
          end
      end
  | None => Ok dm
  end.

(** The stages after the change of directory: from the reading of the
    validated settings to the last stage. *)
Definition render_stages (dm : data_model) (working_directory : path) : M unit :=
  let! render_command_settings :=
    lift (match settings_of dm with
          | Some settings => Ok (render_command settings)
          | None => Raise AttributeError
          end) in
  let output_directory :=
    Path.child working_directory (output_folder_name render_command_settings) in
  let! _ := emit StepFinished in
  let! _ := emit (StepStarted "Generating the Typst file") in
  let! here := get_cwd in
  let! typst_file_path_in_output_folder :=
    lift (create_a_typst_file_and_copy_theme_files here dm output_directory) in
  let! _ := copy_to (OnePath typst_file_path_in_output_folder)
              (typst_path render_command_settings) in
  let! _ := emit StepFinished in
  let! _ := emit (StepStarted "Rendering the Typst file to a PDF") in
  let! pdf_file_path_in_output_folder :=
    lift (render_a_pdf_from_typst here typst_file_path_in_output_folder) in
  let! _ := copy_to (OnePath pdf_file_path_in_output_folder)
              (pdf_path render_command_settings) in
  let! _ := emit StepFinished in
  let! _ :=
    if negb (dont_generate_png render_command_settings) then
      let! _ := emit (StepStarted "Rendering PNG files from the PDF") in
      let! png_file_paths_in_output_folder :=
        lift (render_pngs_from_typst here typst_file_path_in_output_folder) in
      let! _ := copy_to (PathList png_file_paths_in_output_folder)
                  (png_path render_command_settings) in
      emit StepFinished
    else ret tt in
  if negb (dont_generate_markdown render_command_settings) then
    let! _ := emit (StepStarted "Generating the Markdown file") in
    let! markdown_file_path_in_output_folder :=
      lift (create_a_markdown_file here dm output_directory) in
    let! _ := copy_to (OnePath markdown_file_path_in_output_folder)
                (markdown_path render_command_settings) in
    let! _ := emit StepFinished in
    if negb (dont_generate_html render_command_settings) then
      let! _ := emit (StepStarted "Rendering the Markdown file to a HTML (for Grammarly)") in
      let! html_file_path_in_output_folder :=
        lift (render_an_html_from_markdown here markdown_file_path_in_output_folder) in
      let! _ := copy_to (OnePath html_file_path_in_output_folder)
                  (html_path render_command_settings) in
      emit StepFinished
    else ret tt
  else ret tt.

(** The first stage up to the data model that the later stages render:
    validation, then the emphasis of the keywords. *)
Definition validated_model (input_file_as_a_dict : value) (input_file_path : path)
  : result data_model :=
  let* dm := validate_input_dictionary_and_return_the_data_model
               input_file_as_a_dict (Path.parent input_file_path) in
  bold_keywords_step dm.

(** The body of the [with] block of the progress reporter. *)
Definition run_stages (input_file_as_a_dict : value)
  (working_directory input_file_path : path) : M unit :=
  let! _ := emit (StepStarted "Validating the input file") in
  let! dm := lift (validated_model input_file_as_a_dict input_file_path) in
  let! _ := chdir (Path.parent input_file_path) in
  render_stages dm working_directory.

(** The dictionary [rendercv_settings.render_command] of the input. *)
Definition render_command_settings_dict (input_file_as_a_dict : value) : result value :=
  let* s := getitem input_file_as_a_dict "rendercv_settings" in
  getitem s "render_command".

Definition run_rendercv_with_printer (input_file_as_a_dict : value)
  (working_directory input_file_path : path) : M unit :=
  let! settings_dict := lift (render_command_settings_dict input_file_as_a_dict) in
  let! number_of_steps := lift (compute_number_of_steps settings_dict) in
  let! _ := emit (ReporterOpened number_of_steps) in
  run_stages input_file_as_a_dict working_directory input_file_path.
End Pipeline.

(** ** [set_or_update_a_value]: the store *)

(** The function updates dictionaries and lists in place.  The store holds
    the objects that can be updated; a value is a scalar or a reference to an
    object of the store. *)
Inductive hval : Type :=
| HNone
| HBool (b : bool)
| HInt (z : Z)
| HFloat (repr : string)
| HStr (s : string)
| HRef (l : nat).

Inductive obj : Type :=
| ODict (entries : list (string * hval))
| OList (items : list hval).

Abbreviation heap := (list obj).

(** [eval] of the interpreter.  The expression is evaluated where the
    function calls it, with the local names of the function in scope:
    [py_eval value dictionary key sub_dictionary] is the evaluation of the
    string [value] when the names [dictionary], [key] and [sub_dictionary]
    hold these values ([updated_dict] is one of [dictionary] and
    [sub_dictionary]).  It gives the store that the evaluation leaves, which
    it may have changed, and the value of the expression. *)
Class Evaluator : Type := {
  py_eval : string -> hval -> string -> hval -> heap -> heap * result hval
}.

(** A value that the function evaluates: one written as a dictionary or as
    a list. *)
Definition is_evaluated (value : string) : bool :=
  (PyStr.startswith "{" value && PyStr.endswith "}" value)
  || (PyStr.startswith "[" value && PyStr.endswith "]" value).

(** A value that is not evaluated, or whose evaluation creates objects but
    leaves the existing ones as they are, as the evaluation of a literal
    does. *)
Definition evaluation_only_allocates `{Evaluator} (value : string) : Prop :=
  is_evaluated value = true ->
  forall (dictionary : hval) (key : string) (sub_dictionary : hval) (h : heap),
  exists fresh : heap, fst (py_eval value dictionary key sub_dictionary h) = h ++ fresh.

Definition H (A : Type) : Type := heap -> heap * result A.

Definition retH {A : Type} (a : A) : H A := fun h => (h, Ok a).

Definition raiseH {A : Type} (e : exn) : H A := fun h => (h, Raise e).

Definition bindH {A B : Type} (m : H A) (k : A -> H B) : H B :=
  fun h =>
    match m h with
    | (h', Ok a) => k a h'
    | (h', Raise e) => (h', Raise e)
    end.

Notation "'let^' x ':=' m 'in' k" := (bindH m (fun x => k))
  (at level 10, x pattern, m at level 100, k at level 200).

(** A new object at the end of the store. *)
Definition alloc (o : obj) : H hval :=
  fun h => (h ++ [o], Ok (HRef (List.length h))).

(** The position that the index [i] has in a list of length [n]: negative
    indices count from the end. *)
Definition list_index (n : nat) (i : Z) : option nat :=
  if ((0 <=? i) && (i <? Z.of_nat n))%Z then Some (Z.to_nat i)
  else if ((- Z.of_nat n <=? i) && (i <? 0))%Z then Some (Z.to_nat (Z.of_nat n + i))
  else None.

(** A key after the conversion that the function applies to it: still a
    string, or the integer that [int] made of it. *)
Inductive subscript : Type :=
| KStr (s : string)
| KInt (i : Z).

(** [isinstance(v, list)] *)
Definition is_list (v : hval) : H bool :=
  fun h =>
    (h, Ok match v with
           | HRef l => match h !! l with Some (OList _) => true | _ => false end
           | _ => false
           end).

(** [key = int(key)] when the container is a list. *)
Definition convert_key (updated_dict : hval) (key : string) : H subscript :=
  let^ list := is_list updated_dict in
  if list : bool then
    match PyStr.int key with
    | Some i => retH (KInt i)
    | None => raiseH (ValueError [AStr "invalid literal for int() with base 10"])
    end
  else retH (KStr key).

(** [container[key]] *)
Definition getitemH (container : hval) (key : subscript) : H hval :=
  fun h =>
    match container with
    | HRef l =>
        match h !! l, key with
        | Some (ODict d), KStr k =>
            match dict_get k d with
            | Some v => (h, Ok v)
            | None => (h, Raise (KeyError k))
            end
        | Some (ODict d), KInt i => (h, Raise (KeyError (PyStr.str_of_Z i)))
        | Some (OList items), KInt i =>
            match list_index (List.length items) i with
            | Some n =>
                match items !! n with
                | Some v => (h, Ok v)
                | None => (h, Raise IndexError)
                end
            | None => (h, Raise IndexError)
            end
        | Some (OList _), KStr _ => (h, Raise TypeError)
        | None, _ => (h, Raise TypeError)
        end
    | _ => (h, Raise TypeError)
    end.

(** [container[key] = v] *)
Definition setitemH (container : hval) (key : subscript) (v : hval) : H unit :=
  fun h =>
    match container with
    | HRef l =>
        match h !! l, key with
        | Some (ODict d), KStr k => (<[l := ODict (dict_set k v d)]> h, Ok tt)
        | Some (ODict d), KInt i =>
            (<[l := ODict (dict_set (PyStr.str_of_Z i) v d)]> h, Ok tt)
        | Some (OList items), KInt i =>
            match list_index (List.length items) i with
            | Some n => (<[l := OList (<[n := v]> items)]> h, Ok tt)
            | None => (h, Raise IndexError)
            end
        | Some (OList _), KStr _ => (h, Raise TypeError)
        | None, _ => (h, Raise TypeError)
        end
    | _ => (h, Raise TypeError)
    end.

(** [key in container] for a string key. *)
Definition containsH (key : string) (container : hval) : H bool :=
  fun h =>
    match container with
    | HRef l =>
        match h !! l with
        | Some (ODict d) => (h, Ok (dict_has key d))
        | Some (OList _) => (h, Ok false)
        | None => (h, Raise TypeError)
        end
    | HStr s => (h, Ok (PyStr.contains key s))
    | _ => (h, Raise TypeError)
    end.

Section Override.
Context `{Evaluator}.

(** The value that is assigned: the string, or what it evaluates to when
    it is written as a dictionary or as a list. *)
Definition decode_value (value : string) (dictionary : hval) (key : string)
  (sub_dictionary : hval) : H hval :=
  if PyStr.startswith "{" value && PyStr.endswith "}" value
  then py_eval value dictionary key sub_dictionary
  else if PyStr.startswith "[" value && PyStr.endswith "]" value
  then py_eval value dictionary key sub_dictionary
  else retH (HStr value).

(** The function on the segments of its key: [first_key] is the first
    segment and [rest] are the others, so that [rest] is empty exactly
    when the split of the key has one element. *)
Fixpoint set_or_update_segments (dictionary : hval) (first_key : string)
  (rest : list string) (value : string) (sub_dictionary : hval) : H hval :=
  let updated_dict :=
    match sub_dictionary with
    | HNone => dictionary
    | _ => sub_dictionary
    end in
  match rest with
  | [] =>
      let^ value := decode_value value dictionary first_key sub_dictionary in
      let^ key := convert_key updated_dict first_key in
      let^ _ := setitemH updated_dict key value in
      retH updated_dict
  | next :: rest' =>
      let^ first_key' := convert_key updated_dict first_key in
      let^ sub_dictionary :=
        match first_key' with
        | KInt _ => getitemH updated_dict first_key'
        | KStr k =>
            let^ present := containsH k updated_dict in
            if present : bool then getitemH updated_dict first_key'
            else alloc (ODict [])
        end in
      let^ updated_sub_dict :=
        set_or_update_segments dictionary next rest' value sub_dictionary in
      let^ _ := setitemH updated_dict first_key' updated_sub_dict in
      retH updated_dict
  end.

Definition set_or_update_a_value (dictionary : hval) (key value : string)
  (sub_dictionary : hval) : H hval :=
  match PyStr.split "." key with
  | first_key :: rest =>
      set_or_update_segments dictionary first_key rest value sub_dictionary
  | [] => retH dictionary
  end.

(** [set_or_update_values]: the instructions one after the other, each on
    the dictionary that the one before returned. *)
Fixpoint set_or_update_values (dictionary : hval)
  (key_and_values : list (string * string)) : H hval :=
  match key_and_values with
  | [] => retH dictionary
  | (key, value) :: others =>
      let^ dictionary := set_or_update_a_value dictionary key value HNone in
      set_or_update_values dictionary others
  end.
End Override.

(** ** [set_or_update_a_value]: on trees *)

(** The same function on a configuration that is a tree: no object of the
    store is reachable twice, so an update in place is an update of the
    tree, and the dictionary returned is the tree after the update.  The
    updates happen on the way back up, so that on the way down, and where
    the value is evaluated, the root [dictionary] is still the tree at
    entry.  A [None] met on the way down makes the function continue in the
    root dictionary; when that run returns, the root is stored inside one of
    its own descendants: the result is not a tree, and the embedding says so
    with [Cyclic]. *)
Inductive outcome : Type :=
| Done (t : value)
| Failed (e : exn)
| Cyclic.

(** [eval] on a string, for a configuration that is a tree, with the names
    of the function in scope: [eval_tree value dictionary key
    sub_dictionary].  The evaluation reads the configuration and changes
    nothing, and its value is made of new objects. *)
Class TreeEvaluator : Type := {
  eval_tree : string -> value -> string -> value -> result value
}.

Module Tree.

Definition is_list (v : value) : bool :=
  match v with VList _ => true | _ => false end.

Definition convert_key (updated_dict : value) (key : string) : result subscript :=
  if is_list updated_dict then
    match PyStr.int key with
    | Some i => Ok (KInt i)
    | None => Raise (ValueError [AStr "invalid literal for int() with base 10"])
    end
  else Ok (KStr key).

Definition getitem (container : value) (key : subscript) : result value :=
  match container, key with
  | VDict d, KStr k =>
      match dict_get k d with
      | Some v => Ok v
      | None => Raise (KeyError k)
      end
  | VDict d, KInt i => Raise (KeyError (PyStr.str_of_Z i))
  | VList items, KInt i =>
      match list_index (List.length items) i with
      | Some n =>
          match items !! n with
          | Some v => Ok v
          | None => Raise IndexError
          end
      | None => Raise IndexError
      end
  | _, _ => Raise TypeError
  end.

Definition setitem (container : value) (key : subscript) (v : value) : result value :=
  match container, key with
  | VDict d, KStr k => Ok (VDict (dict_set k v d))
  | VDict d, KInt i => Ok (VDict (dict_set (PyStr.str_of_Z i) v d))
  | VList items, KInt i =>
      match list_index (List.length items) i with
      | Some n => Ok (VList (<[n := v]> items))
      | None => Raise IndexError
      end
  | _, _ => Raise TypeError
  end.

Definition contains (key : string) (container : value) : result bool :=
  match container with
  | VDict d => Ok (dict_has key d)
  | VList _ => Ok false
  | VStr s => Ok (PyStr.contains key s)
  | _ => Raise TypeError
  end.

Definition of_result (r : result value) : outcome :=
  match r with
  | Ok t => Done t
  | Raise e => Failed e
  end.

(** The sub-dictionary in which the function continues: the value under
    the key, or a new dictionary when a string key is missing. *)
Definition read_sub_dictionary (updated_dict : value) (first_key : subscript)
  : result value :=
  match first_key with
  | KInt _ => getitem updated_dict first_key
  | KStr k =>
      let* present := contains k updated_dict in
      if present : bool then getitem updated_dict first_key
      else Ok (VDict [])
  end.

Section WithEvaluator.
Context `{TreeEvaluator}.

Definition decode_value (raw_value : string) (dictionary : value) (key : string)
  (sub_dictionary : value) : result value :=
  if PyStr.startswith "{" raw_value && PyStr.endswith "}" raw_value
  then eval_tree raw_value dictionary key sub_dictionary
  else if PyStr.startswith "[" raw_value && PyStr.endswith "]" raw_value
  then eval_tree raw_value dictionary key sub_dictionary
  else Ok (VStr raw_value).

Fixpoint set_or_update_segments (dictionary : value) (first_key : string)
  (rest : list string) (raw_value : string) (sub_dictionary : value) : outcome :=
  let updated_dict :=
    match sub_dictionary with
    | VNone => dictionary
    | _ => sub_dictionary
    end in
  match rest with
  | [] =>
      of_result
        (let* new_value := decode_value raw_value dictionary first_key sub_dictionary in
         let* key := convert_key updated_dict first_key in
         setitem updated_dict key new_value)
  | next :: rest' =>
      match convert_key updated_dict first_key with
      | Raise e => Failed e
      | Ok first_key' =>
          match read_sub_dictionary updated_dict first_key' with
          | Raise e => Failed e
          | Ok sub =>
              match set_or_update_segments dictionary next rest' raw_value sub with
              | Failed e => Failed e
              | Cyclic => Cyclic
              | Done updated_sub_dict =>
                  match sub with
                  | VNone =>
                      (* the run was in the root, which is now stored in
                         [updated_dict], one of its descendants *)
                      Cyclic
                  | _ => of_result (setitem updated_dict first_key' updated_sub_dict)
                  end
              end
          end
      end
  end.

Definition set_or_update_a_value (dictionary : value) (key raw_value : string)
  : outcome :=
  match PyStr.split "." key with
  | first_key :: rest => set_or_update_segments dictionary first_key rest raw_value VNone
  | [] => Done dictionary
  end.

Fixpoint set_or_update_values (dictionary : value)
  (key_and_values : list (string * string)) : outcome :=
  match key_and_values with
  | [] => Done dictionary
  | (key, raw_value) :: others =>
      match set_or_update_a_value dictionary key raw_value with
      | Done dictionary' => set_or_update_values dictionary' others
      | other => other
      end
  end.
End WithEvaluator.

End Tree.

(** ** A concrete run *)

(** Collaborators that always succeed, for runs on concrete inputs: the
    data model is the validated settings, every renderer writes one file
    named after its stage into the directory it is given, and the PNG
    renderer writes two pages. *)
Module Demo.

Definition rel (l : list string) : path := {| anchored := false; parts := l |}.
Definition root (l : list string) : path := {| anchored := true; parts := l |}.

Definition settings : rendercv_settings :=
  {| bold_keywords := [];
     render_command :=
       {| output_folder_name := "rendercv_output";
          typst_path := None; pdf_path := None;
          png_path := Some (rel ["out"; "cv.pdf"]);
          markdown_path := None; html_path := None;
          dont_generate_png := false;
          dont_generate_markdown := false;
          dont_generate_html := false |} |}.

Definition collaborators : Collaborators :=
  {| data_model := rendercv_settings;
     settings_of := Some;
     dump_sections := fun _ => VDict [];
     with_sections := fun dm _ => Ok dm;
     validate_input_dictionary_and_return_the_data_model := fun _ _ => Ok settings;
     create_a_typst_file_and_copy_theme_files := fun _ _ out => Ok (Path.child out "cv.typ");
     render_a_pdf_from_typst := fun _ typ => Ok (Path.child (Path.parent typ) "cv.pdf");
     render_pngs_from_typst := fun _ typ =>
       Ok [Path.child (Path.parent typ) "cv_1.png"; Path.child (Path.parent typ) "cv_2.png"];
     create_a_markdown_file := fun _ _ out => Ok (Path.child out "cv.md");
     render_an_html_from_markdown := fun _ md => Ok (Path.child (Path.parent md) "cv.html");
     copy2 := fun _ _ => Ok tt |}.

(** A regular-expression library that substitutes nothing. *)
Definition regex : RegexLibrary := {| re_sub := fun _ _ s => Ok s |}.

Definition settings_dict : value :=
  VDict [("dont_generate_png", VBool true);
         ("dont_generate_markdown", VBool false);
         ("dont_generate_html", VBool true)].

Definition input : value :=
  VDict [("rendercv_settings", VDict [("render_command", settings_dict)])].

Definition working_directory : path := root ["home"; "user"].
Definition input_file_path : path := root ["data"; "cv.yaml"].

Definition start : world := {| cwd := working_directory; events := [] |}.

(** A file system in which every file exists but [__init__.py]. *)
Definition environment : ThemeEnvironment :=
  {| INPUT_FILE_DIRECTORY := root ["data"];
     path_exists := fun _ p => negb (String.eqb (Path.name p) "__init__.py");
     exec_module := fun cwd _ => (cwd, Raise ImportError);
     capitalize := fun s => s |}.

(** An evaluator that knows the empty dictionary and the empty list. *)
Definition evaluator : Evaluator :=
  {| py_eval := fun s _ _ _ h =>
       if String.eqb s "{}" then alloc (ODict []) h
       else if String.eqb s "[]" then alloc (OList []) h
       else (h, Raise SyntaxError) |}.

Definition tree_evaluator : TreeEvaluator :=
  {| eval_tree := fun s _ _ _ =>
       if String.eqb s "{}" then Ok (VDict [])
       else if String.eqb s "[]" then Ok (VList [])
       else Raise SyntaxError |}.

End Demo.

(** ** Statements and notions used by the properties *)

(** What a computation of the pipeline does to the world: it only adds
    events. *)
Definition only_adds_events {A : Type} (m : M A) : Prop :=
  forall w, exists added, events (fst (m w)) = events w ++ added.

(** A computation that leaves the working directory alone. *)
Definition keeps_cwd {A : Type} (m : M A) : Prop :=
  forall w, cwd (fst (m w)) = cwd w.


(** C5 as the specification states it, for theme resolution. *)
Definition theme_resolution_restores_cwd `{ThemeEnvironment} : Prop :=
  forall cwd0 design available_theme_options available_entry_type_names,
    fst (validate_design_options cwd0 design available_theme_options
           available_entry_type_names) = cwd0.



(** A data model that accepts every design and stays where it is. *)
Definition accepting_class : theme_class :=
  {| class_name := "MythemeThemeOptions";
     construct := fun cwd keywords =>
       (cwd, Ok {| instance_class := "MythemeThemeOptions";
                   instance_fields := keywords |}) |}.

(** Themes whose [__init__.py] changes the working directory to [/tmp]:
    the one of the theme [Broken] then fails on an import, the others define
    the data model [MythemeThemeOptions].  Every file exists. *)
Definition wandering_environment : ThemeEnvironment :=
  {| INPUT_FILE_DIRECTORY := {| anchored := true; parts := ["data"] |};
     path_exists := fun _ _ => true;
     exec_module := fun _ file =>
       ({| anchored := true; parts := ["tmp"] |},
        if String.eqb (List.hd "" (parts file)) "Broken" then Raise ImportError
        else Ok [("MythemeThemeOptions", accepting_class)]);
     capitalize := fun s => s |}.


(** C9 as the specification states it: the artifact at position [i] (from
    0) goes to a name that ends with the index [i + 1] followed by the
    suffix of the configured destination. *)
Definition destinations_keep_suffix (paths : list path) (new_path : path) : Prop :=
  forall i source destination,
    copy_files (PathList paths) new_path !! i = Some (source, destination) ->
    paths !! i = Some source /\
    PyStr.endswith (PyStr.str_of_nat (i + 1) +:+ Path.suffix new_path)
      (Path.name destination) = true.

(** The (key, value) pairs of the argument list: the tokens at the even
    positions with the tokens that follow them. *)
Fixpoint pairs (args : list string) : list (string * string) :=
  match args with
  | key :: value :: rest => (key, value) :: pairs rest
  | _ => []
  end.

Definition dashes_removed (key : string) : string := PyStr.replace "--" "" key.

(** The key of the claim, written from its words: the token read from the
    left, with every occurrence of two dashes deleted and every other
    character kept. *)
Fixpoint without_double_dashes (token : string) : string :=
  match token with
  | EmptyString => EmptyString
  | String c rest =>
      match rest with
      | String c' rest' =>
          if Ascii.eqb c "-" && Ascii.eqb c' "-" then without_double_dashes rest'
          else String c (without_double_dashes rest)
      | EmptyString => String c EmptyString
      end
  end.

(** The characters of a string that are not dashes, in order. *)
Fixpoint other_characters (s : string) : string :=
  match s with
  | EmptyString => EmptyString
  | String c rest =>
      if Ascii.eqb c "-" then other_characters rest
      else String c (other_characters rest)
  end.

(** The pattern of the specification for a custom theme name: one or more
    characters, each an ASCII letter or digit. *)
Definition matches_theme_pattern (theme_name : string) : bool :=
  match theme_name with
  | EmptyString => false
  | String _ _ => PyStr.all_chars PyStr.char_is_ascii_alnum theme_name
  end.

Definition char_is_ascii (c : ascii) : bool := (PyStr.code c <? 128)%nat.

Definition theme_name_error (theme_name : string) : exn :=
  ValueError [AStr theme_name_message; AStr "theme"; AStr theme_name].

(** C4 as the specification states it: a custom theme name outside the
    pattern is refused with the error of three parts. *)
Definition refuses_names_outside_pattern `{ThemeEnvironment} : Prop :=
  forall cwd0 design available_theme_options available_entry_type_names theme theme_name,
    design_theme design = Ok theme ->
    theme_lookup theme available_theme_options = Ok None ->
    str_of_scalar theme = Some theme_name ->
    matches_theme_pattern theme_name = false ->
    snd (validate_design_options cwd0 design available_theme_options
           available_entry_type_names) = Raise (theme_name_error theme_name).

(** The one-letter theme name made of U+00E9, e with an acute accent. *)
Definition accented_name : string := String "233"%char "".

(** The markers that a segment contains. *)
Definition markers_in (segment : string) : list string :=
  filter (fun m => PyStr.contains m segment = true) unwanted_locations.

(** Errors on which the function does not raise: an error whose message
    has the marker of a section error and whose context holds an exception
    has a cause, and no segment of a location contains more than one
    marker. *)
Definition has_cause (e : error_object) : Prop :=
  PyStr.contains section_error_marker (msg (details e)) = true ->
  ctx e <> CtxError None.

Definition single_markers (l : list loc_item) : Prop :=
  forall item, In item l -> List.length (markers_in (str_of_loc_item item)) <= 1.

Definition cause_locations (e : error_object) : list (list loc_item) :=
  match ctx e with
  | CtxError (Some cause) => map loc cause
  | _ => []
  end.

Definition well_formed (errors : list error_object) : Prop :=
  forall e, In e errors ->
    has_cause e /\ single_markers (loc (details e)) /\
    forall l, In l (cause_locations e) -> single_markers l.





(** Two objects of the same kind and, for lists, of the same length. *)
Definition same_shape (o o' : obj) : Prop :=
  match o, o' with
  | ODict _, ODict _ => True
  | OList l, OList l' => List.length l = List.length l'
  | _, _ => False
  end.

(** Every object of [h] is still there in [h'], with the same shape. *)
Definition shape_le (h h' : heap) : Prop :=
  forall l o, h !! l = Some o -> exists o', h' !! l = Some o' /\ same_shape o o'.

(** A computation that keeps the shape of every object. *)
Definition keeps_shapes {A : Type} (m : H A) : Prop :=
  forall h, shape_le h (fst (m h)).

(** A store with the dictionary [{"a": [1]}], whose list is the object 1. *)
Definition small_store : heap := [ODict [("a", HRef 1)]; OList [HInt 1]].

(** C7 as the specification states it: an instruction that fails leaves
    every object of the store as it was. *)
Definition failed_override_changes_nothing `{Evaluator} : Prop :=
  forall (dictionary : hval) (key value : string) (h : heap) (e : exn),
    snd (set_or_update_a_value dictionary key value HNone h) = Raise e ->
    forall l o, h !! l = Some o ->
      fst (set_or_update_a_value dictionary key value HNone h) !! l = Some o.

(** A value written as a list, whose first element empties the
    configuration and whose second element divides by zero. *)
Definition clearing_expression : string := "[dictionary.clear(), 1/0]".

(** An evaluator that knows this one expression: the elements of the list
    are evaluated from the left, so [dictionary] is emptied before the
    division raises. *)
Definition clearing_evaluator : Evaluator :=
  {| py_eval := fun s dictionary _ _ h =>
       if String.eqb s clearing_expression then
         match dictionary with
         | HRef l =>
             match h !! l with
             | Some (ODict _) => (<[l := ODict []]> h, Raise ZeroDivisionError)
             | Some (OList _) => (<[l := OList []]> h, Raise ZeroDivisionError)
             | None => (h, Raise AttributeError)
             end
         | _ => (h, Raise AttributeError)
         end
       else (h, Raise SyntaxError) |}.

(** One level of an override: a dictionary with one key set, or a list with
    one element replaced. *)
Inductive one_slot_set : value -> value -> Prop :=
| slot_of_dict (d : list (string * value)) (k : string) (v : value) :
    one_slot_set (VDict d) (VDict (dict_set k v d))
| slot_of_list (items : list value) (n : nat) (v : value) :
    n < List.length items ->
    one_slot_set (VList items) (VList (<[n := v]> items)).

(** A tree with a name and a list of two numbers. *)
Definition small_tree : value :=
  VDict [("cv", VDict [("name", VStr "A")]); ("pages", VList [VInt 1; VInt 2])].

(** [updated_dict]: the dictionary in which a call works. *)
Definition updated_dict_of (dictionary sub_dictionary : value) : value :=
  match sub_dictionary with
  | VNone => dictionary
  | _ => sub_dictionary
  end.

(** A value that is not evaluated, or whose evaluation does not depend on
    the names in scope, as the evaluation of a literal does not. *)
Definition evaluation_ignores_scope `{TreeEvaluator} (raw_value : string) : Prop :=
  is_evaluated raw_value = true ->
  forall dictionary key sub_dictionary dictionary' key' sub_dictionary',
    eval_tree raw_value dictionary key sub_dictionary
    = eval_tree raw_value dictionary' key' sub_dictionary'.

(** What an assignment under [segment] keeps of a container: a dictionary
    keeps its keys, and the keys other than [segment] keep their values; a
    list keeps its length, and the positions other than the one of [segment]
    keep their elements. *)
Definition keeps_the_siblings (segment : string) (c c' : value) : Prop :=
  match c, c' with
  | VDict d, VDict d' =>
      (forall k, dict_has k d = true -> dict_has k d' = true) /\
      (forall k, k <> segment -> dict_get k d' = dict_get k d)
  | VList items, VList items' =>
      List.length items' = List.length items /\
      (forall i n, PyStr.int segment = Some i ->
                   list_index (List.length items) i = Some n ->
                   forall j, j <> n -> items' !! j = items !! j)
  | _, _ => False
  end.

(** C8 as the specification states it: a second override of a path gives
    what it gives on the original tree. *)
Definition overwrite_is_idempotent `{TreeEvaluator} : Prop :=
  forall (tree : value) (key v1 v2 : string) (t1 : value),
    Tree.set_or_update_a_value tree key v1 = Done t1 ->
    Tree.set_or_update_a_value t1 key v2 = Tree.set_or_update_a_value tree key v2.

(** A value written as a list, whose element is the number of keys of the
    configuration. *)
Definition counting_expression : string := "[len(dictionary)]".

(** An evaluator that knows this one expression. *)
Definition counting_evaluator : TreeEvaluator :=
  {| eval_tree := fun s dictionary _ _ =>
       if String.eqb s counting_expression then
         match dictionary with
         | VDict d => Ok (VList [VInt (Z.of_nat (List.length d))])
         | VList items => Ok (VList [VInt (Z.of_nat (List.length items))])
         | VStr text => Ok (VList [VInt (Z.of_nat (String.length text))])
         | _ => Raise TypeError
         end
       else Raise SyntaxError |}.

(** The value that the argument list gives last to the key [k]. *)
Definition last_value (k : string) (ps : list (string * string)) : option string :=
  fold_left (fun found kv => if String.eqb k (dashes_removed (fst kv)) then Some (snd kv) else found)
    ps None.

(** How Python writes an exception with three string arguments, when the
    strings have no quote, no backslash and no control character: the three
    strings in single quotes, separated by a comma and a space, in
    parentheses. *)
Definition custom_error_string (message location input_value : string) : string :=
  "('" +:+ message +:+ "', '" +:+ location +:+ "', '" +:+ input_value +:+ "')".

Definition is_quote (c : ascii) : bool :=
  Ascii.eqb c "'" || Ascii.eqb c double_quote.

(** [c.isprintable()] up to U+00FF: not a control character, not the
    no-break space U+00A0, not the soft hyphen U+00AD. *)
Definition char_isprintable (c : ascii) : bool :=
  let n := PyStr.code c in
  PyStr.between 32 126 n || PyStr.between 161 172 n || PyStr.between 174 255 n.

Definition hex_digit (n : nat) : ascii :=
  match String.get n "0123456789abcdef" with
  | Some c => c
  | None => "0"%char
  end.

(** One character inside [repr(s)], between the quotes [quote]. *)
Definition repr_char (quote c : ascii) : string :=
  let n := PyStr.code c in
  if Ascii.eqb c quote || Ascii.eqb c "\" then String "\" (String c "")
  else if (n =? 9)%nat then "\t"
  else if (n =? 10)%nat then "\n"
  else if (n =? 13)%nat then "\r"
  else if char_isprintable c then String c ""
  else String "\" (String "x" (String (hex_digit (n / 16)) (String (hex_digit (n mod 16)) ""))).

Fixpoint repr_body (quote : ascii) (s : string) : string :=
  match s with
  | EmptyString => EmptyString
  | String c rest => repr_char quote c +:+ repr_body quote rest
  end.

Fixpoint has_char (c : ascii) (s : string) : bool :=
  match s with
  | EmptyString => false
  | String c' rest => Ascii.eqb c c' || has_char c rest
  end.

(** [repr(s)] for a string of characters up to U+00FF: in single quotes,
    or in double quotes when the string has a single quote and no double
    quote. *)
Definition py_repr (s : string) : string :=
  let quote :=
    if has_char "'" s && negb (has_char double_quote s) then double_quote else "'"%char in
  String quote (repr_body quote s +:+ String quote "").

Definition repr_of_arg (a : exn_arg) : string :=
  match a with
  | AStr s => py_repr s
  | ATuple1 s => "(" +:+ py_repr s +:+ ",)"
  end.

(** [str(e)] for an exception raised with the arguments [args]: nothing
    without arguments, the string of the argument when there is one, the
    representation of the tuple of arguments otherwise. *)
Definition str_of_exception_args (args : list exn_arg) : string :=
  match args with
  | [] => ""
  | [AStr s] => s
  | [a] => repr_of_arg a
  | _ => "(" +:+ PyStr.join ", " (map repr_of_arg args) +:+ ")"
  end.

(** The last character of a string. *)
Fixpoint last_char (s : string) : option ascii :=
  match s with
  | EmptyString => None
  | String c rest =>
      match rest with
      | EmptyString => Some c
      | String _ _ => last_char rest
      end
  end.

(** A string that [repr] leaves as it is between single quotes: printable
    characters, no quote and no backslash. *)
Definition repr_plain (s : string) : bool :=
  PyStr.all_chars (fun c => char_isprintable c && negb (is_quote c)
                            && negb (Ascii.eqb c "\")) s.

(** The number of quotes, single or double, in a string. *)
Fixpoint count_quotes (s : string) : nat :=
  match s with
  | EmptyString => 0
  | String c s' => (if is_quote c then 1 else 0) + count_quotes s'
  end.

(** The number of items of a pattern that only a quote can match. *)
Fixpoint quote_items (re : list re_item) : nat :=
  match re with
  | [] => 0
  | RChar c :: re' => (if is_quote c then 1 else 0) + quote_items re'
  | ROneOf cs :: re' => (if forallb is_quote cs then 1 else 0) + quote_items re'
  | RGroupAny :: re' => quote_items re'
  end.

(** A string without quotes and without line feeds. *)
Definition quote_free (s : string) : bool :=
  PyStr.all_chars (fun c => negb (is_quote c) && Re.dot c) s.

(** A segment that contains none of the unwanted markers. *)
Definition unmarked (segment : string) : bool :=
  negb (existsb (fun m => PyStr.contains m segment) unwanted_locations).

(** Reading a tree along the segments of a path, with the conversion of a
    segment to an index that the function applies in a list. *)
Fixpoint lookup_path (t : value) (segments : list string) : option value :=
  match segments with
  | [] => Some t
  | segment :: rest =>
      match Tree.convert_key t segment with
      | Ok key =>
          match Tree.getitem t key with
          | Ok sub => lookup_path sub rest
          | Raise _ => None
          end
      | Raise _ => None
      end
  end.

(** The value [v] under the keys [segments], each in a dictionary of its
    own. *)
Fixpoint chain_of_dictionaries (segments : list string) (v : value) : value :=
  match segments with
  | [] => v
  | segment :: rest => VDict [(segment, chain_of_dictionaries rest v)]
  end.

(** ** [update_render_command_settings_of_the_input_file] *)

(** A command-line argument of the [render] command: absent, a flag or a
    string. *)
Inductive cli_value : Type :=
| CNone
| CBool (b : bool)
| CStr (s : string).

Definition cli_value_eqb (a b : cli_value) : bool :=
  match a, b with
  | CNone, CNone => true
  | CBool x, CBool y => Bool.eqb x y
  | CStr x, CStr y => String.eqb x y
  | _, _ => false
  end.

Definition value_of_cli (c : cli_value) : value :=
  match c with
  | CNone => VNone
  | CBool b => VBool b
  | CStr s => VStr s
  end.

(** [key in container] for a string key: a key of a dictionary, an element
    of a list, a substring of a string. *)
Definition py_in (key : string) (container : value) : result bool :=
  match container with
  | VDict d => Ok (dict_has key d)
  | VList items =>
      Ok (existsb (fun v => match v with VStr s => String.eqb s key | _ => false end) items)
  | VStr s => Ok (PyStr.contains key s)
  | _ => Raise TypeError
  end.

(** [container[key] = {}] when the key is not in the container. *)
Definition ensure_dictionary (container : value) (key : string) : result value :=
  let* present := py_in key container in
  if present : bool then Ok container
  else Tree.setitem container (KStr key) (VDict []).

(** One turn of the loop over the arguments of the command line;
    [default_render_command_cli_arguments] are the defaults that
    [get_default_render_command_cli_arguments] reads from the signature of
    the command. *)
Definition update_one_argument (default_render_command_cli_arguments : list (string * cli_value))
  (render_command_field : value) (argument : string * cli_value) : result value :=
  let '(key, value) := argument in
  match dict_get key default_render_command_cli_arguments with
  | None => Raise (KeyError key)
  | Some default =>
      if negb (cli_value_eqb value default)
      then Tree.setitem render_command_field (KStr key) (value_of_cli value)
      else
        let* present := py_in key render_command_field in
        if negb present
        then Tree.setitem render_command_field (KStr key) (value_of_cli value)
        else Ok render_command_field
  end.

(** The function on an input that is a tree: the updates in place of the
    nested dictionaries are written back into the dictionaries that hold
    them. *)
Definition update_render_command_settings_of_the_input_file
  (default_render_command_cli_arguments : list (string * cli_value))
  (input_file_as_a_dict : value)
  (render_command_cli_arguments : list (string * cli_value)) : result value :=
  let* input_file_as_a_dict := ensure_dictionary input_file_as_a_dict "rendercv_settings" in
  let* settings := Tree.getitem input_file_as_a_dict (KStr "rendercv_settings") in
  let* settings := ensure_dictionary settings "render_command" in
  let* render_command_field := Tree.getitem settings (KStr "render_command") in
  let* render_command_field :=
    fold_result (update_one_argument default_render_command_cli_arguments)
      render_command_cli_arguments render_command_field in
  let* settings := Tree.setitem settings (KStr "render_command") render_command_field in
  Tree.setitem input_file_as_a_dict (KStr "rendercv_settings") settings.

(** What the loop leaves under a key of the command line: the value of the
    command line, unless that value is the default and the file has the key
    already. *)
Definition merged_argument (default : cli_value) (in_file : option value)
  (given : cli_value) : value :=
  if negb (cli_value_eqb given default) then value_of_cli given
  else match in_file with
       | Some v => v
       | None => value_of_cli given
       end.

(** The dictionary under a key that may be missing: the empty dictionary
    when the key is missing, nothing when the key holds something else than
    a dictionary. *)
Definition dictionary_at (key : string) (d : list (string * value))
  : option (list (string * value)) :=
  match dict_get key d with
  | None => Some []
  | Some (VDict sub) => Some sub
  | Some _ => None
  end.

(** The body of [make_bold] for one list item and for one entry, with the
    recursive call as a parameter. *)
Definition on_item_with (recur : list (string * value) ->
                                 result (list (string * value) * list (string * value)))
  (keyword : string) (item : value) : result value :=
  match item with
  | VStr s => Ok (VStr (PyStr.replace keyword (emphasised keyword) s))
  | VDict d =>
      let* r := recur d in
      Ok (VDict (fst r))
  | _ => Ok item
  end.

Definition on_entry_with `{RegexLibrary}
  (recur : list (string * value) ->
           result (list (string * value) * list (string * value)))
  (keyword : string) (entry : string * value * value)
  : result (string * value * value) :=
  let '(key, value, new_value) := entry in
  match value with
  | VStr s =>
      let* r := re_sub (word_pattern keyword) (emphasised keyword) s in
      Ok (key, value, VStr r)
  | VDict d =>
      let* r := recur d in
      Ok (key, VDict (snd r), VDict (fst r))
  | VList l =>
      let* l' := map_result (on_item_with recur keyword) l in
      Ok (key, VList l', VList l')
  | _ => Ok entry
  end.

(** A value that is neither a string nor a dictionary nor a list. *)
Definition is_plain_scalar (v : value) : bool :=
  match v with
  | VNone | VBool _ | VInt _ | VFloat _ => true
  | _ => false
  end.

(** What a turn of the loop keeps of an entry: its key, and its values
    when the value is neither text nor a container. *)
Definition entry_kept (before after : string * value * value) : Prop :=
  fst (fst after) = fst (fst before) /\
  (is_plain_scalar (snd (fst before)) = true -> after = before).

(** A regular-expression library whose failures are its own. *)
Definition regex_failures_are_its_own `{RegexLibrary} : Prop :=
  forall pattern repl s, re_sub pattern repl s <> Raise RecursionError.

(** The failures of the regular-expression library on the patterns of the
    keywords. *)
Definition regex_failure `{RegexLibrary} (keywords : list string) (e : exn) : Prop :=
  exists keyword s,
    In keyword keywords /\
    re_sub (word_pattern keyword) (emphasised keyword) s = Raise e.

(** An entry of the loop whose two values are nested at most [m] deep. *)
Definition entry_within (m : nat) (entry : string * value * value) : Prop :=
  value_depth (snd (fst entry)) <= m /\ value_depth (snd entry) <= m.

(** What the run of [make_bold] on a dictionary nested at most [S m] deep
    does, with fuel for that depth. *)
Definition bold_within `{RegexLibrary} (keywords : list string) (fuel : nat) : Prop :=
  forall (m : nat) (d : list (string * value)),
    S m <= fuel -> value_depth (VDict d) <= S m ->
    (forall r, make_bold fuel keywords d = Ok r ->
       value_depth (VDict (fst r)) <= S m /\ value_depth (VDict (snd r)) <= S m) /\
    (forall e, make_bold fuel keywords d = Raise e -> regex_failure keywords e).

(** A regular-expression library that refuses a pattern with an opening
    parenthesis and no closing one, as [re] refuses a group that is not
    closed, and substitutes nothing otherwise. *)
Definition picky_regex : RegexLibrary :=
  {| re_sub := fun pattern _ s =>
       if PyStr.contains "(" pattern && negb (PyStr.contains ")" pattern)
       then Raise (ExternalError "missing ), unterminated subpattern")
       else Ok s |}.

(** The steps that a list of events starts and finishes. *)
Definition started (l : list event) : nat :=
  List.length (List.filter (fun e => match e with StepStarted _ => true | _ => false end) l).

Definition finished (l : list event) : nat :=
  List.length (List.filter (fun e => match e with StepFinished => true | _ => false end) l).

(** What a computation adds to the events: when it returns [a], the
    numbers of steps started and finished satisfy [post a]; when it raises,
    they satisfy [fail]. *)
Definition accounted {A : Type} (m : M A) (post : A -> nat -> nat -> Prop)
  (fail : nat -> nat -> Prop) : Prop :=
  forall w, exists added,
    events (fst (m w)) = events w ++ added /\
    match snd (m w) with
    | Ok a => post a (started added) (finished added)
    | Raise _ => fail (started added) (finished added)
    end.

(** A computation that starts and finishes no step. *)
Definition quiet {A : Type} (m : M A) : Prop :=
  accounted m (fun _ s f => s = 0 /\ f = 0) (fun s f => s = 0 /\ f = 0).

(** The number of steps that the validated settings enable. *)
Definition steps_of (rc : render_command_settings) : nat :=
  3 + (if dont_generate_png rc then 0 else 1)
    + (if dont_generate_markdown rc then 0
       else 1 + (if dont_generate_html rc then 0 else 1)).

(** ** [read_and_construct_the_input] *)

(** What the function reads from outside: the YAML files
    ([data.read_a_yaml_file]), the names of the fields of the data model
    ([data.rendercv_data_model_fields]) and the absolute path of a path that
    is given as a string ([pathlib.Path(s).absolute()]). *)
Class InputFiles : Type := {
  read_a_yaml_file : path -> result value;
  rendercv_data_model_fields : list string;
  absolute_path : string -> path
}.

Section ReadInput.
Context `{InputFiles} `{TreeEvaluator}.

(** One turn of the loop over the fields of the data model: a field that
    the command line gives with a value other than [None] is read from the
    file of that name.  [pathlib.Path] refuses a flag with a [TypeError]. *)
Definition read_individual_file (cli_render_arguments : list (string * cli_value))
  (input_file_as_a_dict : value) (field : string) : result value :=
  match dict_get field cli_render_arguments with
  | None => Ok input_file_as_a_dict
  | Some CNone => Ok input_file_as_a_dict
  | Some (CBool _) => Raise TypeError
  | Some (CStr file) =>
      let yaml_path := absolute_path file in
      let* yaml_file_as_a_dict := read_a_yaml_file yaml_path in
      let* field_of_the_file := Tree.getitem yaml_file_as_a_dict (KStr field) in
      Tree.setitem input_file_as_a_dict (KStr field) field_of_the_file
  end.

(** The input after the files are read, before the overrides. *)
Definition read_the_files (input_file_path : path)
  (cli_render_arguments : list (string * cli_value)) : result value :=
  let* input_file_as_a_dict := read_a_yaml_file input_file_path in
  fold_result (read_individual_file cli_render_arguments)
    rendercv_data_model_fields input_file_as_a_dict.

(** The overrides; the context of the extra arguments is [None] or an
    object, which is always true as a condition. *)
Definition apply_the_overrides (input_file_as_a_dict : value)
  (extra_data_model_override_arguments : option (list string)) : outcome :=
  match extra_data_model_override_arguments with
  | None => Done input_file_as_a_dict
  | Some args =>
      match parse_render_command_override_arguments args with
      | Raise e => Failed e
      | Ok key_and_values => Tree.set_or_update_values input_file_as_a_dict key_and_values
      end
  end.

(** The function on inputs that are trees; [Cyclic] when an override has
    tied the input to itself. *)
Definition read_and_construct_the_input
  (default_render_command_cli_arguments : list (string * cli_value))
  (input_file_path : path) (cli_render_arguments : list (string * cli_value))
  (extra_data_model_override_arguments : option (list string)) : outcome :=
  match read_the_files input_file_path cli_render_arguments with
  | Raise e => Failed e
  | Ok input_file_as_a_dict =>
      match apply_the_overrides input_file_as_a_dict extra_data_model_override_arguments with
      | Done input_file_as_a_dict =>
          Tree.of_result
            (update_render_command_settings_of_the_input_file
               default_render_command_cli_arguments input_file_as_a_dict
               cli_render_arguments)
      | other => other
      end
  end.
End ReadInput.

(** Two files for runs on concrete inputs: the input file, and a design
    file [design.yaml]. *)
Definition demo_input_files : InputFiles :=
  {| read_a_yaml_file := fun p =>
       if String.eqb (Path.name p) "cv.yaml"
       then Ok (VDict [("cv", VDict [("name", VStr "Ada")]);
                       ("design", VDict [("theme", VStr "classic")])])
       else if String.eqb (Path.name p) "design.yaml"
       then Ok (VDict [("design", VDict [("theme", VStr "sb2nov")])])
       else Raise (ExternalError "No such file");
     rendercv_data_model_fields := ["cv"; "design"; "locale"; "rendercv_settings"];
     absolute_path := fun s => {| anchored := true; parts := ["home"; s] |} |}.

Definition demo_defaults : list (string * cli_value) :=
  [("design", CNone); ("locale", CNone); ("pdf_path", CNone);
   ("dont_generate_png", CBool false)].

(** * Properties *)

(** ** Strings *)


Lemma startswith_inv (p s : string) :
  PyStr.startswith p s = true -> exists t, s = p +:+ t.
Proof.
  revert s. induction p as [|a p IH]; intros s Hs; simpl in *.
  - exists s. reflexivity.
  - destruct s as [|b s]; [discriminate|].
    apply andb_prop in Hs as [Hab Hps].
    apply Ascii.eqb_eq in Hab. subst b.
    destruct (IH _ Hps) as [t ->]. exists t. reflexivity.
Qed.




(** ** Dictionaries *)

Lemma dict_get_set_eq {V : Type} (k : string) (v : V) (d : list (string * V)) :
  dict_get k (dict_set k v d) = Some v.
Proof.
  induction d as [|[k' v'] d IH]; simpl.
  - rewrite String.eqb_refl. reflexivity.
  - destruct (String.eqb k k') eqn:E; simpl; rewrite E; [reflexivity|exact IH].
Qed.

Lemma dict_get_set_ne {V : Type} (k k0 : string) (v : V) (d : list (string * V)) :
  k0 <> k -> dict_get k0 (dict_set k v d) = dict_get k0 d.
Proof.
  intros Hne. induction d as [|[k' v'] d IH]; simpl.
  - destruct (String.eqb k0 k) eqn:E; [apply String.eqb_eq in E; contradiction|reflexivity].
  - destruct (String.eqb k k') eqn:E; simpl.
    + apply String.eqb_eq in E. subst k'.
      destruct (String.eqb k0 k) eqn:E'; [apply String.eqb_eq in E'; contradiction|reflexivity].
    + destruct (String.eqb k0 k'); [reflexivity|exact IH].
Qed.

Lemma dict_set_set {V : Type} (k : string) (v1 v2 : V) (d : list (string * V)) :
  dict_set k v2 (dict_set k v1 d) = dict_set k v2 d.
Proof.
  induction d as [|[k' v'] d IH]; simpl.
  - rewrite String.eqb_refl. reflexivity.
  - destruct (String.eqb k k') eqn:E; simpl; rewrite E; [reflexivity|].
    f_equal. exact IH.
Qed.

Lemma dict_has_set {V : Type} (k k0 : string) (v : V) (d : list (string * V)) :
  dict_has k0 (dict_set k v d) = String.eqb k0 k || dict_has k0 d.
Proof.
  unfold dict_has. destruct (String.eqb k0 k) eqn:E.
  - apply String.eqb_eq in E. subst k0. rewrite dict_get_set_eq. reflexivity.
  - rewrite dict_get_set_ne; [reflexivity|].
    intros ->. rewrite String.eqb_refl in E. discriminate.
Qed.

(** ** The step count *)

Lemma spec_step_count_cases :
  spec_step_count false false false = 6%Z /\
  spec_step_count true false false = 5%Z /\
  spec_step_count false false true = 5%Z /\
  spec_step_count true false true = 4%Z /\
  spec_step_count false true false = 4%Z /\
  spec_step_count false true true = 4%Z /\
  spec_step_count true true false = 3%Z /\
  spec_step_count true true true = 3%Z.
Proof. repeat split; reflexivity. Qed.

Lemma only_adds_ret {A : Type} (a : A) : only_adds_events (ret a).
Proof. intros w. exists []. simpl. symmetry. apply app_nil_r. Qed.

Lemma only_adds_lift {A : Type} (r : result A) : only_adds_events (lift r).
Proof. intros w. exists []. simpl. symmetry. apply app_nil_r. Qed.

Lemma only_adds_emit (e : event) : only_adds_events (emit e).
Proof. intros w. exists [e]. reflexivity. Qed.

Lemma only_adds_chdir (p : path) : only_adds_events (chdir p).
Proof. intros w. exists []. simpl. symmetry. apply app_nil_r. Qed.

Lemma only_adds_get_cwd : only_adds_events get_cwd.
Proof. intros w. exists []. simpl. symmetry. apply app_nil_r. Qed.

Lemma only_adds_bind {A B : Type} (m : M A) (k : A -> M B) :
  only_adds_events m -> (forall a, only_adds_events (k a)) ->
  only_adds_events (bindM m k).
Proof.
  intros Hm Hk w. unfold bindM.
  destruct (Hm w) as [l1 Hl1]. destruct (m w) as [w1 [a|e]]; simpl in *.
  - destruct (Hk a w1) as [l2 Hl2]. exists (l1 ++ l2).
    rewrite Hl2, Hl1. symmetry. apply app_assoc.
  - exists l1. exact Hl1.
Qed.

Lemma keeps_cwd_ret {A : Type} (a : A) : keeps_cwd (ret a).
Proof. intros w. reflexivity. Qed.

Lemma keeps_cwd_lift {A : Type} (r : result A) : keeps_cwd (lift r).
Proof. intros w. reflexivity. Qed.

Lemma keeps_cwd_emit (e : event) : keeps_cwd (emit e).
Proof. intros w. reflexivity. Qed.

Lemma keeps_cwd_get_cwd : keeps_cwd get_cwd.
Proof. intros w. reflexivity. Qed.

Lemma keeps_cwd_bind {A B : Type} (m : M A) (k : A -> M B) :
  keeps_cwd m -> (forall a, keeps_cwd (k a)) -> keeps_cwd (bindM m k).
Proof.
  intros Hm Hk w. unfold bindM.
  specialize (Hm w). destruct (m w) as [w1 [a|e]]; simpl in *.
  - rewrite Hk. exact Hm.
  - exact Hm.
Qed.

Create HintDb pipeline.
#[export] Hint Resolve only_adds_ret only_adds_lift only_adds_emit only_adds_chdir
  only_adds_get_cwd keeps_cwd_ret keeps_cwd_lift keeps_cwd_emit keeps_cwd_get_cwd
  : pipeline.

Section PipelineFacts.
Context `{Collaborators} `{RegexLibrary}.

Lemma only_adds_run_copies (calls : list (path * path)) :
  only_adds_events (run_copies calls).
Proof.
  induction calls as [|[s d] calls IH]; simpl; auto with pipeline.
  repeat (apply only_adds_bind; [auto with pipeline|intros ?]). exact IH.
Qed.

Lemma keeps_cwd_run_copies (calls : list (path * path)) :
  keeps_cwd (run_copies calls).
Proof.
  induction calls as [|[s d] calls IH]; simpl; auto with pipeline.
  repeat (apply keeps_cwd_bind; [auto with pipeline|intros ?]). exact IH.
Qed.

Lemma only_adds_copy_to (paths : artifacts) (destination : option path) :
  only_adds_events (copy_to paths destination).
Proof.
  destruct destination; simpl; auto using only_adds_run_copies with pipeline.
Qed.

Lemma keeps_cwd_copy_to (paths : artifacts) (destination : option path) :
  keeps_cwd (copy_to paths destination).
Proof.
  destruct destination; simpl; auto using keeps_cwd_run_copies with pipeline.
Qed.
End PipelineFacts.

#[export] Hint Resolve only_adds_copy_to keeps_cwd_copy_to : pipeline.

Ltac pipeline_steps lemma :=
  repeat first
    [ progress auto with pipeline
    | apply lemma; [|intros ?]
    | match goal with |- context [if ?b then _ else _] => destruct b end ].

Section PipelineTheorems.
Context `{Collaborators} `{RegexLibrary}.

Lemma render_stages_only_adds (dm : data_model) (working_directory : path) :
  only_adds_events (render_stages dm working_directory).
Proof. unfold render_stages. pipeline_steps @only_adds_bind. Qed.


Lemma run_stages_only_adds (input : value) (working_directory input_file_path : path) :
  only_adds_events (run_stages input working_directory input_file_path).
Proof.
  unfold run_stages. pipeline_steps @only_adds_bind.
Qed.


(** C1. Whatever the three skip flags of the settings dictionary are, the
    step count that the orchestrator computes is 6, minus 1 when PNG is
    off, minus 2 when Markdown is off, minus 1 when Markdown is on and HTML
    is off; and the reporter is opened with this count before any stage
    starts. *)
Theorem step_count_matches_skip_flags
  (input settings_dict png markdown html : value)
  (working_directory input_file_path : path) (w : world) :
  render_command_settings_dict input = Ok settings_dict ->
  getitem settings_dict "dont_generate_png" = Ok png ->
  getitem settings_dict "dont_generate_markdown" = Ok markdown ->
  getitem settings_dict "dont_generate_html" = Ok html ->
  let count := spec_step_count (truthy png) (truthy markdown) (truthy html) in
  compute_number_of_steps settings_dict = Ok count /\
  exists later,
    events (fst (run_rendercv_with_printer input working_directory input_file_path w)) =
    events w ++ ReporterOpened count :: later.
Proof.
  intros Hd Hpng Hmd Hhtml count.
  assert (Hcount : compute_number_of_steps settings_dict = Ok count).
  { unfold compute_number_of_steps, count, spec_step_count.
    rewrite Hpng, Hmd, Hhtml. simpl.
    destruct (truthy png), (truthy markdown), (truthy html); reflexivity. }
  split; [exact Hcount|].
  unfold run_rendercv_with_printer, bindM, lift.
  rewrite Hd, Hcount. simpl.
  destruct (run_stages_only_adds input working_directory input_file_path
              {| cwd := cwd w; events := events w ++ [ReporterOpened count] |})
    as [later Hlater].
  exists later. rewrite Hlater. simpl. rewrite <- app_assoc. reflexivity.
Qed.
End PipelineTheorems.

(** C1, on a concrete input: PNG off, Markdown on, HTML off gives 4 steps. *)
Lemma step_count_matches_skip_flags_witness :
  compute_number_of_steps Demo.settings_dict = Ok 4%Z /\
  exists later,
    events (fst (@run_rendercv_with_printer Demo.collaborators Demo.regex Demo.input
                   Demo.working_directory Demo.input_file_path Demo.start)) =
    events Demo.start ++ ReporterOpened 4 :: later.
Proof.
  apply (@step_count_matches_skip_flags Demo.collaborators Demo.regex
           Demo.input Demo.settings_dict (VBool true) (VBool false) (VBool true));
    reflexivity.
Defined.

(** ** The working directory *)


(** C5, counterpart for theme resolution: the theme [Broken], whose
    [__init__.py] changes to [/tmp] and then fails on an import, is refused
    in [/tmp]. *)
Lemma theme_resolution_does_not_restore_cwd :
  ~ @theme_resolution_restores_cwd wandering_environment.
Proof.
  intros Hrestores.
  specialize (Hrestores (Demo.root ["data"])
                (DesignValue (VDict [("theme", VStr "Broken")])) [] []).
  vm_compute in Hrestores. discriminate Hrestores.
Qed.





(** ** Copies of several artifacts *)

(** C9, counterexample: two pages copied to [out/cv.pdf] go to
    [out/cv_1.png] and [out/cv_2.png]. *)
Lemma copy_files_drops_destination_suffix :
  ~ destinations_keep_suffix
      [Demo.rel ["cv_1.png"]; Demo.rel ["cv_2.png"]] (Demo.rel ["out"; "cv.pdf"]).
Proof.
  intros Hkeep.
  destruct (Hkeep 0%nat (Demo.rel ["cv_1.png"]) (Demo.rel ["out"; "cv_1.png"]) eq_refl)
    as [_ Hsuffix].
  vm_compute in Hsuffix. discriminate Hsuffix.
Qed.

Lemma name_child (p : path) (c : string) : Path.name (Path.child p c) = c.
Proof. unfold Path.name, Path.child. simpl. apply List.last_last. Qed.

(** C9, amended.  When the artifacts are not exactly one, the artifact at
    position [i] (from 0) is copied into the directory of the configured
    destination under the destination's stem followed by an underscore, the
    index [i + 1] and the fixed suffix [.png]; this keeps the destination's
    own suffix when that suffix is [.png]. *)
Theorem copy_files_numbers_pages (paths : list path) (new_path : path)
  (i : nat) (source : path) :
  List.length paths <> 1%nat ->
  paths !! i = Some source ->
  let destination := png_path_with_page_number new_path i in
  copy_files (PathList paths) new_path !! i = Some (source, destination) /\
  Path.parent destination = Path.parent new_path /\
  Path.name destination =
    Path.stem new_path +:+ "_" +:+ PyStr.str_of_nat (i + 1) +:+ ".png" /\
  (Path.suffix new_path = ".png" ->
   Path.name destination =
     Path.stem new_path +:+ "_" +:+ PyStr.str_of_nat (i + 1) +:+ Path.suffix new_path).
Proof.
  intros Hlen Hi destination.
  assert (Hname : Path.name destination =
                  Path.stem new_path +:+ "_" +:+ PyStr.str_of_nat (i + 1) +:+ ".png")
    by apply name_child.
  repeat split.
  - unfold copy_files.
    destruct paths as [|p [|q paths]]; [discriminate Hi| contradiction Hlen; reflexivity |].
    rewrite list_lookup_imap, Hi. reflexivity.
  - unfold destination, png_path_with_page_number, Path.parent, Path.child. simpl.
    rewrite List.removelast_last. reflexivity.
  - exact Hname.
  - intros ->. exact Hname.
Qed.

(** C9 amended, on two pages copied to [out/cv.png]. *)
Lemma copy_files_numbers_pages_witness :
  copy_files (PathList [Demo.rel ["a.png"]; Demo.rel ["b.png"]]) (Demo.rel ["out"; "cv.png"])
    !! 1%nat
  = Some (Demo.rel ["b.png"], Demo.rel ["out"; "cv_2.png"]).
Proof.
  exact (proj1 (copy_files_numbers_pages
                  [Demo.rel ["a.png"]; Demo.rel ["b.png"]] (Demo.rel ["out"; "cv.png"])
                  1%nat (Demo.rel ["b.png"])
                  ltac:(simpl; lia) eq_refl)).
Defined.

(** ** Override arguments *)

#[local] Arguments Ascii.eqb : simpl never.
#[local] Arguments String.eqb : simpl never.

Lemma pair_induction {A : Type} (P : list A -> Prop) :
  P [] -> (forall a, P [a]) -> (forall a b l, P l -> P (a :: b :: l)) ->
  forall l, P l.
Proof.
  intros Hnil Hone Hstep.
  fix IH 1. intros [|a [|b l]]; [exact Hnil|apply Hone|apply Hstep, IH].
Qed.

Lemma parse_pairs_spec (args : list string) (acc : list (string * string)) :
  Forall (fun kv => PyStr.startswith "--" (fst kv) = true) (pairs args) ->
  parse_pairs args acc =
  Ok (fold_left (fun d kv => dict_set (dashes_removed (fst kv)) (snd kv) d) (pairs args) acc).
Proof.
  revert acc. induction args as [| a | key value rest IH] using pair_induction;
    intros acc Hdash; [reflexivity|reflexivity|].
  simpl in *. inversion Hdash as [|? ? Hkey Hrest]; subst.
  simpl in Hkey. rewrite Hkey. simpl. apply IH, Hrest.
Qed.

Lemma fold_dict_set_has (l : list (string * string)) (acc : list (string * string)) (k : string) :
  dict_has k (fold_left (fun d kv => dict_set (dashes_removed (fst kv)) (snd kv) d) l acc) = true
  <-> dict_has k acc = true \/ exists key value, In (key, value) l /\ k = dashes_removed key.
Proof.
  revert acc. induction l as [|[key value] l IH]; intros acc; simpl.
  - split; [auto|]. intros [Hacc|(? & ? & [] & _)]. exact Hacc.
  - rewrite IH, dict_has_set. simpl. split.
    + intros [Hk|(key' & value' & Hin & ->)].
      * apply orb_prop in Hk as [Hk|Hk]; [|auto].
        apply String.eqb_eq in Hk. right. exists key, value. auto.
      * right. exists key', value'. auto.
    + intros [Hk|(key' & value' & [Heq|Hin] & ->)].
      * left. rewrite Hk. apply orb_true_r.
      * inversion Heq; subst. left. rewrite String.eqb_refl. reflexivity.
      * right. exists key', value'. auto.
Qed.

(** What is left of a string once its double dashes are replaced has no
    double dash. *)
Lemma replace_from_dashes_head (s : string) :
  PyStr.startswith "-" s = false ->
  PyStr.startswith "-" (PyStr.replace_from "--" "" 0 s) = false.
Proof.
  destruct s as [|c s]; [reflexivity|]. simpl.
  destruct (Ascii.eqb "-" c) eqn:E; simpl; [discriminate|].
  intros _. rewrite E. reflexivity.
Qed.

Lemma replace_from_no_double_dash (n : nat) (s : string) :
  String.length s <= n ->
  PyStr.contains "--" (PyStr.replace_from "--" "" 0 s) = false.
Proof.
  revert s. induction n as [|n IH]; intros s Hlen.
  - destruct s; [reflexivity|simpl in Hlen; lia].
  - destruct s as [|c s]; [reflexivity|].
    cbn [PyStr.replace_from].
    destruct (PyStr.startswith "--" (String c s)) eqn:Hstart.
    + apply startswith_inv in Hstart as [t Ht]. cbn in Ht.
      injection Ht as Hc Hs. subst c s.
      simpl. apply IH. simpl in Hlen. lia.
    + assert (Htail : PyStr.contains "--" (PyStr.replace_from "--" "" 0 s) = false)
        by (apply IH; simpl in Hlen; lia).
      cbn [PyStr.contains]. rewrite Htail, orb_false_r.
      cbn [PyStr.startswith] in *.
      destruct (Ascii.eqb "-" c) eqn:Ec; [|reflexivity]. simpl in *.
      pose proof (replace_from_dashes_head s) as Hhead. cbn [PyStr.startswith] in Hhead.
      destruct s as [|d s]; [reflexivity|].
      destruct (Ascii.eqb "-" d) eqn:Ed; [discriminate Hstart|].
      specialize (Hhead eq_refl).
      destruct (PyStr.replace_from "--" "" 0 (String d s)) as [|e r]; [reflexivity|].
      simpl in Hhead. destruct (Ascii.eqb "-" e); [discriminate Hhead|reflexivity].
Qed.

Lemma dashes_removed_no_double_dash (key : string) :
  PyStr.contains "--" (dashes_removed key) = false.
Proof. apply (replace_from_no_double_dash (String.length key)). lia. Qed.

Lemma replace_from_two_characters (c c' : ascii) (s : string) :
  PyStr.replace_from "--" "" 0 (String c (String c' s)) =
  if Ascii.eqb "-" c && Ascii.eqb "-" c'
  then PyStr.replace_from "--" "" 0 s
  else String c (PyStr.replace_from "--" "" 0 (String c' s)).
Proof.
  change (PyStr.replace_from "--" "" 0 (String c (String c' s)))
    with (if Ascii.eqb "-" c && (Ascii.eqb "-" c' && true)
          then PyStr.replace_from "--" "" 0 s
          else String c (PyStr.replace_from "--" "" 0 (String c' s))).
  rewrite andb_true_r. reflexivity.
Qed.

Lemma without_double_dashes_two_characters (c c' : ascii) (s : string) :
  without_double_dashes (String c (String c' s)) =
  if Ascii.eqb c "-" && Ascii.eqb c' "-"
  then without_double_dashes s
  else String c (without_double_dashes (String c' s)).
Proof. reflexivity. Qed.

Lemma replace_is_without_double_dashes (n : nat) :
  forall s, String.length s <= n ->
            PyStr.replace_from "--" "" 0 s = without_double_dashes s.
Proof.
  induction n as [|n IH]; intros s Hlen.
  - destruct s; [reflexivity|simpl in Hlen; lia].
  - destruct s as [|c [|c' s']]; [reflexivity| |].
    + cbn [PyStr.replace_from PyStr.startswith without_double_dashes].
      rewrite andb_false_r. reflexivity.
    + rewrite replace_from_two_characters, without_double_dashes_two_characters.
      rewrite (Ascii.eqb_sym "-" c), (Ascii.eqb_sym "-" c').
      cbn [String.length] in Hlen.
      destruct (Ascii.eqb c "-" && Ascii.eqb c' "-").
      * apply IH. lia.
      * f_equal. apply IH. cbn [String.length]. lia.
Qed.

Lemma dashes_removed_is_without_double_dashes (key : string) :
  dashes_removed key = without_double_dashes key.
Proof. apply (replace_is_without_double_dashes (String.length key)). lia. Qed.

Lemma without_double_dashes_keeps_the_rest (n : nat) :
  forall s, String.length s <= n ->
            other_characters (without_double_dashes s) = other_characters s /\
            exists occurrences,
              String.length s = String.length (without_double_dashes s) + 2 * occurrences.
Proof.
  induction n as [|n IH]; intros s Hlen.
  - destruct s; [split; [reflexivity|exists 0; reflexivity]|simpl in Hlen; lia].
  - destruct s as [|c [|c' s']].
    + split; [reflexivity|exists 0; reflexivity].
    + split; [reflexivity|exists 0; reflexivity].
    + rewrite without_double_dashes_two_characters. cbn [String.length] in Hlen.
      destruct (Ascii.eqb c "-") eqn:Ec; cbn [andb].
      * destruct (Ascii.eqb c' "-") eqn:Ec'.
        -- destruct (IH s' ltac:(lia)) as (Hrest & m & Hm).
           split; [cbn [other_characters]; rewrite Ec, Ec'; exact Hrest|].
           exists (S m). cbn [String.length]. lia.
        -- destruct (IH (String c' s') ltac:(cbn [String.length]; lia)) as (Hrest & m & Hm).
           split; [cbn [other_characters] in *; rewrite Ec, Ec' in *; exact Hrest|].
           exists m. cbn [String.length] in *. lia.
      * destruct (IH (String c' s') ltac:(cbn [String.length]; lia)) as (Hrest & m & Hm).
        split.
        -- change (other_characters (String c (without_double_dashes (String c' s')))
                   = other_characters (String c (String c' s'))).
           cbn [other_characters]. rewrite Ec. f_equal. exact Hrest.
        -- exists m. cbn [String.length] in *. lia.
Qed.

(** C10. For an argument list of even length whose keys all start with two
    dashes, the parser succeeds, and the keys of the dictionary it returns
    are exactly the tokens of the arguments with every occurrence of two
    dashes deleted, not only the leading one, and with everything else
    kept: a key of the result contains no two dashes in a row, has the
    characters of its token that are not dashes, in order, and is shorter
    than its token by two characters for every occurrence. *)
Theorem override_keys_lose_every_double_dash (args : list string) :
  Nat.even (List.length args) = true ->
  (forall key value, In (key, value) (pairs args) -> PyStr.startswith "--" key = true) ->
  exists key_and_values,
    parse_render_command_override_arguments args = Ok key_and_values /\
    (forall key value, In (key, value) (pairs args) ->
       dict_has (without_double_dashes key) key_and_values = true) /\
    (forall k, dict_has k key_and_values = true ->
       exists key value occurrences,
         In (key, value) (pairs args) /\
         k = without_double_dashes key /\
         PyStr.contains "--" k = false /\
         other_characters k = other_characters key /\
         String.length key = String.length k + 2 * occurrences /\
         1 <= occurrences).
Proof.
  intros Heven Hdash.
  unfold parse_render_command_override_arguments. rewrite Heven. simpl.
  rewrite parse_pairs_spec.
  2:{ apply List.Forall_forall. intros [key value] Hin. exact (Hdash key value Hin). }
  eexists. split; [reflexivity|]. split.
  - intros key value Hin. apply fold_dict_set_has. right. exists key, value.
    split; [exact Hin|]. symmetry. apply dashes_removed_is_without_double_dashes.
  - intros k Hk. apply fold_dict_set_has in Hk as [Hk|(key & value & Hin & ->)];
      [discriminate Hk|].
    destruct (without_double_dashes_keeps_the_rest (String.length key) key (le_n _))
      as (Hrest & occurrences & Hlength).
    exists key, value, occurrences.
    split; [exact Hin|].
    split; [apply dashes_removed_is_without_double_dashes|].
    split; [apply dashes_removed_no_double_dash|].
    rewrite dashes_removed_is_without_double_dashes.
    split; [exact Hrest|]. split; [exact Hlength|].
    pose proof (Hdash key value Hin) as Hstart.
    assert (Hshorter : String.length (without_double_dashes key) + 2 <= String.length key).
    { destruct key as [|c [|c' rest]]; [discriminate Hstart| |].
      - cbn [PyStr.startswith] in Hstart. rewrite andb_false_r in Hstart. discriminate.
      - cbn [PyStr.startswith] in Hstart. rewrite andb_true_r in Hstart.
        rewrite (Ascii.eqb_sym "-" c), (Ascii.eqb_sym "-" c') in Hstart.
        rewrite without_double_dashes_two_characters, Hstart.
        destruct (without_double_dashes_keeps_the_rest (String.length rest) rest (le_n _))
          as (_ & m & Hm).
        cbn [String.length]. lia. }
    lia.
Qed.

(** C10 on the arguments [--a--b x]: the key is [ab]. *)
Lemma override_keys_lose_every_double_dash_witness :
  parse_render_command_override_arguments ["--a--b"; "x"] = Ok [("ab", "x")] /\
  without_double_dashes "--a--b" = "ab" /\
  exists key_and_values,
    parse_render_command_override_arguments ["--a--b"; "x"] = Ok key_and_values /\
    (forall key value, In (key, value) (pairs ["--a--b"; "x"]) ->
       dict_has (without_double_dashes key) key_and_values = true) /\
    (forall k, dict_has k key_and_values = true ->
       exists key value occurrences,
         In (key, value) (pairs ["--a--b"; "x"]) /\
         k = without_double_dashes key /\
         PyStr.contains "--" k = false /\
         other_characters k = other_characters key /\
         String.length key = String.length k + 2 * occurrences /\
         1 <= occurrences).
Proof.
  split; [reflexivity|]. split; [reflexivity|].
  apply (override_keys_lose_every_double_dash ["--a--b"; "x"]).
  - reflexivity.
  - simpl. intros key value [Heq|[]]. inversion Heq. reflexivity.
Defined.

Example override_key_with_inner_dashes :
  parse_render_command_override_arguments ["--a--b"; "x"] = Ok [("ab", "x")].
Proof. reflexivity. Qed.

(** ** Custom theme names *)

(** C4, counterexample: with the theme folder and its files in place, the
    custom theme named by the letter U+00E9 is accepted. *)
Lemma accented_theme_name_is_accepted :
  ~ @refuses_names_outside_pattern Demo.environment.
Proof.
  intros Hrefuses.
  specialize (Hrefuses (Demo.root ["data"])
                (DesignValue (VDict [("theme", VStr accented_name)])) [] []
                (VStr accented_name) accented_name eq_refl eq_refl eq_refl eq_refl).
  vm_compute in Hrefuses. discriminate Hrefuses.
Qed.

Lemma ascii_alnum_is_alnum (c : ascii) :
  PyStr.char_is_ascii_alnum c = true -> PyStr.char_isalnum c = true.
Proof. unfold PyStr.char_isalnum. intros ->. reflexivity. Qed.

Lemma alnum_ascii_is_ascii_alnum (c : ascii) :
  char_is_ascii c = true -> PyStr.char_isalnum c = PyStr.char_is_ascii_alnum c.
Proof.
  unfold char_is_ascii, PyStr.char_isalnum, PyStr.char_is_ascii_alnum, PyStr.between.
  generalize (PyStr.code c). intros n Hn.
  apply Nat.ltb_lt in Hn.
  assert (Heq : forall k, 128 <= k -> (n =? k)%nat = false)
    by (intros k Hk; apply Nat.eqb_neq; lia).
  assert (Hle : forall k, 128 <= k -> (k <=? n)%nat = false)
    by (intros k Hk; apply Nat.leb_gt; lia).
  rewrite !Heq, !(Hle 188), !(Hle 192), !(Hle 216), !(Hle 248) by lia.
  simpl. rewrite !orb_false_r. reflexivity.
Qed.

Lemma isalnum_on_ascii (s : string) :
  PyStr.all_chars char_is_ascii s = true ->
  PyStr.isalnum s = matches_theme_pattern s.
Proof.
  destruct s as [|c0 s0]; [reflexivity|].
  unfold PyStr.isalnum, matches_theme_pattern.
  generalize (String c0 s0). clear. intros s.
  induction s as [|c s IH]; simpl; [reflexivity|].
  intros Hs. apply andb_prop in Hs as [Hc Hs].
  rewrite (alnum_ascii_is_ascii_alnum c Hc), (IH Hs). reflexivity.
Qed.

(** C4, amended.  A custom theme name, that is the string of a theme value
    that is not the name of a built-in theme, passes the name check exactly
    when it is not empty and all its characters are letters or digits in the
    sense of [str.isalnum], which includes accented letters; a name that
    fails the check is refused with the error of three parts (message,
    [theme], the name); a design that is accepted has a name that passes;
    and on names of ASCII characters the check is the pattern of the
    specification. *)
Theorem custom_theme_name_check `{ThemeEnvironment}
  (cwd0 : path) (design : design_arg)
  (available_theme_options : list (string * theme_class))
  (available_entry_type_names : list string) (theme : value) (theme_name : string) :
  design_theme design = Ok theme ->
  theme_lookup theme available_theme_options = Ok None ->
  str_of_scalar theme = Some theme_name ->
  let outcome := snd (validate_design_options cwd0 design available_theme_options
                        available_entry_type_names) in
  (PyStr.isalnum theme_name = false -> outcome = Raise (theme_name_error theme_name)) /\
  (forall validated, outcome = Ok validated -> PyStr.isalnum theme_name = true) /\
  (PyStr.all_chars char_is_ascii theme_name = true ->
   PyStr.isalnum theme_name = matches_theme_pattern theme_name).
Proof.
  intros Htheme Hlookup Hname outcome.
  assert (Hrefused : PyStr.isalnum theme_name = false ->
                     outcome = Raise (theme_name_error theme_name)).
  { intros Hnot. unfold outcome, validate_design_options.
    destruct design as [i|v]; [discriminate Htheme|].
    rewrite Htheme, Hlookup, Hname, Hnot. reflexivity. }
  split; [exact Hrefused|]. split; [|apply isalnum_on_ascii].
  intros validated Hok.
  destruct (PyStr.isalnum theme_name) eqn:Halnum; [reflexivity|].
  rewrite (Hrefused eq_refl) in Hok. discriminate Hok.
Qed.

(** C4 amended, on the custom theme [my-theme]. *)
Lemma custom_theme_name_check_witness :
  snd (@validate_design_options Demo.environment (Demo.root ["data"])
         (DesignValue (VDict [("theme", VStr "my-theme")])) [] [])
  = Raise (theme_name_error "my-theme").
Proof.
  exact (proj1 (@custom_theme_name_check Demo.environment (Demo.root ["data"])
                  (DesignValue (VDict [("theme", VStr "my-theme")])) [] []
                  (VStr "my-theme") "my-theme" eq_refl eq_refl eq_refl) eq_refl).
Defined.

(** ** Keywords in bold *)

(** C6, the code at a failing input.  In a list of strings the keyword is
    replaced wherever it occurs, also inside a longer word: with the keyword
    [Go], the entry [Google Go] of a section becomes [**Go**ogle **Go**],
    whatever the regular-expression library does. *)
Theorem keyword_inside_a_word_is_emphasised `{RegexLibrary} :
  make_given_keywords_bold_in_a_dictionary
    [("skills", VList [VStr "Google Go"])] ["Go"]
  = Ok [("skills", VList [VStr "**Go**ogle **Go**"])].
Proof. reflexivity. Qed.

(** With two keywords, a string that is directly a value of the dictionary
    goes through the substitution of the last keyword only, on its original
    text: the result of the first keyword is overwritten. *)
Lemma only_the_last_keyword_reaches_a_string_value `{RegexLibrary}
  (text first_keyword last_keyword : string) :
  make_given_keywords_bold_in_a_dictionary
    [("summary", VStr text)] [first_keyword; last_keyword]
  = let* _ := re_sub (word_pattern first_keyword) (emphasised first_keyword) text in
    let* r := re_sub (word_pattern last_keyword) (emphasised last_keyword) text in
    Ok [("summary", VStr r)].
Proof.
  unfold make_given_keywords_bold_in_a_dictionary. simpl.
  destruct (re_sub (word_pattern first_keyword) (emphasised first_keyword) text); simpl;
    [|reflexivity].
  destruct (re_sub (word_pattern last_keyword) (emphasised last_keyword) text); reflexivity.
Qed.

(** A list directly inside a list is not visited. *)
Lemma nested_list_is_not_visited `{RegexLibrary} :
  make_given_keywords_bold_in_a_dictionary
    [("skills", VList [VList [VStr "Go"]])] ["Go"]
  = Ok [("skills", VList [VList [VStr "Go"]])].
Proof. reflexivity. Qed.

(** ** Normalisation of validation errors *)

(** C2, the code at a failing input.  A location with a segment that
    contains two of the unwanted markers, here [list] and [int], makes the
    function raise: the segment is removed for the first marker and is no
    longer in the list when the second marker asks for its removal. *)
Theorem segment_with_two_markers_raises :
  parse_validation_errors
    [ {| details := {| loc := [LStr "cv"; LStr "list[int]"];
                       msg := "Input should be a valid integer";
                       input := VStr "x" |};
         ctx := NoCtx |} ]
  = Raise remove_error.
Proof. reflexivity. Qed.

(** An error of a section whose exception has no cause makes the function
    raise as well. *)
Lemma section_error_without_cause_raises :
  parse_validation_errors
    [ {| details := {| loc := [LStr "cv"; LStr "sections"];
                       msg := "Value error, There are problems with the entries.";
                       input := VNone |};
         ctx := CtxError None |} ]
  = Raise AttributeError.
Proof. reflexivity. Qed.

Lemma list_remove_perm (x : string) (l l' : list string) :
  list_remove x l = Some l' -> l ≡ₚ x :: l'.
Proof.
  revert l'. induction l as [|y l IH]; intros l' Hl; simpl in Hl; [discriminate|].
  destruct (String.eqb x y) eqn:E.
  - apply String.eqb_eq in E. injection Hl as <-. subst y. reflexivity.
  - destruct (list_remove x l) as [l0|]; [|discriminate].
    injection Hl as <-. rewrite (IH l0 eq_refl). apply Permutation_swap.
Qed.

Lemma list_remove_in (x : string) (l : list string) :
  x ∈ l -> exists l', list_remove x l = Some l'.
Proof.
  induction l as [|y l IH]; intros Hin; [inversion Hin|]. simpl.
  destruct (String.eqb x y) eqn:E; [eauto|].
  apply elem_of_cons in Hin as [->|Hin]; [rewrite String.eqb_refl in E; discriminate|].
  destruct (IH Hin) as [l' ->]. simpl. eauto.
Qed.

Lemma remove_if_unwanted_at_most_one (unwanted : list string) (segment : string)
  (new_location : list string) :
  List.length (filter (fun m => PyStr.contains m segment = true) unwanted) <= 1 ->
  segment ∈ new_location ->
  exists new_location',
    remove_if_unwanted unwanted segment new_location = Ok new_location' /\
    forall rest, segment :: rest ⊆+ new_location -> rest ⊆+ new_location'.
Proof.
  revert new_location. induction unwanted as [|m unwanted IH]; intros nl Hcount Hin; simpl.
  - exists nl. split; [reflexivity|]. intros rest Hsub.
    etransitivity; [|exact Hsub]. apply submseteq_cons. reflexivity.
  - rewrite filter_cons in Hcount.
    destruct (decide (PyStr.contains m segment = true)) as [Hm|Hm].
    + rewrite Hm. simpl in Hcount.
      destruct (list_remove_in _ _ Hin) as [nl' Hnl']. rewrite Hnl'.
      assert (Hnone : forall nl0, remove_if_unwanted unwanted segment nl0 = Ok nl0).
      { assert (Hzero : filter (fun m0 => PyStr.contains m0 segment = true) unwanted = [])
          by (destruct (filter _ unwanted); [reflexivity|simpl in Hcount; lia]).
        clear -Hzero. induction unwanted as [|m0 unwanted IH0]; intros nl0; [reflexivity|].
        simpl. rewrite filter_cons in Hzero.
        destruct (decide (PyStr.contains m0 segment = true)); [discriminate Hzero|].
        destruct (PyStr.contains m0 segment); [contradiction|]. apply IH0, Hzero. }
      rewrite Hnone. exists nl'. split; [reflexivity|].
      intros rest Hsub. apply list_remove_perm in Hnl'. rewrite Hnl' in Hsub.
      eapply submseteq_app_inv_l with (k := [segment]). exact Hsub.
    + destruct (PyStr.contains m segment); [contradiction|].
      apply IH; assumption.
Qed.

Lemma clean_segments_ok (location new_location : list string) :
  (forall s, In s location -> List.length (markers_in s) <= 1) ->
  location ⊆+ new_location ->
  exists cleaned, clean_segments location new_location = Ok cleaned.
Proof.
  revert new_location. induction location as [|s location IH]; intros nl Hone Hsub;
    cbn [clean_segments].
  - eauto.
  - assert (Hin : s ∈ nl).
    { eapply elem_of_submseteq; [|exact Hsub]. apply elem_of_cons; auto. }
    destruct (remove_if_unwanted_at_most_one unwanted_locations s nl
                (Hone s (or_introl eq_refl)) Hin) as (nl' & -> & Hrest).
    cbn [bind]. apply IH; [intros; apply Hone; right; assumption|].
    apply Hrest, Hsub.
Qed.

Lemma clean_location_ok (l : list loc_item) :
  single_markers l -> exists cleaned, clean_location l = Ok cleaned.
Proof.
  intros Hone. unfold clean_location. apply clean_segments_ok; [|reflexivity].
  intros s Hin. apply in_map_iff in Hin as (item & <- & Hitem). apply Hone, Hitem.
Qed.

Lemma single_markers_app (l1 l2 : list loc_item) :
  single_markers l1 -> single_markers l2 -> single_markers (l1 ++ l2).
Proof.
  intros H1 H2 item Hin. apply in_app_or in Hin as [Hin|Hin]; auto.
Qed.

Lemma single_markers_tl (l : list loc_item) :
  single_markers l -> single_markers (List.tl l).
Proof.
  intros Hl item Hin. apply Hl. destruct l; [contradiction|right; exact Hin].
Qed.

Lemma cause_errors_ok (e : error_object) :
  has_cause e -> single_markers (loc (details e)) ->
  (forall l, In l (cause_locations e) -> single_markers l) ->
  exists causes, cause_errors e = Ok causes /\
                 forall c, In c causes -> single_markers (loc c).
Proof.
  intros Hcause Hloc Hcauses. unfold cause_errors, cause_locations, has_cause in *.
  destruct (PyStr.contains section_error_marker (msg (details e)));
    [|exists []; split; [reflexivity|contradiction]].
  specialize (Hcause eq_refl).
  destruct (ctx e) as [| |[cause|]];
    try (exists []; split; [reflexivity|contradiction]); [|congruence].
  eexists. split; [reflexivity|].
  intros c Hin. apply in_map_iff in Hin as (c0 & <- & Hc0). simpl.
  apply single_markers_app; [exact Hloc|].
  apply single_markers_tl, Hcauses, in_map, Hc0.
Qed.

Lemma working_errors_ok (errors : list error_object) :
  well_formed errors ->
  exists working, working_errors errors = Ok working /\
                  forall e, In e working -> single_markers (loc e).
Proof.
  intros Hwf. unfold working_errors.
  assert (Hcauses : exists causes, extend_with_causes errors = Ok causes /\
                                   forall c, In c causes -> single_markers (loc c)).
  { induction errors as [|e errors IH]; simpl.
    - exists []. split; [reflexivity|contradiction].
    - destruct (Hwf e (or_introl eq_refl)) as (Hc & Hl & Hcl).
      destruct (cause_errors_ok e Hc Hl Hcl) as (here & -> & Hhere).
      destruct IH as (others & -> & Hothers);
        [intros e' He'; apply Hwf; right; exact He'|].
      simpl. eexists. split; [reflexivity|].
      intros c Hin. apply in_app_or in Hin as [Hin|Hin]; auto. }
  destruct Hcauses as (causes & -> & Hcauses). simpl.
  eexists. split; [reflexivity|].
  intros e Hin. apply in_app_or in Hin as [Hin|Hin]; [|auto].
  apply in_map_iff in Hin as (e0 & <- & He0).
  destruct (Hwf e0 He0) as (_ & Hl & _). exact Hl.
Qed.

Lemma clean_locations_ok (errors : list error_details) :
  (forall e, In e errors -> single_markers (loc e)) ->
  exists cleaned, clean_locations errors = Ok cleaned.
Proof.
  induction errors as [|e errors IH]; intros Hone; simpl; [eauto|].
  destruct (clean_location_ok (loc e) (Hone e (or_introl eq_refl))) as [l ->].
  destruct IH as [cleaned ->]; [intros; apply Hone; right; assumption|].
  simpl. eauto.
Qed.






Lemma string_app_assoc (a b c : string) : (a +:+ b) +:+ c = a +:+ (b +:+ c).
Proof.
  induction a as [|x a IH]; [reflexivity|].
  change (String x ((a +:+ b) +:+ c) = String x (a +:+ (b +:+ c))).
  f_equal. exact IH.
Qed.








(** Errors that are well formed are parsed: the function returns on
    them. *)
Lemma well_formed_errors_are_parsed (errors : list error_object) :
  well_formed errors -> exists out, parse_validation_errors errors = Ok out.
Proof.
  intros Hwf.
  destruct (working_errors_ok errors Hwf) as (working & Hworking & Hone).
  destruct (clean_locations_ok working Hone) as [cleaned_all Hcleaned].
  eexists. unfold parse_validation_errors. rewrite Hworking. cbn [bind].
  rewrite Hcleaned. cbn [bind]. reflexivity.
Qed.



(** ** Path overrides on the store *)

Lemma same_shape_refl (o : obj) : same_shape o o.
Proof. destruct o; simpl; auto. Qed.

Lemma same_shape_trans (o1 o2 o3 : obj) :
  same_shape o1 o2 -> same_shape o2 o3 -> same_shape o1 o3.
Proof. destruct o1, o2, o3; simpl; intros; try contradiction; auto; congruence. Qed.

Lemma shape_le_refl (h : heap) : shape_le h h.
Proof. intros l o Hl. exists o. split; [exact Hl|apply same_shape_refl]. Qed.

Lemma shape_le_trans (h1 h2 h3 : heap) :
  shape_le h1 h2 -> shape_le h2 h3 -> shape_le h1 h3.
Proof.
  intros H12 H23 l o Hl. destruct (H12 l o Hl) as (o2 & Hl2 & Hs2).
  destruct (H23 l o2 Hl2) as (o3 & Hl3 & Hs3).
  exists o3. split; [exact Hl3|]. eapply same_shape_trans; eassumption.
Qed.

Lemma shape_le_app (h fresh : heap) : shape_le h (h ++ fresh).
Proof.
  intros l o Hl. exists o. split; [|apply same_shape_refl].
  apply lookup_app_l_Some, Hl.
Qed.

Lemma shape_le_insert (h : heap) (l : nat) (o o' : obj) :
  h !! l = Some o -> same_shape o o' -> shape_le h (<[l := o']> h).
Proof.
  intros Hl Hs l0 o0 Hl0. destruct (decide (l0 = l)) as [->|Hne].
  - exists o'. split; [|congruence].
    apply list_lookup_insert_eq. eapply lookup_lt_Some, Hl.
  - exists o0. split; [|apply same_shape_refl].
    rewrite list_lookup_insert_ne by congruence. exact Hl0.
Qed.

Lemma prefix_insert (h0 h : heap) (l : nat) (o : obj) :
  h0 `prefix_of` h -> List.length h0 <= l -> h0 `prefix_of` <[l := o]> h.
Proof.
  intros [ext ->] Hl. exists (<[l - List.length h0 := o]> ext).
  rewrite insert_app_r_alt by exact Hl. reflexivity.
Qed.

Lemma keeps_shapes_ret {A : Type} (a : A) : keeps_shapes (retH a).
Proof. intros h. apply shape_le_refl. Qed.

Lemma keeps_shapes_raise {A : Type} (e : exn) : keeps_shapes (@raiseH A e).
Proof. intros h. apply shape_le_refl. Qed.

Lemma keeps_shapes_bind {A B : Type} (m : H A) (k : A -> H B) :
  keeps_shapes m -> (forall a, keeps_shapes (k a)) -> keeps_shapes (bindH m k).
Proof.
  intros Hm Hk h. unfold bindH. specialize (Hm h).
  destruct (m h) as [h1 [a|e]]; simpl in *; [|exact Hm].
  eapply shape_le_trans; [exact Hm|apply Hk].
Qed.

Lemma keeps_shapes_alloc (o : obj) : keeps_shapes (alloc o).
Proof. intros h. apply shape_le_app. Qed.

Lemma is_list_heap (v : hval) (h : heap) : fst (is_list v h) = h.
Proof. reflexivity. Qed.

Lemma convert_key_heap (u : hval) (key : string) (h : heap) :
  fst (convert_key u key h) = h.
Proof.
  unfold convert_key, bindH, is_list.
  repeat match goal with |- context [match ?x with _ => _ end] => destruct x end;
    reflexivity.
Qed.

Lemma getitemH_heap (c : hval) (key : subscript) (h : heap) :
  fst (getitemH c key h) = h.
Proof.
  unfold getitemH.
  repeat match goal with |- context [match ?x with _ => _ end] => destruct x end;
    reflexivity.
Qed.

Lemma containsH_heap (key : string) (c : hval) (h : heap) :
  fst (containsH key c h) = h.
Proof.
  unfold containsH.
  repeat match goal with |- context [match ?x with _ => _ end] => destruct x end;
    reflexivity.
Qed.

Lemma keeps_shapes_same {A : Type} (m : H A) :
  (forall h, fst (m h) = h) -> keeps_shapes m.
Proof. intros Hm h. rewrite Hm. apply shape_le_refl. Qed.

Lemma keeps_shapes_setitem (c : hval) (key : subscript) (v : hval) :
  keeps_shapes (setitemH c key v).
Proof.
  intros h. unfold setitemH.
  destruct c as [| | | | |l]; try apply shape_le_refl.
  destruct (h !! l) as [[d|items]|] eqn:Hl; [| |apply shape_le_refl].
  - destruct key; (eapply shape_le_insert; [exact Hl|exact I]).
  - destruct key as [k|i]; [apply shape_le_refl|].
    destruct (list_index (List.length items) i); [|apply shape_le_refl].
    eapply shape_le_insert; [exact Hl|]. simpl. symmetry. apply length_insert.
Qed.

Lemma setitemH_prefix (h0 h : heap) (l : nat) (key : subscript) (v : hval) :
  h0 `prefix_of` h -> List.length h0 <= l ->
  h0 `prefix_of` fst (setitemH (HRef l) key v h).
Proof.
  intros Hpre Hl. unfold setitemH.
  repeat match goal with |- context [match ?x with _ => _ end] => destruct x end;
    simpl; auto using prefix_insert.
Qed.

Section OverrideFacts.
Context `{Evaluator}.
Variable value : string.
Hypothesis eval_allocates : evaluation_only_allocates value.

Lemma decode_value_prefix (dictionary : hval) (key : string) (sub_dictionary : hval)
  (h : heap) :
  h `prefix_of` fst (decode_value value dictionary key sub_dictionary h).
Proof.
  unfold decode_value. unfold evaluation_only_allocates, is_evaluated in eval_allocates.
  destruct (PyStr.startswith "{" value && PyStr.endswith "}" value);
    [destruct (eval_allocates eq_refl dictionary key sub_dictionary h) as [fresh ->];
     eexists; reflexivity|].
  destruct (PyStr.startswith "[" value && PyStr.endswith "]" value);
    [destruct (eval_allocates eq_refl dictionary key sub_dictionary h) as [fresh ->];
     eexists; reflexivity|].
  reflexivity.
Qed.

Lemma keeps_shapes_decode (dictionary : hval) (key : string) (sub_dictionary : hval) :
  keeps_shapes (decode_value value dictionary key sub_dictionary).
Proof.
  intros h. destruct (decode_value_prefix dictionary key sub_dictionary h) as [fresh ->].
  apply shape_le_app.
Qed.

Lemma keeps_shapes_segments (dictionary : hval) (rest : list string) :
  forall first_key sub_dictionary,
    keeps_shapes (set_or_update_segments dictionary first_key rest value sub_dictionary).
Proof.
  induction rest as [|next rest IH]; intros first_key sub;
    cbn [set_or_update_segments];
    repeat match goal with
           | |- keeps_shapes (bindH _ _) => apply keeps_shapes_bind; [|intros ?]
           | |- keeps_shapes (match ?k with _ => _ end) => destruct k
           | |- keeps_shapes (if ?b then _ else _) => destruct b
           end;
    auto using keeps_shapes_decode, keeps_shapes_setitem, keeps_shapes_ret,
      keeps_shapes_alloc, keeps_shapes_same, convert_key_heap, getitemH_heap,
      containsH_heap.
Qed.

(** A run that continues in a new, empty dictionary touches no object that
    was there before that dictionary. *)
Lemma fresh_chain (dictionary : hval) (rest : list string) :
  forall (h0 : heap) first_key (l0 : nat) (h : heap),
    h0 `prefix_of` h -> List.length h0 <= l0 -> h !! l0 = Some (ODict []) ->
    h0 `prefix_of`
      fst (set_or_update_segments dictionary first_key rest value (HRef l0) h).
Proof.
  induction rest as [|next rest IH]; intros h0 first_key l0 h Hpre Hl0 Hempty;
    cbn [set_or_update_segments]; unfold bindH.
  - pose proof (decode_value_prefix dictionary first_key (HRef l0) h) as Hdec.
    destruct (decode_value value dictionary first_key (HRef l0) h) as [h1 [v|e]];
      simpl in Hdec;
      [|simpl; etransitivity; eassumption].
    assert (Hpre1 : h0 `prefix_of` h1) by (etransitivity; eassumption).
    pose proof (convert_key_heap (HRef l0) first_key h1) as Hconv.
    destruct (convert_key (HRef l0) first_key h1) as [h2 [key|e]]; simpl in Hconv; subst h2;
      [|exact Hpre1].
    pose proof (setitemH_prefix h0 h1 l0 key v Hpre1 Hl0) as Hset.
    destruct (setitemH (HRef l0) key v h1) as [h3 [[]|e]]; exact Hset.
  - unfold convert_key, bindH, is_list, retH. rewrite Hempty.
    unfold containsH. rewrite Hempty. cbn [dict_has dict_get alloc].
    assert (Hrec : h0 `prefix_of`
              fst (set_or_update_segments dictionary next rest value
                     (HRef (List.length h)) (h ++ [ODict []]))).
    { apply IH.
      - etransitivity; [exact Hpre|]. eexists; reflexivity.
      - apply prefix_length in Hpre. exact Hpre.
      - rewrite lookup_app_r by reflexivity. rewrite Nat.sub_diag. reflexivity. }
    destruct (set_or_update_segments dictionary next rest value
                (HRef (List.length h)) (h ++ [ODict []])) as [h2 [v|e]];
      simpl in Hrec; [|exact Hrec].
    pose proof (setitemH_prefix h0 h2 l0 (KStr first_key) v Hrec Hl0) as Hset.
    destruct (setitemH (HRef l0) (KStr first_key) v h2) as [h3 [[]|e]]; exact Hset.
Qed.
End OverrideFacts.

Section OverrideFailure.
Context `{Evaluator}.
Variable value : string.
Hypothesis eval_allocates : evaluation_only_allocates value.

(** An assignment that follows a successful read of the same list cannot
    fail: the list has kept its length. *)
Lemma setitemH_after (u : hval) (key : subscript) (v : hval) (h h2 : heap)
  (e : exn) :
  shape_le h h2 ->
  (exists l o, u = HRef l /\ h !! l = Some o /\
               match o, key with
               | ODict _, KStr _ => True
               | OList items, KInt i => list_index (List.length items) i <> None
               | _, _ => False
               end) ->
  snd (setitemH u key v h2) <> Raise e.
Proof.
  intros Hshape (l & o & -> & Hl & Hkey). unfold setitemH.
  destruct (Hshape l o Hl) as (o2 & -> & Hs).
  destruct o as [d|items], o2 as [d2|items2], key as [k|i]; simpl in *;
    try contradiction; try discriminate.
  rewrite <- Hs. destruct (list_index (List.length items) i); [discriminate|congruence].
Qed.

Lemma setitemH_failed (u : hval) (key : subscript) (v : hval) (h : heap) :
  forall e, snd (setitemH u key v h) = Raise e -> fst (setitemH u key v h) = h.
Proof.
  intros e. unfold setitemH.
  destruct u as [| | | | |l]; try reflexivity.
  destruct (h !! l) as [[d|items]|]; [| |reflexivity].
  - destruct key; discriminate.
  - destruct key as [k|i]; [reflexivity|].
    destruct (list_index (List.length items) i); [discriminate|reflexivity].
Qed.

Lemma failed_segments_keep_store (dictionary : hval) (rest : list string) :
  forall first_key sub_dictionary (h : heap) (e : exn),
    snd (set_or_update_segments dictionary first_key rest value sub_dictionary h)
      = Raise e ->
    h `prefix_of`
      fst (set_or_update_segments dictionary first_key rest value sub_dictionary h).
Proof.
  induction rest as [|next rest IH]; intros first_key sub h e;
    cbn [set_or_update_segments];
    set (updated_dict := match sub with HNone => dictionary | _ => sub end);
    unfold bindH.
  - pose proof (decode_value_prefix value eval_allocates dictionary first_key sub h) as Hdec.
    destruct (decode_value value dictionary first_key sub h) as [h1 [v|e1]];
      simpl in Hdec; [|intros _; exact Hdec].
    pose proof (convert_key_heap updated_dict first_key h1) as Hconv.
    destruct (convert_key updated_dict first_key h1) as [h2 [key|e2]];
      simpl in Hconv; subst h2; [|intros _; exact Hdec].
    pose proof (setitemH_failed updated_dict key v h1) as Hset.
    destruct (setitemH updated_dict key v h1) as [h3 [[]|e3]]; simpl in *;
      intros Hfail; [discriminate Hfail|].
    rewrite (Hset e3 eq_refl). exact Hdec.
  - pose proof (convert_key_heap updated_dict first_key h) as Hconv.
    destruct (convert_key updated_dict first_key h) as [h1 [key|e1]] eqn:Hkey;
      simpl in Hconv; subst h1; [|intros _; reflexivity].
    (* the sub-dictionary in which the run continues *)
    destruct key as [k|i].
    + pose proof (containsH_heap k updated_dict h) as Hcont.
      destruct (containsH k updated_dict h) as [h1 [present|e1]] eqn:Hpresent;
        simpl in Hcont; subst h1; [|intros _; reflexivity].
      destruct present.
      * pose proof (getitemH_heap updated_dict (KStr k) h) as Hget.
        destruct (getitemH updated_dict (KStr k) h) as [h1 [sub'|e1]] eqn:Hsub;
          simpl in Hget; subst h1; [|intros _; reflexivity].
        pose proof (IH next sub' h) as Hrec.
        pose proof (keeps_shapes_segments value eval_allocates dictionary rest next sub' h)
          as Hshape.
        destruct (set_or_update_segments dictionary next rest value sub' h)
          as [h2 [v|e2]]; simpl in Hrec, Hshape; [|intros _; exact (Hrec e2 eq_refl)].
        intros Hfail. exfalso.
        destruct (setitemH updated_dict (KStr k) v h2) as [h3 [[]|e3]] eqn:Hset;
          simpl in Hfail; [discriminate|].
        eapply (setitemH_after updated_dict (KStr k) v h h2 e3 Hshape);
          [|rewrite Hset; reflexivity].
        unfold getitemH in Hsub.
        destruct updated_dict as [| | | | |l]; try discriminate Hsub.
        destruct (h !! l) as [[d|items]|] eqn:Hl; try discriminate Hsub.
        exists l, (ODict d). auto.
      * cbn [alloc].
        pose proof (fresh_chain value eval_allocates dictionary rest h next
                      (List.length h) (h ++ [ODict []])) as Hfresh.
        pose proof (IH next (HRef (List.length h)) (h ++ [ODict []])) as Hrec.
        destruct (set_or_update_segments dictionary next rest value
                    (HRef (List.length h)) (h ++ [ODict []])) as [h2 [v|e2]];
          simpl in Hrec, Hfresh.
        -- intros Hfail.
           assert (Hh2 : h `prefix_of` h2).
           { apply Hfresh; [eexists; reflexivity|reflexivity|].
             rewrite lookup_app_r by reflexivity. rewrite Nat.sub_diag. reflexivity. }
           pose proof (setitemH_failed updated_dict (KStr k) v h2) as Hset.
           destruct (setitemH updated_dict (KStr k) v h2) as [h3 [[]|e3]];
             simpl in *; [discriminate Hfail|].
           rewrite (Hset e3 eq_refl). exact Hh2.
        -- intros _. etransitivity; [|exact (Hrec e2 eq_refl)]. eexists; reflexivity.
    + pose proof (getitemH_heap updated_dict (KInt i) h) as Hget.
      destruct (getitemH updated_dict (KInt i) h) as [h1 [sub'|e1]] eqn:Hsub;
        simpl in Hget; subst h1; [|intros _; reflexivity].
      pose proof (IH next sub' h) as Hrec.
      pose proof (keeps_shapes_segments value eval_allocates dictionary rest next sub' h)
        as Hshape.
      destruct (set_or_update_segments dictionary next rest value sub' h)
        as [h2 [v|e2]]; simpl in Hrec, Hshape; [|intros _; exact (Hrec e2 eq_refl)].
      intros Hfail. exfalso.
      destruct (setitemH updated_dict (KInt i) v h2) as [h3 [[]|e3]] eqn:Hset;
        simpl in Hfail; [discriminate|].
      eapply (setitemH_after updated_dict (KInt i) v h h2 e3 Hshape);
        [|rewrite Hset; reflexivity].
      unfold getitemH in Hsub.
      destruct updated_dict as [| | | | |l]; try discriminate Hsub.
      destruct (h !! l) as [[d|items]|] eqn:Hl; try discriminate Hsub.
      exists l, (OList items). repeat split; auto.
      destruct (list_index (List.length items) i); [discriminate|discriminate Hsub].
Qed.
End OverrideFailure.

(** C7, counterexample: the instruction [b = [dictionary.clear(), 1/0]]
    on the configuration [{"a": [1]}] fails with the division by zero, and
    the configuration is empty afterwards. *)
Lemma evaluated_value_changes_the_store_and_fails :
  ~ @failed_override_changes_nothing clearing_evaluator.
Proof.
  intros Hnothing.
  specialize (Hnothing (HRef 0) "b" clearing_expression small_store ZeroDivisionError
                eq_refl 0 (ODict [("a", HRef 1)]) eq_refl).
  vm_compute in Hnothing. discriminate Hnothing.
Qed.

Lemma plain_value_only_allocates `{Evaluator} (value : string) :
  is_evaluated value = false -> evaluation_only_allocates value.
Proof. intros Hplain Hevaluated. congruence. Qed.

(** C7, amended.  When one override instruction fails, whatever the
    reason, and its value is not evaluated (it is not written as a
    dictionary or as a list) or is evaluated without changing an object that
    exists, then every object of the store is as it was before the
    instruction: the store after the failure is the store before it followed
    by new objects, to which no object of the store before refers. *)
Theorem failed_override_leaves_store `{Evaluator}
  (dictionary : hval) (key value : string) (sub_dictionary : hval)
  (h : heap) (e : exn) :
  evaluation_only_allocates value ->
  snd (set_or_update_a_value dictionary key value sub_dictionary h) = Raise e ->
  let h' := fst (set_or_update_a_value dictionary key value sub_dictionary h) in
  (exists fresh, h' = h ++ fresh) /\
  (forall l o, h !! l = Some o -> h' !! l = Some o).
Proof.
  intros Heval Hfail h'.
  assert (Hprefix : h `prefix_of` h').
  { unfold h', set_or_update_a_value in *.
    destruct (PyStr.split "." key) as [|first_key rest]; [discriminate Hfail|].
    eapply failed_segments_keep_store; eassumption. }
  split; [exact Hprefix|].
  intros l o Hl. destruct Hprefix as [fresh ->]. apply lookup_app_l_Some, Hl.
Qed.

(** C7 amended, on the path [a.5] in [{"a": [1]}] with a value that is
    not evaluated, for the evaluator that empties the configuration: the
    index is out of range and the store is unchanged. *)
Lemma failed_override_leaves_store_witness :
  snd (@set_or_update_a_value clearing_evaluator (HRef 0) "a.5" "x" HNone small_store)
    = Raise IndexError /\
  (exists fresh,
     fst (@set_or_update_a_value clearing_evaluator (HRef 0) "a.5" "x" HNone small_store)
     = small_store ++ fresh) /\
  (forall l o, small_store !! l = Some o ->
     fst (@set_or_update_a_value clearing_evaluator (HRef 0) "a.5" "x" HNone small_store)
       !! l = Some o).
Proof.
  split; [reflexivity|].
  exact (@failed_override_leaves_store clearing_evaluator (HRef 0) "a.5" "x" HNone
           small_store IndexError
           (@plain_value_only_allocates clearing_evaluator "x" eq_refl) eq_refl).
Defined.

(** ** Path overrides on trees *)

Lemma list_index_lt (n : nat) (i : Z) (k : nat) :
  list_index n i = Some k -> k < n.
Proof.
  unfold list_index.
  destruct ((0 <=? i)%Z && (i <? Z.of_nat n)%Z) eqn:E1.
  - intros [= <-]. apply andb_prop in E1 as [H1 H2]. lia.
  - destruct ((- Z.of_nat n <=? i)%Z && (i <? 0)%Z) eqn:E2; [|discriminate].
    intros [= <-]. apply andb_prop in E2 as [H1 H2]. lia.
Qed.

Lemma setitem_one_slot (u : value) (key : subscript) (v t : value) :
  Tree.setitem u key v = Ok t -> one_slot_set u t.
Proof.
  unfold Tree.setitem. destruct u; try discriminate; destruct key as [k|i];
    try discriminate.
  - destruct (list_index (List.length items) i) as [n|] eqn:Hn; [|discriminate].
    intros [= <-]. constructor. eapply list_index_lt, Hn.
  - intros [= <-]. constructor.
  - intros [= <-]. constructor.
Qed.

Lemma convert_key_one_slot (u t : value) (key : string) :
  one_slot_set u t -> Tree.convert_key t key = Tree.convert_key u key.
Proof. intros []; reflexivity. Qed.

Lemma setitem_setitem (u : value) (key : subscript) (v1 v2 t1 : value) :
  Tree.setitem u key v1 = Ok t1 ->
  Tree.setitem t1 key v2 = Tree.setitem u key v2.
Proof.
  unfold Tree.setitem. destruct u; try discriminate; destruct key as [k|i];
    try discriminate.
  - destruct (list_index (List.length items) i) as [n|] eqn:Hn; [|discriminate].
    intros [= <-]. rewrite length_insert, Hn, list_insert_insert_eq. reflexivity.
  - intros [= <-]. rewrite dict_set_set. reflexivity.
  - intros [= <-]. rewrite dict_set_set. reflexivity.
Qed.

(** After [u[key] = v], the function continues in [v] when it meets [key]
    again. *)
Lemma sub_dictionary_after_setitem (u : value) (first_key : string)
  (key : subscript) (v t1 : value) :
  Tree.convert_key u first_key = Ok key ->
  Tree.setitem u key v = Ok t1 ->
  Tree.read_sub_dictionary t1 key = Ok v.
Proof.
  unfold Tree.convert_key, Tree.setitem, Tree.read_sub_dictionary.
  destruct u; simpl; try (intros [= <-]; discriminate).
  - destruct (PyStr.int first_key); [|discriminate].
    intros [= <-]. destruct (list_index (List.length items) z) as [n|] eqn:Hn;
      [|discriminate].
    intros [= <-]. simpl. rewrite length_insert, Hn.
    rewrite list_lookup_insert_eq by (eapply list_index_lt, Hn). reflexivity.
  - intros [= <-] [= <-]. simpl. unfold dict_has.
    rewrite !dict_get_set_eq. reflexivity.
Qed.

Lemma getitem_after_setitem (u : value) (first_key : string) (key : subscript)
  (v t : value) :
  Tree.convert_key u first_key = Ok key ->
  Tree.setitem u key v = Ok t -> Tree.getitem t key = Ok v.
Proof.
  unfold Tree.convert_key, Tree.setitem, Tree.getitem.
  destruct u; simpl; try (intros [= <-]; discriminate).
  - destruct (PyStr.int first_key); [|discriminate]. intros [= <-].
    destruct (list_index (List.length items) z) as [n|] eqn:Hn; [|discriminate].
    intros [= <-]. rewrite length_insert, Hn.
    rewrite list_lookup_insert_eq by (eapply list_index_lt, Hn). reflexivity.
  - intros [= <-] [= <-]. rewrite dict_get_set_eq. reflexivity.
Qed.

(** Where a key can be read, the function continues in what is read. *)
Lemma read_sub_dictionary_of_getitem (u : value) (key : subscript) (v : value) :
  Tree.getitem u key = Ok v -> Tree.read_sub_dictionary u key = Ok v.
Proof.
  unfold Tree.read_sub_dictionary. destruct key as [k|i]; [|auto].
  unfold Tree.getitem. destruct u; try discriminate.
  cbn [Tree.contains bind]. unfold dict_has.
  destruct (dict_get k entries); [auto|discriminate].
Qed.

Lemma setitem_keeps_the_siblings (u : value) (segment : string) (key : subscript)
  (v t : value) :
  Tree.convert_key u segment = Ok key ->
  Tree.setitem u key v = Ok t ->
  keeps_the_siblings segment u t.
Proof.
  unfold Tree.convert_key, Tree.setitem.
  destruct u; simpl; try (intros [= <-]; discriminate).
  - destruct (PyStr.int segment) as [i|] eqn:Hint; [|discriminate]. intros [= <-].
    destruct (list_index (List.length items) i) as [n|] eqn:Hn; [|discriminate].
    intros [= <-]. split; [apply length_insert|].
    intros i' n' [= <-] Hn' j Hj. rewrite Hn in Hn'. injection Hn' as <-.
    apply list_lookup_insert_ne. congruence.
  - intros [= <-] [= <-]. split.
    + intros k Hk. rewrite dict_has_set, Hk. apply orb_true_r.
    + intros k Hk. apply dict_get_set_ne, Hk.
Qed.

Lemma updated_dict_of_a_dictionary (dictionary sub : value) :
  sub <> VNone -> updated_dict_of dictionary sub = sub.
Proof. destruct sub; [congruence|reflexivity..]. Qed.

Section TreeOverride.
Context `{TreeEvaluator}.

(** The last call of a run that returns a tree. *)
Lemma last_segment_done (dictionary : value) (first_key raw_value : string)
  (sub_dictionary t : value) :
  Tree.set_or_update_segments dictionary first_key [] raw_value sub_dictionary = Done t ->
  exists key new_value,
    Tree.decode_value raw_value dictionary first_key sub_dictionary = Ok new_value /\
    Tree.convert_key (updated_dict_of dictionary sub_dictionary) first_key = Ok key /\
    Tree.setitem (updated_dict_of dictionary sub_dictionary) key new_value = Ok t.
Proof.
  cbn [Tree.set_or_update_segments]. fold (updated_dict_of dictionary sub_dictionary).
  destruct (Tree.decode_value raw_value dictionary first_key sub_dictionary)
    as [new_value|] eqn:Hdecode; [|discriminate]. cbn [bind].
  destruct (Tree.convert_key (updated_dict_of dictionary sub_dictionary) first_key)
    as [key|] eqn:Hkey; [|discriminate]. cbn [bind].
  destruct (Tree.setitem (updated_dict_of dictionary sub_dictionary) key new_value)
    as [t'|] eqn:Hset; [|discriminate].
  intros [= <-]. exists key, new_value. auto.
Qed.

(** A call that is not the last, in a run that returns a tree: the
    function has continued in a sub-dictionary other than [None]. *)
Lemma inner_segment_done (dictionary : value) (first_key next : string)
  (rest : list string) (raw_value : string) (sub_dictionary t : value) :
  Tree.set_or_update_segments dictionary first_key (next :: rest) raw_value sub_dictionary
  = Done t ->
  exists key sub updated_sub_dict,
    Tree.convert_key (updated_dict_of dictionary sub_dictionary) first_key = Ok key /\
    Tree.read_sub_dictionary (updated_dict_of dictionary sub_dictionary) key = Ok sub /\
    sub <> VNone /\
    Tree.set_or_update_segments dictionary next rest raw_value sub = Done updated_sub_dict /\
    Tree.setitem (updated_dict_of dictionary sub_dictionary) key updated_sub_dict = Ok t.
Proof.
  cbn [Tree.set_or_update_segments]. fold (updated_dict_of dictionary sub_dictionary).
  destruct (Tree.convert_key (updated_dict_of dictionary sub_dictionary) first_key)
    as [key|] eqn:Hkey; [|discriminate].
  destruct (Tree.read_sub_dictionary (updated_dict_of dictionary sub_dictionary) key)
    as [sub|] eqn:Hread; [|discriminate].
  destruct (Tree.set_or_update_segments dictionary next rest raw_value sub)
    as [updated_sub_dict| |] eqn:Hinner; [|discriminate..].
  intros Hdone. exists key, sub, updated_sub_dict.
  assert (Hsub : sub <> VNone) by (intros ->; discriminate Hdone).
  assert (Hset : Tree.of_result
                   (Tree.setitem (updated_dict_of dictionary sub_dictionary) key
                      updated_sub_dict) = Done t)
    by (destruct sub; [congruence|exact Hdone..]).
  destruct (Tree.setitem (updated_dict_of dictionary sub_dictionary) key updated_sub_dict)
    as [t'|]; [|discriminate Hset].
  injection Hset as <-. repeat split; auto.
Qed.

Lemma segments_one_slot (rest : list string) :
  forall dictionary first_key raw_value sub_dictionary t,
    Tree.set_or_update_segments dictionary first_key rest raw_value sub_dictionary
    = Done t ->
    one_slot_set (updated_dict_of dictionary sub_dictionary) t.
Proof.
  destruct rest as [|next rest]; intros dictionary first_key raw sub t Hdone.
  - destruct (last_segment_done _ _ _ _ _ Hdone) as (key & nv & _ & _ & Hset).
    eapply setitem_one_slot, Hset.
  - destruct (inner_segment_done _ _ _ _ _ _ _ Hdone) as (key & s & u & _ & _ & _ & _ & Hset).
    eapply setitem_one_slot, Hset.
Qed.

Lemma done_is_not_none (rest : list string) (dictionary : value)
  (first_key raw_value : string) (sub_dictionary : value) :
  Tree.set_or_update_segments dictionary first_key rest raw_value sub_dictionary
  <> Done VNone.
Proof.
  intros Hdone. apply segments_one_slot in Hdone. inversion Hdone.
Qed.

Lemma decode_ignores_scope (raw_value : string) :
  evaluation_ignores_scope raw_value ->
  forall dictionary key sub_dictionary dictionary' key' sub_dictionary',
    Tree.decode_value raw_value dictionary key sub_dictionary
    = Tree.decode_value raw_value dictionary' key' sub_dictionary'.
Proof.
  unfold evaluation_ignores_scope, is_evaluated, Tree.decode_value. intros Hscope **.
  destruct (PyStr.startswith "{" raw_value && PyStr.endswith "}" raw_value);
    [apply Hscope; reflexivity|].
  destruct (PyStr.startswith "[" raw_value && PyStr.endswith "]" raw_value);
    [apply Hscope; reflexivity|reflexivity].
Qed.

(** A second override of the path, in the result of the first. *)
Lemma segments_overwrite (v2 : string) (rest : list string) :
  evaluation_ignores_scope v2 ->
  forall dictionary sub_dictionary dictionary' sub_dictionary' first_key v1 t1,
    Tree.set_or_update_segments dictionary first_key rest v1 sub_dictionary = Done t1 ->
    updated_dict_of dictionary' sub_dictionary' = t1 ->
    Tree.set_or_update_segments dictionary' first_key rest v2 sub_dictionary' =
    Tree.set_or_update_segments dictionary first_key rest v2 sub_dictionary.
Proof.
  intros Hscope.
  induction rest as [|next rest IH];
    intros dictionary sub dictionary' sub' first_key v1 t1 Hdone Hupdated.
  - pose proof (segments_one_slot [] _ _ _ _ _ Hdone) as Hslot.
    destruct (last_segment_done _ _ _ _ _ Hdone) as (key & nv1 & _ & Hkey & Hset).
    cbn [Tree.set_or_update_segments].
    fold (updated_dict_of dictionary sub) (updated_dict_of dictionary' sub').
    rewrite Hupdated, (convert_key_one_slot _ t1 first_key Hslot), Hkey.
    rewrite (decode_ignores_scope v2 Hscope dictionary' first_key sub'
               dictionary first_key sub).
    destruct (Tree.decode_value v2 dictionary first_key sub) as [nv2|]; [|reflexivity].
    cbn [bind]. rewrite (setitem_setitem _ key nv1 nv2 t1 Hset). reflexivity.
  - pose proof (segments_one_slot (next :: rest) _ _ _ _ _ Hdone) as Hslot.
    destruct (inner_segment_done _ _ _ _ _ _ _ Hdone)
      as (key & s & s1 & Hkey & Hsub & Hs & Hs1 & Hset).
    cbn [Tree.set_or_update_segments].
    fold (updated_dict_of dictionary sub) (updated_dict_of dictionary' sub').
    rewrite Hupdated, (convert_key_one_slot _ t1 first_key Hslot), Hkey, Hsub.
    rewrite (sub_dictionary_after_setitem _ first_key key s1 t1 Hkey Hset).
    pose proof (done_is_not_none rest dictionary next v1 s) as Hs1_not_none.
    rewrite Hs1 in Hs1_not_none.
    assert (Hs1' : s1 <> VNone) by congruence.
    rewrite (IH dictionary s dictionary' s1 next v1 s1 Hs1
               (updated_dict_of_a_dictionary dictionary' s1 Hs1')).
    destruct (Tree.set_or_update_segments dictionary next rest v2 s) as [s2| |];
      [|reflexivity..].
    rewrite (setitem_setitem _ key s1 s2 t1 Hset).
    destruct s1; try congruence; destruct s; try congruence; reflexivity.
Qed.

(** What the override keeps on its way: in every container that the path
    goes through, the siblings of the segment that the path takes. *)
Lemma segments_keep_the_siblings (rest : list string) :
  forall dictionary first_key raw_value sub_dictionary t,
    Tree.set_or_update_segments dictionary first_key rest raw_value sub_dictionary
    = Done t ->
    forall before segment after c,
      first_key :: rest = before ++ segment :: after ->
      lookup_path (updated_dict_of dictionary sub_dictionary) before = Some c ->
      exists c', lookup_path t before = Some c' /\ keeps_the_siblings segment c c'.
Proof.
  induction rest as [|next rest IH];
    intros dictionary first_key raw sub t Hdone before segment after c Hpath Hlookup.
  - destruct (last_segment_done _ _ _ _ _ Hdone) as (key & nv & _ & Hkey & Hset).
    destruct before as [|b before].
    + cbn [app] in Hpath. injection Hpath as <- _.
      cbn [lookup_path] in Hlookup. injection Hlookup as <-.
      exists t. split; [reflexivity|].
      eapply setitem_keeps_the_siblings; eassumption.
    + cbn [app] in Hpath. injection Hpath as _ Hrest.
      destruct before; discriminate Hrest.
  - pose proof (segments_one_slot (next :: rest) _ _ _ _ _ Hdone) as Hslot.
    destruct (inner_segment_done _ _ _ _ _ _ _ Hdone)
      as (key & s & s1 & Hkey & Hsub & Hs & Hs1 & Hset).
    destruct before as [|b before].
    + cbn [app] in Hpath. injection Hpath as <- _.
      cbn [lookup_path] in Hlookup. injection Hlookup as <-.
      exists t. split; [reflexivity|].
      eapply setitem_keeps_the_siblings; eassumption.
    + cbn [app] in Hpath. injection Hpath as <- Hrest.
      cbn [lookup_path] in Hlookup |- *.
      rewrite (convert_key_one_slot _ t first_key Hslot), Hkey in *.
      rewrite (getitem_after_setitem _ first_key key s1 t Hkey Hset).
      destruct (Tree.getitem (updated_dict_of dictionary sub) key) as [s'|] eqn:Hget;
        [|discriminate Hlookup].
      rewrite (read_sub_dictionary_of_getitem _ _ _ Hget) in Hsub.
      injection Hsub as ->.
      apply (IH dictionary next raw s s1 Hs1 before segment after c Hrest).
      rewrite (updated_dict_of_a_dictionary dictionary s Hs). exact Hlookup.
Qed.
End TreeOverride.

Lemma split_not_empty (sep : ascii) (s : string) : PyStr.split sep s <> [].
Proof.
  induction s as [|c s IH]; simpl; [discriminate|].
  destruct (Ascii.eqb c sep); [discriminate|].
  destruct (PyStr.split sep s); [contradiction|discriminate].
Qed.

(** C8, counterexample: on the empty configuration, the override of [a]
    with the number of keys of the configuration gives [{"a": [0]}], and
    after an override of [a] with [x] it gives [{"a": [1]}]. *)
Lemma overwrite_with_a_value_that_reads_the_tree :
  ~ @overwrite_is_idempotent counting_evaluator.
Proof.
  intros Hidempotent.
  specialize (Hidempotent (VDict []) "a" "x" counting_expression
                (VDict [("a", VStr "x")]) eq_refl).
  vm_compute in Hidempotent. discriminate Hidempotent.
Qed.

(** C8, amended.  If an override of the path [key] returns a tree, then a
    second override of the same path, applied to that tree, gives what the
    second override gives on the original tree (the same tree, or the same
    failure), when the second value is not evaluated or its evaluation does
    not depend on the configuration.  And the override keeps the siblings
    all along the path: every container of the original tree that the path
    goes through is a container of the same kind in the result, a dictionary
    with all its keys, a list with its length, and everything in it but the
    entry that the path takes has kept its value. *)
Theorem override_twice_is_override_once `{TreeEvaluator}
  (tree : value) (key v1 v2 : string) (t1 : value) :
  Tree.set_or_update_a_value tree key v1 = Done t1 ->
  (evaluation_ignores_scope v2 ->
   Tree.set_or_update_a_value t1 key v2 = Tree.set_or_update_a_value tree key v2) /\
  (forall before segment after c,
     PyStr.split "." key = before ++ segment :: after ->
     lookup_path tree before = Some c ->
     exists c', lookup_path t1 before = Some c' /\ keeps_the_siblings segment c c').
Proof.
  unfold Tree.set_or_update_a_value.
  pose proof (split_not_empty "." key) as Hsplit.
  destruct (PyStr.split "." key) as [|first_key rest]; [contradiction|].
  intros Hdone. split.
  - intros Hscope. eapply segments_overwrite; [exact Hscope|exact Hdone|reflexivity].
  - intros before segment after c Hpath Hlookup.
    eapply segments_keep_the_siblings; [exact Hdone|exact Hpath|exact Hlookup].
Qed.

(** C8 amended, on the path [cv.phone.home], which creates a dictionary on
    the way: the second override gives what it gives on the original tree,
    and the name in [cv] is kept. *)
Lemma override_twice_is_override_once_witness :
  @Tree.set_or_update_a_value counting_evaluator small_tree "cv.phone.home" "1"
  = Done (VDict [("cv", VDict [("name", VStr "A");
                               ("phone", VDict [("home", VStr "1")])]);
                 ("pages", VList [VInt 1; VInt 2])]) /\
  @Tree.set_or_update_a_value counting_evaluator
     (VDict [("cv", VDict [("name", VStr "A");
                           ("phone", VDict [("home", VStr "1")])]);
             ("pages", VList [VInt 1; VInt 2])]) "cv.phone.home" "2"
  = @Tree.set_or_update_a_value counting_evaluator small_tree "cv.phone.home" "2" /\
  exists c',
    lookup_path (VDict [("cv", VDict [("name", VStr "A");
                                      ("phone", VDict [("home", VStr "1")])]);
                        ("pages", VList [VInt 1; VInt 2])]) ["cv"] = Some c' /\
    keeps_the_siblings "phone" (VDict [("name", VStr "A")]) c'.
Proof.
  split; [reflexivity|].
  destruct (@override_twice_is_override_once counting_evaluator
              small_tree "cv.phone.home" "1" "2" _ eq_refl) as [Htwice Hsiblings].
  split.
  - apply Htwice. intros Hevaluated. discriminate Hevaluated.
  - exact (Hsiblings ["cv"] "phone" ["home"] (VDict [("name", VStr "A")]) eq_refl eq_refl).
Defined.

(** ** More on override arguments *)

Lemma parse_pairs_missing_dashes (before : list (string * string)) :
  forall (args : list string) (acc : list (string * string)) key value after,
    pairs args = before ++ (key, value) :: after ->
    Forall (fun kv => PyStr.startswith "--" (fst kv) = true) before ->
    PyStr.startswith "--" key = false ->
    parse_pairs args acc = Raise (ValueError [AStr (missing_dashes_message key)]).
Proof.
  induction before as [|[k0 v0] before IH]; intros args acc key value after Hpairs Hbefore Hkey.
  - destruct args as [|a [|b args]]; try discriminate Hpairs.
    simpl in Hpairs. injection Hpairs as -> -> _.
    cbn [parse_pairs]. rewrite Hkey. reflexivity.
  - destruct args as [|a [|b args]]; try discriminate Hpairs.
    simpl in Hpairs. injection Hpairs as -> -> Hrest.
    inversion Hbefore as [|? ? Hk0 Hbefore']; subst. cbn [fst] in Hk0.
    cbn [parse_pairs]. rewrite Hk0. cbn [negb].
    eapply IH; eassumption.
Qed.

(** Malformed override arguments.  An odd number of tokens is refused
    before any token is read; otherwise the first key, from the left, that
    does not start with two dashes is refused with a message that names
    it. *)
Theorem malformed_override_arguments_are_refused (args : list string) :
  (Nat.even (List.length args) = false ->
   parse_render_command_override_arguments args
   = Raise (ValueError [AStr odd_arguments_message])) /\
  (forall before key value after,
     Nat.even (List.length args) = true ->
     pairs args = before ++ (key, value) :: after ->
     Forall (fun kv => PyStr.startswith "--" (fst kv) = true) before ->
     PyStr.startswith "--" key = false ->
     parse_render_command_override_arguments args
     = Raise (ValueError [AStr (missing_dashes_message key)])).
Proof.
  unfold parse_render_command_override_arguments. split.
  - intros ->. reflexivity.
  - intros before key value after -> Hpairs Hbefore Hkey. cbn [negb].
    eapply parse_pairs_missing_dashes; eassumption.
Qed.

Lemma malformed_override_arguments_are_refused_witness :
  parse_render_command_override_arguments ["--cv.name"; "A"; "cv.phone"; "1"]
  = Raise (ValueError [AStr (missing_dashes_message "cv.phone")]).
Proof.
  exact (proj2 (malformed_override_arguments_are_refused
                  ["--cv.name"; "A"; "cv.phone"; "1"])
           [("--cv.name", "A")] "cv.phone" "1" [] eq_refl eq_refl
           ltac:(repeat constructor) eq_refl).
Defined.

Lemma replace_from_absent (old new s : string) :
  PyStr.contains old s = false -> PyStr.replace_from old new 0 s = s.
Proof.
  induction s as [|c s IH]; [reflexivity|]. cbn [PyStr.contains PyStr.replace_from].
  intros Hc. apply orb_false_elim in Hc as [Hstart Htail].
  rewrite Hstart. f_equal. apply IH, Htail.
Qed.

Lemma dashes_removed_prefix (rest : string) :
  PyStr.contains "--" rest = false -> dashes_removed ("--" +:+ rest) = rest.
Proof.
  intros Hrest. unfold dashes_removed, PyStr.replace.
  change ("--" +:+ rest) with (String "-" (String "-" rest)).
  cbn [PyStr.replace_from PyStr.startswith]. rewrite !Ascii.eqb_refl.
  cbn [andb String.length Nat.sub String.append].
  destruct rest as [|c rest]; [reflexivity|].
  cbn [PyStr.replace_from]. apply (replace_from_absent "--" "" (String c rest)), Hrest.
Qed.

Lemma dict_get_fold_set (ps : list (string * string)) (k : string) :
  forall acc,
    dict_get k (fold_left (fun d kv => dict_set (dashes_removed (fst kv)) (snd kv) d) ps acc)
    = fold_left (fun found kv =>
                   if String.eqb k (dashes_removed (fst kv)) then Some (snd kv) else found)
        ps (dict_get k acc).
Proof.
  induction ps as [|[key value] ps IH]; intros acc; [reflexivity|].
  cbn [fold_left fst snd]. rewrite IH. f_equal.
  destruct (String.eqb k (dashes_removed key)) eqn:E.
  - apply String.eqb_eq in E. subst k. apply dict_get_set_eq.
  - apply dict_get_set_ne. intros ->. rewrite String.eqb_refl in E. discriminate.
Qed.

(** Well-formed override arguments.  The value found under a key of the
    result is the last value that the arguments give to that key, a key
    being compared after the removal of its dashes; and a token made of two
    dashes and a path without two dashes in a row stands for that path. *)
Theorem override_arguments_last_value_wins (args : list string)
  (key_and_values : list (string * string)) :
  parse_render_command_override_arguments args = Ok key_and_values ->
  (forall k, dict_get k key_and_values = last_value k (pairs args)) /\
  (forall dotted_path value,
     PyStr.contains "--" dotted_path = false ->
     In ("--" +:+ dotted_path, value) (pairs args) ->
     dict_has dotted_path key_and_values = true).
Proof.
  intros Hparse.
  assert (Hdash : Forall (fun kv => PyStr.startswith "--" (fst kv) = true) (pairs args)).
  { unfold parse_render_command_override_arguments in Hparse.
    destruct (negb (Nat.even (List.length args))); [discriminate|].
    clear -Hparse. revert Hparse. generalize (@nil (string * string)). 
    induction args as [| a | key value rest IH] using pair_induction; intros acc Hparse;
      [constructor|constructor|].
    cbn [parse_pairs] in Hparse. cbn [pairs].
    destruct (PyStr.startswith "--" key) eqn:Hkey; [|discriminate Hparse].
    constructor; [exact Hkey|]. eapply IH, Hparse. }
  assert (Hresult : key_and_values =
            fold_left (fun d kv => dict_set (dashes_removed (fst kv)) (snd kv) d)
              (pairs args) []).
  { unfold parse_render_command_override_arguments in Hparse.
    destruct (negb (Nat.even (List.length args))); [discriminate|].
    rewrite (parse_pairs_spec args [] Hdash) in Hparse. congruence. }
  split.
  - intros k. rewrite Hresult. apply dict_get_fold_set.
  - intros dotted_path value Hpath Hin. rewrite Hresult.
    apply fold_dict_set_has. right. exists ("--" +:+ dotted_path), value.
    split; [exact Hin|]. symmetry. apply dashes_removed_prefix, Hpath.
Qed.

Lemma override_arguments_last_value_wins_witness :
  dict_get "cv.name" [("cv.name", "B")] = last_value "cv.name"
    (pairs ["--cv.name"; "A"; "--cv.name"; "B"]).
Proof.
  exact (proj1 (override_arguments_last_value_wins
                  ["--cv.name"; "A"; "--cv.name"; "B"] [("cv.name", "B")] eq_refl)
           "cv.name").
Defined.

(** ** More on [copy_files] *)

Lemma string_length_app (a b : string) :
  String.length (a +:+ b) = String.length a + String.length b.
Proof. induction a as [|c a IH]; simpl; [reflexivity|]. rewrite IH. reflexivity. Qed.

Lemma string_app_inj_r (a b c : string) : a +:+ c = b +:+ c -> a = b.
Proof.
  intros Heq.
  assert (Hlen : String.length a = String.length b).
  { apply (f_equal String.length) in Heq. rewrite !string_length_app in Heq. lia. }
  revert b Heq Hlen. induction a as [|x a IH]; intros [|y b] Heq Hlen;
    try discriminate Hlen; [reflexivity|].
  simpl in Heq. injection Heq as -> Heq. f_equal. apply IH; [exact Heq|].
  simpl in Hlen. lia.
Qed.

Lemma png_path_with_page_number_inj (new_path : path) (i j : nat) :
  png_path_with_page_number new_path i = png_path_with_page_number new_path j -> i = j.
Proof.
  unfold png_path_with_page_number, Path.child. intros Heq.
  injection Heq as Heq. apply app_inj_tail in Heq as [_ Heq].
  apply String.app_inj in Heq. apply (String.app_inj "_") in Heq.
  apply string_app_inj_r in Heq. unfold PyStr.str_of_nat in Heq.
  apply (inj pretty) in Heq. lia.
Qed.

(** [copy_files] copies every artifact once, in order, and no two copies
    go to the same destination: one artifact goes to the destination as it
    is configured, several artifacts go to destinations that differ in their
    page numbers. *)
Theorem copy_files_destinations_are_distinct (paths : list path) (new_path : path) :
  map fst (copy_files (PathList paths) new_path) = paths /\
  List.NoDup (map snd (copy_files (PathList paths) new_path)) /\
  forall p, copy_files (OnePath p) new_path = [(p, new_path)].
Proof.
  split; [|split; [|reflexivity]].
  - unfold copy_files. destruct paths as [|p [|q paths]]; try reflexivity.
    generalize (p :: q :: paths). intros l.
    apply list_eq. intros i. rewrite list_lookup_fmap, list_lookup_imap.
    destruct (l !! i); reflexivity.
  - unfold copy_files. destruct paths as [|p [|q paths]];
      [constructor|repeat constructor; simpl; tauto|].
    generalize (p :: q :: paths). intros l.
    apply NoDup_ListNoDup, NoDup_alt. intros i j d Hi Hj.
    rewrite list_lookup_fmap, list_lookup_imap in Hi, Hj.
    destruct (l !! i); [|discriminate Hi]. destruct (l !! j); [|discriminate Hj].
    simpl in Hi, Hj.
    apply (png_path_with_page_number_inj new_path). congruence.
Qed.

(** ** The pattern of a custom error *)

Abbreviation give_back_from re' s :=
  (fix give_back (k : nat) : option (list string) :=
     match Re.match_here re' (Re.drop k s) with
     | Some groups => Some (Re.take k s :: groups)
     | None => match k with
               | O => None
               | S k' => give_back k'
               end
     end).

Lemma give_back_inv (re' : list re_item) (s : string) (n : nat) (r : list string) :
  give_back_from re' s n = Some r ->
  exists k groups, k <= n /\ r = Re.take k s :: groups /\
                   Re.match_here re' (Re.drop k s) = Some groups.
Proof.
  induction n as [|n IH].
  - destruct (Re.match_here re' (Re.drop 0 s)) as [groups|] eqn:E; [|discriminate].
    intros [= <-]. exists 0, groups. auto.
  - destruct (Re.match_here re' (Re.drop (S n) s)) as [groups|] eqn:E.
    + intros [= <-]. exists (S n), groups. auto.
    + intros Hn. destruct (IH Hn) as (k & groups & Hk & Hr & Hm).
      exists k, groups. auto.
Qed.

Lemma give_back_first (re' : list re_item) (s : string) (target : nat)
  (groups : list string) :
  Re.match_here re' (Re.drop target s) = Some groups ->
  forall n, target <= n ->
    (forall k, target < k -> k <= n -> Re.match_here re' (Re.drop k s) = None) ->
    give_back_from re' s n = Some (Re.take target s :: groups).
Proof.
  intros Htarget. induction n as [|n IH]; intros Hle Hlater.
  - assert (target = 0) as -> by lia. rewrite Htarget. reflexivity.
  - destruct (decide (target = S n)) as [->|Hne].
    + rewrite Htarget. reflexivity.
    + rewrite (Hlater (S n)) by lia. apply IH; [lia|].
      intros k Hk Hkn. apply Hlater; lia.
Qed.

Lemma count_quotes_drop (k : nat) (s : string) :
  count_quotes (Re.drop k s) <= count_quotes s.
Proof.
  revert s. induction k as [|k IH]; intros [|c s]; simpl; try lia.
  specialize (IH s). lia.
Qed.

(** A match uses up one quote of the string for every item of the pattern
    that only a quote can match. *)
Lemma match_needs_quotes (re : list re_item) :
  forall s groups, Re.match_here re s = Some groups -> quote_items re <= count_quotes s.
Proof.
  induction re as [|item re IH]; intros s groups Hmatch; [simpl; lia|].
  destruct item as [c|cs|].
  - cbn [Re.match_here] in Hmatch. destruct s as [|d s]; [discriminate|].
    destruct (Ascii.eqb c d) eqn:E; [|discriminate].
    apply Ascii.eqb_eq in E. subst d. specialize (IH s groups Hmatch). simpl. lia.
  - cbn [Re.match_here] in Hmatch. destruct s as [|d s]; [discriminate|].
    destruct (Re.one_of cs d) eqn:E; [|discriminate].
    specialize (IH s groups Hmatch). simpl.
    destruct (forallb is_quote cs) eqn:Hall; [|lia].
    assert (Hd : is_quote d = true).
    { unfold Re.one_of in E. apply existsb_exists in E as (x & Hx & Hdx).
      apply Ascii.eqb_eq in Hdx. subst x.
      rewrite forallb_forall in Hall. apply Hall, Hx. }
    rewrite Hd. lia.
  - cbn [Re.match_here] in Hmatch.
    apply give_back_inv in Hmatch as (k & groups' & _ & _ & Hm).
    specialize (IH _ _ Hm). pose proof (count_quotes_drop k s). simpl. lia.
Qed.

Lemma drop_app_length (body tail : string) :
  Re.drop (String.length body) (body +:+ tail) = tail.
Proof. induction body as [|c body IH]; simpl; [destruct tail; reflexivity|exact IH]. Qed.

Lemma take_app_length (body tail : string) :
  Re.take (String.length body) (body +:+ tail) = body.
Proof.
  induction body as [|c body IH]; simpl; [destruct tail; reflexivity|].
  rewrite IH. reflexivity.
Qed.

Lemma drop_app_more (body tail : string) (k : nat) :
  Re.drop (String.length body + k) (body +:+ tail) = Re.drop k tail.
Proof. induction body as [|c body IH]; simpl; [reflexivity|exact IH]. Qed.

Lemma dot_run_quote_free (body tail : string) :
  quote_free body = true -> String.length body <= Re.dot_run (body +:+ tail).
Proof.
  unfold quote_free. induction body as [|c body IH]; simpl; [lia|].
  intros Hb. apply andb_prop in Hb as [Hc Hb]. apply andb_prop in Hc as [_ Hdot].
  rewrite Hdot. specialize (IH Hb). lia.
Qed.

(** A group that is followed by a quote takes exactly the text before the
    quote, when that text has no quote and the rest of the pattern needs
    all the quotes that are left. *)
Lemma group_then_quote (re' : list re_item) (body tail : string) (q : ascii)
  (groups : list string) :
  quote_free body = true -> is_quote q = true ->
  count_quotes tail < quote_items re' ->
  Re.match_here re' (String q tail) = Some groups ->
  Re.match_here (RGroupAny :: re') (body +:+ String q tail) = Some (body :: groups).
Proof.
  intros Hbody Hq Hcount Hmatch. cbn [Re.match_here].
  pose proof (give_back_first re' (body +:+ String q tail) (String.length body) groups)
    as Hfirst.
  rewrite drop_app_length, take_app_length in Hfirst.
  apply Hfirst.
  - exact Hmatch.
  - apply dot_run_quote_free, Hbody.
  - intros k Hk _.
    replace k with (String.length body + S (k - String.length body - 1)) by lia.
    rewrite drop_app_more. cbn [Re.drop].
    destruct (Re.match_here re' (Re.drop (k - String.length body - 1) tail)) eqn:E;
      [|reflexivity].
    apply match_needs_quotes in E.
    pose proof (count_quotes_drop (k - String.length body - 1) tail). lia.
Qed.

Lemma search_skips (re' : list re_item) (c : ascii) (prefix s : string) :
  PyStr.contains (String c "") prefix = false ->
  Re.search (RChar c :: re') (prefix +:+ s) = Re.search (RChar c :: re') s.
Proof.
  induction prefix as [|d prefix IH]; [reflexivity|].
  cbn [PyStr.contains PyStr.startswith]. intros Hc.
  apply orb_false_elim in Hc as [Hd Hrest].
  rewrite andb_true_r in Hd.
  change (String d prefix +:+ s) with (String d (prefix +:+ s)).
  cbn [Re.search Re.match_here]. rewrite Hd. apply IH, Hrest.
Qed.

Lemma search_found (re : list re_item) (s : string) (groups : list string) :
  Re.match_here re s = Some groups -> Re.search re s = Some groups.
Proof. intros Hm. destruct s; cbn [Re.search]; rewrite Hm; reflexivity. Qed.

Lemma match_char (c : ascii) (re' : list re_item) (s : string) :
  Re.match_here (RChar c :: re') (String c s) = Re.match_here re' s.
Proof. cbn [Re.match_here]. rewrite Ascii.eqb_refl. reflexivity. Qed.

Lemma match_one_of (cs : list ascii) (d : ascii) (re' : list re_item) (s : string) :
  Re.one_of cs d = true ->
  Re.match_here (ROneOf cs :: re') (String d s) = Re.match_here re' s.
Proof. intros Hd. cbn [Re.match_here]. rewrite Hd. reflexivity. Qed.

Lemma count_quotes_app (a b : string) :
  count_quotes (a +:+ b) = count_quotes a + count_quotes b.
Proof. induction a as [|c a IH]; simpl; [reflexivity|]. rewrite IH. lia. Qed.

Lemma count_quotes_quote_free (body : string) :
  quote_free body = true -> count_quotes body = 0.
Proof.
  unfold quote_free. induction body as [|c body IH]; simpl; [reflexivity|].
  intros Hb. apply andb_prop in Hb as [Hc Hb]. apply andb_prop in Hc as [Hq _].
  apply negb_true_iff in Hq. rewrite Hq. simpl. apply IH, Hb.
Qed.

Lemma custom_error_is_read_back (prefix message location input_value : string) :
  PyStr.contains "(" prefix = false ->
  quote_free message = true ->
  quote_free location = true ->
  quote_free input_value = true ->
  get_error_message_and_location_and_value_from_a_custom_error
    (prefix +:+ custom_error_string message location input_value)
  = Some (message, location, input_value).
Proof.
  intros Hprefix Hm Hl Hv.
  unfold get_error_message_and_location_and_value_from_a_custom_error,
    custom_error_pattern.
  rewrite search_skips by exact Hprefix.
  pose proof (count_quotes_quote_free _ Hm) as Hcm.
  pose proof (count_quotes_quote_free _ Hl) as Hcl.
  pose proof (count_quotes_quote_free _ Hv) as Hcv.
  set (t3 := String "'" ")").
  set (t2 := String "'" (String "," (String " " (String "'" (input_value +:+ t3))))).
  set (t1 := String "'" (String "," (String " " (String "'" (location +:+ t2))))).
  assert (Hmatch3 :
    Re.match_here [RGroupAny; RChar "'"; RChar ")"] (input_value +:+ t3)
    = Some [input_value]).
  { apply group_then_quote; [exact Hv|reflexivity|simpl; lia|reflexivity]. }
  assert (Hmatch2 :
    Re.match_here [RGroupAny; RChar "'"; RChar ","; RChar " "; RChar "'";
                   RGroupAny; RChar "'"; RChar ")"] (location +:+ t2)
    = Some [location; input_value]).
  { apply group_then_quote; [exact Hl|reflexivity| |].
    - cbn [count_quotes]. rewrite count_quotes_app, Hcv. vm_compute. lia.
    - rewrite !match_char. exact Hmatch3. }
  assert (Hmatch :
    Re.match_here
      [RChar "("; ROneOf ["'"%char; double_quote]; RGroupAny;
       ROneOf ["'"%char; double_quote]; RChar ","; RChar " "; RChar "'";
       RGroupAny; RChar "'"; RChar ","; RChar " "; RChar "'"; RGroupAny;
       RChar "'"; RChar ")"]
      (custom_error_string message location input_value)
    = Some [message; location; input_value]).
  { unfold custom_error_string.
    change ("('" +:+ message +:+ "', '" +:+ location +:+ "', '" +:+ input_value +:+ "')")
      with (String "(" (String "'" (message +:+ t1))).
    rewrite match_char, match_one_of by reflexivity.
    apply group_then_quote; [exact Hm|reflexivity| |].
    - cbn [count_quotes]. rewrite count_quotes_app, Hcl. unfold t2.
      cbn [count_quotes]. rewrite count_quotes_app, Hcv. vm_compute. lia.
    - rewrite match_one_of by reflexivity.
      rewrite !match_char. exact Hmatch2. }
  rewrite (search_found _ _ _ Hmatch). reflexivity.
Qed.

(** The pattern reads back the three parts of a custom error, whatever
    comes before the opening parenthesis, as long as the parts have no quote
    and no line feed and no parenthesis opens before. *)
Theorem custom_error_round_trip (prefix message location input_value : string) :
  PyStr.contains "(" prefix = false ->
  quote_free message = true ->
  quote_free location = true ->
  quote_free input_value = true ->
  get_error_message_and_location_and_value_from_a_custom_error
    (prefix +:+ custom_error_string message location input_value)
  = Some (message, location, input_value).
Proof.
  intros Hprefix Hmessage Hlocation Hinput.
  apply custom_error_is_read_back; assumption.
Qed.

Lemma custom_error_round_trip_witness :
  get_error_message_and_location_and_value_from_a_custom_error
    ("Value error, " +:+ custom_error_string theme_name_message "theme" "my-theme")
  = Some (theme_name_message, "theme", "my-theme").
Proof.
  exact (custom_error_round_trip "Value error, " theme_name_message "theme" "my-theme"
           eq_refl eq_refl eq_refl eq_refl).
Defined.

(** The diagnostic of a custom error: the location of the error is
    appended to the cleaned location of the failure when it is not empty, and
    the input of the error replaces the input of the failure, also when that
    input is a dictionary or a list. *)
Theorem custom_error_diagnostic (cleaned : list string) (e : error_details)
  (prefix message location input_value : string) :
  msg e = prefix +:+ custom_error_string message location input_value ->
  PyStr.contains "(" prefix = false ->
  quote_free message = true ->
  quote_free location = true ->
  quote_free input_value = true ->
  d_loc (new_error cleaned e) =
    (if String.eqb location "" then PyStr.join "." cleaned
     else PyStr.join "." cleaned +:+ "." +:+ location) /\
  d_input (new_error cleaned e) = input_value.
Proof.
  intros Hmsg Hprefix Hm Hl Hv. unfold new_error.
  rewrite Hmsg, (custom_error_is_read_back prefix message location input_value Hprefix Hm Hl Hv).
  cbn [d_loc d_input str_of_scalar].
  destruct (String.eqb location ""); split; reflexivity.
Qed.

Lemma startswith_nothing (m : string) : PyStr.startswith m "" = true -> m = "".
Proof. destruct m; [reflexivity|discriminate]. Qed.

Lemma last_char_cons (x : ascii) (m : string) :
  m <> "" -> last_char (String x m) = last_char m.
Proof. destruct m; [congruence|reflexivity]. Qed.

Lemma startswith_snoc (m : string) :
  forall (u : string) (c : ascii),
    m <> "" ->
    PyStr.startswith m (u +:+ String c "") = true ->
    PyStr.startswith m u = true \/ last_char m = Some c.
Proof.
  induction m as [|x m IH]; intros u c Hm Hstart; [congruence|].
  destruct u as [|y u].
  - cbn [append PyStr.startswith] in Hstart.
    apply andb_prop in Hstart as [Hx Hrest].
    apply startswith_nothing in Hrest. subst m.
    apply Ascii.eqb_eq in Hx. subst x. right. reflexivity.
  - change (PyStr.startswith (String x m) (String y (u +:+ String c "")) = true) in Hstart.
    cbn [PyStr.startswith] in Hstart |- *.
    apply andb_prop in Hstart as [Hx Hrest]. rewrite Hx. cbn [andb].
    destruct m as [|x' m']; [left; reflexivity|].
    destruct (IH u c ltac:(discriminate) Hrest) as [Hu|Hlast]; [left; exact Hu|].
    right. rewrite last_char_cons by discriminate. exact Hlast.
Qed.

Lemma contains_snoc (m s : string) (c : ascii) :
  m <> "" ->
  PyStr.contains m (s +:+ String c "") = true ->
  PyStr.contains m s = true \/ last_char m = Some c.
Proof.
  intros Hm. induction s as [|a s IH]; intros Hc.
  - change (PyStr.startswith m (String c "") || (PyStr.startswith m "" || false) = true)
      in Hc.
    apply orb_prop in Hc as [Hc|Hc].
    + destruct (startswith_snoc m "" c Hm Hc) as [Hstart|Hlast]; [|right; exact Hlast].
      apply startswith_nothing in Hstart. contradiction.
    + apply orb_prop in Hc as [Hc|Hc]; [|discriminate].
      apply startswith_nothing in Hc. contradiction.
  - change (PyStr.contains m (String a (s +:+ String c "")) = true) in Hc.
    cbn [PyStr.contains] in Hc |- *. apply orb_prop in Hc as [Hc|Hc].
    + destruct (startswith_snoc m (String a s) c Hm Hc) as [Hstart|Hlast];
        [left; rewrite Hstart; reflexivity|right; exact Hlast].
    + destruct (IH Hc) as [Hs|Hlast]; [|right; exact Hlast].
      left. rewrite Hs. apply orb_true_r.
Qed.

(** The message of the error for a theme name carries the marker of a
    section error only inside the name. *)
Lemma marker_not_in_theme_name_message (theme_name : string) :
  PyStr.contains section_error_marker theme_name = false ->
  PyStr.contains section_error_marker
    ("Value error, " +:+ custom_error_string theme_name_message "theme" theme_name)
  = false.
Proof.
  intros Hname.
  assert (Hskip :
    PyStr.contains section_error_marker
      ("Value error, " +:+ custom_error_string theme_name_message "theme" theme_name)
    = PyStr.contains section_error_marker ((theme_name +:+ "'") +:+ ")")).
  { rewrite string_app_assoc. reflexivity. }
  rewrite Hskip.
  destruct (PyStr.contains section_error_marker ((theme_name +:+ "'") +:+ ")")) eqn:Hc;
    [|reflexivity].
  assert (Hmarker : section_error_marker <> "") by discriminate.
  destruct (contains_snoc _ _ _ Hmarker Hc) as [Hc'|Hlast];
    [|vm_compute in Hlast; discriminate Hlast].
  destruct (contains_snoc _ _ _ Hmarker Hc') as [Hc''|Hlast];
    [congruence|vm_compute in Hlast; discriminate Hlast].
Qed.

Lemma printable_is_written_as_it_is (c : ascii) :
  char_isprintable c = true -> is_quote c = false -> Ascii.eqb c "\" = false ->
  repr_char "'" c = String c "".
Proof.
  unfold repr_char, is_quote. intros Hprintable Hquote Hbackslash.
  apply orb_false_elim in Hquote as [Hsingle _].
  rewrite Hsingle, Hbackslash, Hprintable. cbn [orb].
  unfold char_isprintable, PyStr.between in Hprintable.
  destruct (PyStr.code c =? 9)%nat eqn:E9;
    [apply Nat.eqb_eq in E9; rewrite E9 in Hprintable; discriminate|].
  destruct (PyStr.code c =? 10)%nat eqn:E10;
    [apply Nat.eqb_eq in E10; rewrite E10 in Hprintable; discriminate|].
  destruct (PyStr.code c =? 13)%nat eqn:E13;
    [apply Nat.eqb_eq in E13; rewrite E13 in Hprintable; discriminate|].
  reflexivity.
Qed.

Lemma repr_of_a_plain_string (s : string) :
  repr_plain s = true -> py_repr s = "'" +:+ s +:+ "'".
Proof.
  intros Hplain.
  assert (Hbody : repr_body "'" s = s /\ has_char "'" s = false).
  { induction s as [|c s IH]; [split; reflexivity|].
    cbn [repr_plain PyStr.all_chars] in Hplain.
    apply andb_prop in Hplain as [Hc Hs].
    apply andb_prop in Hc as [Hc Hbackslash]. apply andb_prop in Hc as [Hprintable Hquote].
    apply negb_true_iff in Hquote, Hbackslash.
    destruct (IH Hs) as [IHbody IHquote].
    cbn [repr_body has_char].
    rewrite (printable_is_written_as_it_is c Hprintable Hquote Hbackslash).
    rewrite IHbody, IHquote.
    split; [reflexivity|].
    unfold is_quote in Hquote. apply orb_false_elim in Hquote as [Hsingle _].
    rewrite Ascii.eqb_sym, Hsingle. reflexivity. }
  destruct Hbody as [Hbody Hquote]. unfold py_repr. rewrite Hquote.
  cbv zeta. cbn [andb]. rewrite Hbody. reflexivity.
Qed.

Lemma plain_strings_are_quote_free (s : string) :
  repr_plain s = true -> quote_free s = true.
Proof.
  unfold repr_plain, quote_free. induction s as [|c s IH]; [reflexivity|].
  cbn [PyStr.all_chars]. intros Hplain.
  apply andb_prop in Hplain as [Hc Hs]. rewrite (IH Hs), andb_true_r.
  apply andb_prop in Hc as [Hc _]. apply andb_prop in Hc as [Hprintable Hquote].
  rewrite Hquote. cbn [andb]. unfold Re.dot. apply negb_true_iff.
  destruct (Ascii.eqb_spec c "010") as [->|]; [discriminate Hprintable|reflexivity].
Qed.

(** The error of a theme name, from the function that raises it to the
    diagnostic.  [validate_design_options] refuses a custom theme name that
    is not alphanumeric with a [ValueError]; when the validation layer
    writes the string of that error after [Value error, ] into the message
    of a failure at [design], the failure becomes the diagnostic of the
    field [design.theme], with the message of the error and the name as
    input.  This holds for a name that [repr] writes as it is, of printable
    characters without quotes and backslashes, and that does not contain the
    marker of a section error; the context of the failure is any. *)
Theorem invalid_theme_name_diagnostic `{ThemeEnvironment}
  (cwd0 : path) (design : design_arg)
  (available_theme_options : list (string * theme_class))
  (available_entry_type_names : list string) (theme : value) (theme_name : string)
  (raw_input : value) (context : error_ctx) :
  design_theme design = Ok theme ->
  theme_lookup theme available_theme_options = Ok None ->
  str_of_scalar theme = Some theme_name ->
  PyStr.isalnum theme_name = false ->
  repr_plain theme_name = true ->
  PyStr.contains section_error_marker theme_name = false ->
  exists args,
    snd (validate_design_options cwd0 design available_theme_options
           available_entry_type_names) = Raise (ValueError args) /\
    parse_validation_errors
      [ {| details :=
             {| loc := [LStr "design"];
                msg := "Value error, " +:+ str_of_exception_args args;
                input := raw_input |};
           ctx := context |} ]
    = Ok [ {| d_loc := "design.theme"; d_msg := theme_name_message;
              d_input := theme_name |} ].
Proof.
  intros Htheme Hlookup Hname Hnot Hplain Hmarker.
  exists [AStr theme_name_message; AStr "theme"; AStr theme_name]. split.
  { unfold validate_design_options.
    destruct design as [i|v]; [discriminate Htheme|].
    rewrite Htheme, Hlookup, Hname, Hnot. reflexivity. }
  assert (Hstr : str_of_exception_args [AStr theme_name_message; AStr "theme"; AStr theme_name]
                 = custom_error_string theme_name_message "theme" theme_name).
  { unfold str_of_exception_args. cbn [map repr_of_arg].
    rewrite (repr_of_a_plain_string theme_name Hplain).
    change (py_repr theme_name_message) with ("'" +:+ theme_name_message +:+ "'").
    change (py_repr "theme") with "'theme'".
    unfold custom_error_string, PyStr.join. cbn [String.concat].
    rewrite !string_app_assoc. reflexivity. }
  rewrite Hstr.
  set (e := {| loc := [LStr "design"];
               msg := "Value error, "
                      +:+ custom_error_string theme_name_message "theme" theme_name;
               input := raw_input |}).
  assert (Hworking : working_errors [ {| details := e; ctx := context |} ] = Ok [e]).
  { unfold working_errors. cbn [extend_with_causes]. unfold cause_errors.
    cbn [ctx details].
    change (msg e)
      with ("Value error, " +:+ custom_error_string theme_name_message "theme" theme_name).
    rewrite (marker_not_in_theme_name_message theme_name Hmarker). reflexivity. }
  unfold parse_validation_errors. rewrite Hworking. cbn [bind clean_locations].
  change (clean_location (loc e)) with (Ok (A := list string) ["design"]).
  cbn [bind fold_left append_if_new existsb app].
  do 2 f_equal. unfold new_error.
  change (msg e)
    with ("Value error, " +:+ custom_error_string theme_name_message "theme" theme_name).
  rewrite (custom_error_is_read_back "Value error, " theme_name_message "theme" theme_name
             eq_refl eq_refl eq_refl (plain_strings_are_quote_free _ Hplain)).
  reflexivity.
Qed.

Lemma invalid_theme_name_diagnostic_witness :
  exists args,
    snd (@validate_design_options Demo.environment (Demo.root ["data"])
           (DesignValue (VDict [("theme", VStr "my-theme")])) [] [])
    = Raise (ValueError args) /\
    parse_validation_errors
      [ {| details :=
             {| loc := [LStr "design"];
                msg := "Value error, " +:+ str_of_exception_args args;
                input := VDict [("theme", VStr "my-theme")] |};
           ctx := CtxError None |} ]
    = Ok [ {| d_loc := "design.theme"; d_msg := theme_name_message;
              d_input := "my-theme" |} ].
Proof.
  exact (@invalid_theme_name_diagnostic Demo.environment (Demo.root ["data"])
           (DesignValue (VDict [("theme", VStr "my-theme")])) [] []
           (VStr "my-theme") "my-theme" (VDict [("theme", VStr "my-theme")])
           (CtxError None) eq_refl eq_refl eq_refl eq_refl eq_refl eq_refl).
Defined.

Lemma custom_error_diagnostic_witness :
  d_loc (new_error ["design"]
           {| loc := [LStr "design"];
              msg := "Value error, " +:+ custom_error_string "No folder" "" "abc";
              input := VDict [] |}) = "design" /\
  d_input (new_error ["design"]
             {| loc := [LStr "design"];
                msg := "Value error, " +:+ custom_error_string "No folder" "" "abc";
                input := VDict [] |}) = "abc".
Proof.
  exact (custom_error_diagnostic ["design"]
           {| loc := [LStr "design"];
              msg := "Value error, " +:+ custom_error_string "No folder" "" "abc";
              input := VDict [] |}
           "Value error, " "No folder" "" "abc" eq_refl eq_refl eq_refl eq_refl eq_refl).
Defined.

(** ** More on the normalisation of validation errors *)




Lemma unmarked_markers_in (segment : string) :
  unmarked segment = true <-> markers_in segment = [].
Proof.
  unfold unmarked, markers_in. generalize unwanted_locations. intros ms.
  induction ms as [|m ms IH]; [simpl; tauto|].
  cbn [existsb]. rewrite filter_cons.
  destruct (PyStr.contains m segment) eqn:E; simpl.
  - destruct (decide (true = true)); [|contradiction]. split; discriminate.
  - destruct (decide (false = true)); [discriminate|]. exact IH.
Qed.

Lemma remove_if_unwanted_unmarked (unwanted : list string) (segment : string)
  (new_location : list string) :
  existsb (fun m => PyStr.contains m segment) unwanted = false ->
  remove_if_unwanted unwanted segment new_location = Ok new_location.
Proof.
  induction unwanted as [|m unwanted IH]; [reflexivity|]. cbn [existsb remove_if_unwanted].
  intros Hm. apply orb_false_elim in Hm as [-> Hrest]. apply IH, Hrest.
Qed.

Lemma list_remove_head_of_rest (kept rest : list string) (segment : string) :
  ~ In segment kept ->
  list_remove segment (kept ++ segment :: rest) = Some (kept ++ rest).
Proof.
  induction kept as [|x kept IH]; intros Hnot; cbn [app list_remove].
  - rewrite String.eqb_refl. reflexivity.
  - destruct (String.eqb segment x) eqn:E.
    + apply String.eqb_eq in E. subst x. exfalso. apply Hnot. left. reflexivity.
    + rewrite IH; [reflexivity|]. intros Hin. apply Hnot. right. exact Hin.
Qed.

Lemma remove_if_unwanted_marked (unwanted : list string) (segment : string)
  (kept rest : list string) :
  List.length (filter (fun m => PyStr.contains m segment = true) unwanted) = 1 ->
  ~ In segment kept ->
  remove_if_unwanted unwanted segment (kept ++ segment :: rest) = Ok (kept ++ rest).
Proof.
  induction unwanted as [|m unwanted IH]; intros Hone Hnot; [discriminate Hone|].
  cbn [remove_if_unwanted]. rewrite filter_cons in Hone.
  destruct (PyStr.contains m segment) eqn:E.
  - destruct (decide (true = true)); [|contradiction]. simpl in Hone.
    rewrite (list_remove_head_of_rest kept rest segment Hnot).
    apply remove_if_unwanted_unmarked.
    destruct (filter _ unwanted) eqn:Hf; [|simpl in Hone; lia].
    clear -Hf. induction unwanted as [|m0 unwanted IH0]; [reflexivity|].
    cbn [existsb]. rewrite filter_cons in Hf.
    destruct (PyStr.contains m0 segment) eqn:E0.
    + destruct (decide (true = true)); [discriminate Hf|contradiction].
    + destruct (decide (false = true)); [discriminate|]. apply IH0, Hf.
  - destruct (decide (false = true)); [discriminate|]. apply IH; assumption.
Qed.

Lemma clean_segments_filter (rest : list string) :
  forall kept,
    (forall s, In s rest -> List.length (markers_in s) <= 1) ->
    (forall s, In s kept -> unmarked s = true) ->
    clean_segments rest (kept ++ rest) = Ok (kept ++ List.filter unmarked rest).
Proof.
  induction rest as [|s rest IH]; intros kept Hone Hkept; [reflexivity|].
  cbn [clean_segments List.filter].
  destruct (unmarked s) eqn:Hs.
  - rewrite remove_if_unwanted_unmarked
      by (unfold unmarked in Hs; apply negb_true_iff in Hs; exact Hs).
    cbn [bind].
    replace (kept ++ s :: rest) with ((kept ++ [s]) ++ rest)
      by (rewrite <- app_assoc; reflexivity).
    replace (kept ++ s :: List.filter unmarked rest)
      with ((kept ++ [s]) ++ List.filter unmarked rest)
      by (rewrite <- app_assoc; reflexivity).
    apply IH; [intros; apply Hone; right; assumption|].
    intros s0 Hin. apply in_app_or in Hin as [Hin|[<-|[]]]; auto.
  - rewrite remove_if_unwanted_marked.
    + cbn [bind]. apply IH; [intros; apply Hone; right; assumption|exact Hkept].
    + pose proof (Hone s (or_introl eq_refl)) as Hle.
      assert (Hne : markers_in s <> []).
      { intros Hnil. apply unmarked_markers_in in Hnil. congruence. }
      unfold markers_in in *. destruct (filter _ unwanted_locations); [contradiction|].
      simpl in *. lia.
    + intros Hin. apply Hkept in Hin. congruence.
Qed.

(** On a location in which no segment contains two markers, cleaning
    keeps, in order, exactly the segments that contain no marker.  A marker
    is looked for anywhere in a segment, so that a field whose name contains
    one, such as [interests] with [int], leaves the location as well. *)
Theorem clean_location_keeps_unmarked_segments (l : list loc_item) :
  single_markers l ->
  clean_location l = Ok (List.filter unmarked (map str_of_loc_item l)).
Proof.
  intros Hone. unfold clean_location.
  apply (clean_segments_filter (map str_of_loc_item l) []); [|contradiction].
  intros s Hin. apply in_map_iff in Hin as (item & <- & Hitem). apply Hone, Hitem.
Qed.

Lemma clean_location_keeps_unmarked_segments_witness :
  clean_location [LStr "cv"; LStr "sections"; LStr "interests"; LInt 0; LStr "name"]
  = Ok ["cv"; "sections"; "0"; "name"].
Proof.
  exact (clean_location_keeps_unmarked_segments
           [LStr "cv"; LStr "sections"; LStr "interests"; LInt 0; LStr "name"]
           ltac:(intros item Hitem; simpl in Hitem;
                 repeat (destruct Hitem as [<-|Hitem]; [vm_compute; lia|]);
                 contradiction)).
Defined.

(** ** More on path overrides *)

Lemma split_without_separator (sep : ascii) (s : string) :
  PyStr.contains (String sep "") s = false -> PyStr.split sep s = [s].
Proof.
  induction s as [|c s IH]; [reflexivity|].
  cbn [PyStr.contains PyStr.startswith PyStr.split]. intros Hc.
  apply orb_false_elim in Hc as [Hhead Htail]. rewrite andb_true_r in Hhead.
  rewrite Ascii.eqb_sym, Hhead, (IH Htail). reflexivity.
Qed.

Lemma split_segment_then_rest (sep : ascii) (s rest : string) :
  PyStr.contains (String sep "") s = false ->
  PyStr.split sep (s +:+ String sep rest) = s :: PyStr.split sep rest.
Proof.
  induction s as [|c s IH].
  - intros _. change ("" +:+ String sep rest) with (String sep rest).
    cbn [PyStr.split]. rewrite Ascii.eqb_refl. reflexivity.
  - cbn [PyStr.contains PyStr.startswith]. intros Hc.
    apply orb_false_elim in Hc as [Hhead Htail]. rewrite andb_true_r in Hhead.
    change (String c s +:+ String sep rest) with (String c (s +:+ String sep rest)).
    cbn [PyStr.split]. rewrite Ascii.eqb_sym, Hhead, (IH Htail). reflexivity.
Qed.

Lemma split_segments_without_separator (sep : ascii) (s : string) :
  forall segment, In segment (PyStr.split sep s) ->
                  PyStr.contains (String sep "") segment = false.
Proof.
  induction s as [|c s IH]; intros segment Hin.
  - destruct Hin as [<-|[]]. reflexivity.
  - cbn [PyStr.split] in Hin. destruct (Ascii.eqb c sep) eqn:E.
    + destruct Hin as [<-|Hin]; [reflexivity|apply IH, Hin].
    + pose proof (split_not_empty sep s) as Hne.
      destruct (PyStr.split sep s) as [|h t]; [contradiction|].
      destruct Hin as [<-|Hin]; [|apply IH; right; exact Hin].
      cbn [PyStr.contains PyStr.startswith]. rewrite Ascii.eqb_sym, E. cbn [andb orb].
      apply IH. left. reflexivity.
Qed.

(** The function splits its key at the dots, joins all segments but the
    first with dots and splits the result again in the next call.  The
    second split gives back the segments that were joined: the segments of a
    split contain no dot, and segments without dots survive a join followed
    by a split. *)
Theorem split_of_join_is_identity (key : string) (segments : list string) :
  (forall segment, In segment (PyStr.split "." key) ->
                   PyStr.contains "." segment = false) /\
  (segments <> [] ->
   (forall segment, In segment segments -> PyStr.contains "." segment = false) ->
   PyStr.split "." (PyStr.join "." segments) = segments).
Proof.
  split; [apply split_segments_without_separator|].
  unfold PyStr.join. induction segments as [|s segments IH]; intros Hne Hdots;
    [contradiction|].
  destruct segments as [|s' segments].
  - apply split_without_separator, Hdots. left. reflexivity.
  - change (String.concat "." (s :: s' :: segments))
      with (s +:+ String "." (String.concat "." (s' :: segments))).
    rewrite split_segment_then_rest by (apply Hdots; left; reflexivity).
    f_equal. apply IH; [discriminate|]. intros; apply Hdots; right; assumption.
Qed.

Lemma split_of_join_is_identity_witness :
  PyStr.split "." (PyStr.join "." ["sections"; "education"; "0"])
  = ["sections"; "education"; "0"].
Proof.
  exact (proj2 (split_of_join_is_identity "" ["sections"; "education"; "0"])
           ltac:(discriminate)
           ltac:(intros s Hs; simpl in Hs;
                 repeat (destruct Hs as [<-|Hs]; [reflexivity|]); contradiction)).
Defined.

Section TreeLookup.
Context `{TreeEvaluator}.

(** After a successful override, reading the result along the segments of
    the path gives the value that was assigned: the value that the string
    stands for where the last segment is set. *)
Theorem override_then_lookup (rest : list string) :
  forall (dictionary sub_dictionary : value) (first_key raw_value : string) (t : value),
    Tree.set_or_update_segments dictionary first_key rest raw_value sub_dictionary
    = Done t ->
    (exists new_value last_key container,
       Tree.decode_value raw_value dictionary last_key container = Ok new_value /\
       lookup_path t (first_key :: rest) = Some new_value) /\
    (forall new_value,
       (forall key container,
          Tree.decode_value raw_value dictionary key container = Ok new_value) ->
       lookup_path t (first_key :: rest) = Some new_value).
Proof.
  assert (Hassigned :
    forall rest dictionary sub_dictionary first_key raw_value t,
      Tree.set_or_update_segments dictionary first_key rest raw_value sub_dictionary
      = Done t ->
      exists new_value last_key container,
        Tree.decode_value raw_value dictionary last_key container = Ok new_value /\
        lookup_path t (first_key :: rest) = Some new_value).
  { clear rest. induction rest as [|next rest IH];
      intros dictionary sub first_key raw t Hdone.
    - pose proof (segments_one_slot [] _ _ _ _ _ Hdone) as Hslot.
      destruct (last_segment_done _ _ _ _ _ Hdone) as (key & nv & Hdecode & Hkey & Hset).
      exists nv, first_key, sub. split; [exact Hdecode|].
      cbn [lookup_path].
      rewrite (convert_key_one_slot _ t first_key Hslot), Hkey.
      rewrite (getitem_after_setitem _ first_key key nv t Hkey Hset). reflexivity.
    - pose proof (segments_one_slot (next :: rest) _ _ _ _ _ Hdone) as Hslot.
      destruct (inner_segment_done _ _ _ _ _ _ _ Hdone)
        as (key & s & s1 & Hkey & Hsub & Hs & Hs1 & Hset).
      destruct (IH dictionary s next raw s1 Hs1) as (nv & k & c & Hdecode & Hlookup).
      exists nv, k, c. split; [exact Hdecode|].
      change (lookup_path t (first_key :: next :: rest))
        with (match Tree.convert_key t first_key with
              | Ok key =>
                  match Tree.getitem t key with
                  | Ok sub => lookup_path sub (next :: rest)
                  | Raise _ => None
                  end
              | Raise _ => None
              end).
      rewrite (convert_key_one_slot _ t first_key Hslot), Hkey.
      rewrite (getitem_after_setitem _ first_key key s1 t Hkey Hset). exact Hlookup. }
  intros dictionary sub first_key raw t Hdone.
  destruct (Hassigned rest dictionary sub first_key raw t Hdone)
    as (nv & k & c & Hdecode & Hlookup).
  split; [exists nv, k, c; auto|].
  intros new_value Hvalue. rewrite (Hvalue k c) in Hdecode. congruence.
Qed.

(** On a dictionary, a path whose first segment is not a key creates the
    missing levels as dictionaries, each with the next segment as its only
    key, also when that segment is a number. *)
Theorem missing_levels_become_dictionaries (rest : list string) :
  forall (dictionary sub_dictionary : value) (d : list (string * value))
         (first_key raw_value : string) (new_value : value),
    updated_dict_of dictionary sub_dictionary = VDict d ->
    (forall key container,
       Tree.decode_value raw_value dictionary key container = Ok new_value) ->
    dict_has first_key d = false ->
    Tree.set_or_update_segments dictionary first_key rest raw_value sub_dictionary
    = Done (VDict (dict_set first_key (chain_of_dictionaries rest new_value) d)).
Proof.
  induction rest as [|next rest IH];
    intros dictionary sub d first_key raw nv Hupdated Hdecode Hmissing.
  - cbn [Tree.set_or_update_segments]. fold (updated_dict_of dictionary sub).
    rewrite Hupdated, Hdecode. reflexivity.
  - cbn [Tree.set_or_update_segments]. fold (updated_dict_of dictionary sub).
    rewrite Hupdated. cbn [Tree.convert_key Tree.is_list].
    unfold Tree.read_sub_dictionary. cbn [Tree.contains bind]. rewrite Hmissing.
    rewrite (IH dictionary (VDict []) [] next raw nv eq_refl Hdecode eq_refl). reflexivity.
Qed.
End TreeLookup.

Lemma override_then_lookup_witness :
  lookup_path
    (VDict [("cv", VDict [("name", VStr "A"); ("phone", VDict [("home", VStr "1")])]);
            ("pages", VList [VInt 1; VInt 2])])
    ["cv"; "phone"; "home"] = Some (VStr "1").
Proof.
  exact (proj2 (@override_then_lookup Demo.tree_evaluator ["phone"; "home"] small_tree
                  VNone "cv" "1" _ eq_refl)
           (VStr "1") (fun _ _ => eq_refl)).
Defined.

Lemma missing_levels_become_dictionaries_witness :
  @Tree.set_or_update_a_value Demo.tree_evaluator (VDict []) "sections.0.name" "A"
  = Done (VDict [("sections", VDict [("0", VDict [("name", VStr "A")])])]).
Proof.
  exact (@missing_levels_become_dictionaries Demo.tree_evaluator ["0"; "name"]
           (VDict []) VNone [] "sections" "A" (VStr "A") eq_refl
           (fun _ _ => eq_refl) eq_refl).
Defined.

(** ** More on path overrides in the store *)

Section OverrideMore.
Context `{Evaluator}.

Lemma decode_plain_value (value : string) (dictionary : hval) (key : string)
  (sub_dictionary : hval) (h : heap) :
  PyStr.startswith "{" value = false ->
  PyStr.startswith "[" value = false ->
  decode_value value dictionary key sub_dictionary h = (h, Ok (HStr value)).
Proof. intros Hbrace Hbracket. unfold decode_value. rewrite Hbrace, Hbracket. reflexivity. Qed.

(** A [None] on the way down.  When the first segment of a path of two
    segments names a key of the root dictionary whose value is [None], the
    function continues in the root dictionary itself: the second segment
    becomes a key of the root, and the first key then holds the root
    dictionary, which so contains itself. *)
Theorem none_on_the_path_ties_the_root (h : heap) (l : nat)
  (d : list (string * hval)) (k x value : string) :
  h !! l = Some (ODict d) ->
  dict_get k d = Some HNone ->
  PyStr.startswith "{" value = false ->
  PyStr.startswith "[" value = false ->
  set_or_update_segments (HRef l) k [x] value HNone h
  = (<[l := ODict (dict_set k (HRef l) (dict_set x (HStr value) d))]> h, Ok (HRef l)).
Proof.
  intros Hl Hk Hbrace Hbracket.
  assert (Hlt : l < List.length h) by (eapply lookup_lt_Some, Hl).
  cbn [set_or_update_segments]. unfold bindH at 1.
  unfold convert_key at 1, bindH at 1, is_list at 1. rewrite Hl. cbn [retH].
  unfold bindH at 1, bindH at 1, containsH. rewrite Hl. unfold dict_has. rewrite Hk.
  unfold getitemH. rewrite Hl, Hk.
  unfold bindH at 1, bindH at 1. rewrite (decode_plain_value value _ _ _ h Hbrace Hbracket).
  unfold bindH at 1, convert_key, bindH at 1, is_list. rewrite Hl. cbn [retH].
  unfold bindH at 1, setitemH at 1. rewrite Hl. cbn [retH].
  unfold bindH, setitemH. rewrite list_lookup_insert_eq by exact Hlt.
  rewrite list_insert_insert_eq. reflexivity.
Qed.
End OverrideMore.

Lemma none_on_the_path_ties_the_root_witness :
  @set_or_update_segments Demo.evaluator (HRef 0) "cv" ["name"] "A" HNone
    [ODict [("cv", HNone)]]
  = ([ODict [("cv", HRef 0); ("name", HStr "A")]], Ok (HRef 0)).
Proof.
  exact (@none_on_the_path_ties_the_root Demo.evaluator [ODict [("cv", HNone)]] 0
           [("cv", HNone)] "cv" "name" "A" eq_refl eq_refl eq_refl eq_refl).
Defined.

Section Batch.
Context `{Evaluator}.

Lemma set_or_update_values_app (kvs1 kvs2 : list (string * string)) :
  forall (d : hval) (h : heap),
    set_or_update_values d (kvs1 ++ kvs2) h =
    match set_or_update_values d kvs1 h with
    | (h1, Ok d1) => set_or_update_values d1 kvs2 h1
    | (h1, Raise e) => (h1, Raise e)
    end.
Proof.
  induction kvs1 as [|[key value] kvs1 IH]; intros d h; [reflexivity|].
  cbn [app set_or_update_values]. unfold bindH.
  destruct (set_or_update_a_value d key value HNone h) as [h1 [d1|e]]; [apply IH|reflexivity].
Qed.

(** A batch of instructions is applied one instruction after the other and
    stops at the first that fails: the instructions before it stay applied,
    the batch ends with the store and the exception of the failing
    instruction, and the instructions after it are not looked at.  When the
    value of the failing instruction is not evaluated, or is evaluated without
    changing an object that exists, the failing instruction has changed no
    object: the store is the one that the instructions before it left,
    followed by new objects. *)
Theorem failed_batch_keeps_earlier_instructions
  (d d1 : hval) (h h1 : heap) (applied later : list (string * string))
  (key value : string) (e : exn) :
  set_or_update_values d applied h = (h1, Ok d1) ->
  snd (set_or_update_a_value d1 key value HNone h1) = Raise e ->
  set_or_update_values d (applied ++ (key, value) :: later) h
  = (fst (set_or_update_a_value d1 key value HNone h1), Raise e) /\
  (evaluation_only_allocates value ->
   exists fresh,
     set_or_update_values d (applied ++ (key, value) :: later) h
     = (h1 ++ fresh, Raise e)).
Proof.
  intros Happlied Hfail.
  assert (Hrun : set_or_update_values d (applied ++ (key, value) :: later) h
                 = (fst (set_or_update_a_value d1 key value HNone h1), Raise e)).
  { rewrite set_or_update_values_app, Happlied.
    cbn [set_or_update_values]. unfold bindH.
    destruct (set_or_update_a_value d1 key value HNone h1) as [h2 [d2|e2]];
      simpl in Hfail; [discriminate Hfail|].
    cbn [fst]. congruence. }
  split; [exact Hrun|].
  intros Heval.
  assert (Hprefix : h1 `prefix_of` fst (set_or_update_a_value d1 key value HNone h1)).
  { unfold set_or_update_a_value in *.
    destruct (PyStr.split "." key) as [|first_key rest]; [discriminate Hfail|].
    eapply failed_segments_keep_store; eassumption. }
  destruct Hprefix as [fresh Hfresh].
  exists fresh. rewrite Hrun, Hfresh. reflexivity.
Qed.
End Batch.

Lemma failed_batch_keeps_earlier_instructions_witness :
  @set_or_update_values clearing_evaluator (HRef 0)
    [("b", "1"); ("a.5", "x"); ("c", "2")] small_store
  = ([ODict [("a", HRef 1); ("b", HStr "1")]; OList [HInt 1]], Raise IndexError) /\
  exists fresh,
    @set_or_update_values clearing_evaluator (HRef 0)
      [("b", "1"); ("a.5", "x"); ("c", "2")] small_store
    = ([ODict [("a", HRef 1); ("b", HStr "1")]; OList [HInt 1]] ++ fresh, Raise IndexError).
Proof.
  destruct (@failed_batch_keeps_earlier_instructions clearing_evaluator (HRef 0) (HRef 0)
              small_store [ODict [("a", HRef 1); ("b", HStr "1")]; OList [HInt 1]]
              [("b", "1")] [("c", "2")] "a.5" "x" IndexError eq_refl eq_refl)
    as [Hrun Hfresh].
  split; [exact Hrun|].
  exact (Hfresh (@plain_value_only_allocates clearing_evaluator "x" eq_refl)).
Defined.

(** ** The settings of the render command *)

Lemma update_arguments_on_dictionary
  (defaults : list (string * cli_value)) (arguments : list (string * cli_value)) :
  forall field : list (string * value),
    (forall key given, In (key, given) arguments -> dict_has key defaults = true) ->
    List.NoDup (map fst arguments) ->
    exists field',
      fold_result (update_one_argument defaults) arguments (VDict field) = Ok (VDict field') /\
      (forall key given default,
         In (key, given) arguments -> dict_get key defaults = Some default ->
         dict_get key field' = Some (merged_argument default (dict_get key field) given)) /\
      (forall key, ~ In key (map fst arguments) -> dict_get key field' = dict_get key field).
Proof.
  induction arguments as [|[key given] arguments IH]; intros field Hdefaults Hnodup.
  - exists field. split; [reflexivity|]. split; [intros ? ? ? []|reflexivity].
  - cbn [fold_result update_one_argument].
    pose proof (Hdefaults key given (or_introl eq_refl)) as Hkey.
    unfold dict_has in Hkey.
    destruct (dict_get key defaults) as [default|] eqn:Hdefault; [|discriminate Hkey].
    inversion Hnodup as [|? ? Hnotin Hnodup']; subst.
    set (field1 := if negb (cli_value_eqb given default)
                   then dict_set key (value_of_cli given) field
                   else if negb (dict_has key field)
                        then dict_set key (value_of_cli given) field
                        else field).
    assert (Hstep :
      (if negb (cli_value_eqb given default)
       then Tree.setitem (VDict field) (KStr key) (value_of_cli given)
       else let* present := py_in key (VDict field) in
            if negb present
            then Tree.setitem (VDict field) (KStr key) (value_of_cli given)
            else Ok (VDict field)) = Ok (VDict field1)).
    { unfold field1. destruct (negb (cli_value_eqb given default)); [reflexivity|].
      cbn [py_in bind]. destruct (negb (dict_has key field)); reflexivity. }
    rewrite Hstep. cbn [bind].
    assert (Hfield1 : dict_get key field1
                      = Some (merged_argument default (dict_get key field) given)).
    { unfold field1, merged_argument, dict_has.
      destruct (negb (cli_value_eqb given default)); [apply dict_get_set_eq|].
      destruct (dict_get key field) eqn:Hin; cbn [negb]; [exact Hin|apply dict_get_set_eq]. }
    assert (Hother : forall k, k <> key -> dict_get k field1 = dict_get k field).
    { intros k Hk. unfold field1.
      destruct (negb (cli_value_eqb given default)); [apply dict_get_set_ne, Hk|].
      destruct (negb (dict_has key field)); [apply dict_get_set_ne, Hk|reflexivity]. }
    destruct (IH field1) as (field' & Hfold & Hgiven & Hrest);
      [intros; eapply Hdefaults; right; eassumption|exact Hnodup'|].
    exists field'. split; [exact Hfold|]. split.
    + intros k g dflt [Heq|Hin] Hd.
      * injection Heq as <- <-. rewrite Hrest by exact Hnotin.
        rewrite Hfield1. congruence.
      * rewrite (Hgiven k g dflt Hin Hd). rewrite Hother; [reflexivity|].
        intros ->. apply Hnotin. apply in_map_iff. exists (key, g). auto.
    + intros k Hk. rewrite Hrest by (intros Hin; apply Hk; right; exact Hin).
      apply Hother. intros ->. apply Hk. left. reflexivity.
Qed.

Lemma ensure_dictionary_at (key : string) (d sub : list (string * value)) :
  dictionary_at key d = Some sub ->
  exists d', ensure_dictionary (VDict d) key = Ok (VDict d') /\
             dict_get key d' = Some (VDict sub) /\
             forall k, k <> key -> dict_get k d' = dict_get k d.
Proof.
  unfold dictionary_at, ensure_dictionary. cbn [py_in bind]. unfold dict_has.
  destruct (dict_get key d) as [v|] eqn:Hkey.
  - destruct v; try discriminate. intros [= <-]. exists d. auto.
  - intros [= <-]. exists (dict_set key (VDict []) d). split; [reflexivity|].
    split; [apply dict_get_set_eq|]. intros k Hk. apply dict_get_set_ne, Hk.
Qed.

(** The settings of the render command after the command line is merged
    into an input that is a dictionary, whose [rendercv_settings] and
    [render_command] are dictionaries or missing.  Every argument of the
    command line is then a key of [rendercv_settings.render_command]: with
    the value of the command line when that value is not the default or the
    file does not have the key, with the value of the file otherwise.
    Nothing else changes in the input. *)
Theorem command_line_is_merged_into_the_settings
  (defaults arguments : list (string * cli_value))
  (input settings field : list (string * value)) :
  dictionary_at "rendercv_settings" input = Some settings ->
  dictionary_at "render_command" settings = Some field ->
  (forall key given, In (key, given) arguments -> dict_has key defaults = true) ->
  List.NoDup (map fst arguments) ->
  exists input' settings' field',
    update_render_command_settings_of_the_input_file defaults (VDict input) arguments
    = Ok (VDict input') /\
    dict_get "rendercv_settings" input' = Some (VDict settings') /\
    dict_get "render_command" settings' = Some (VDict field') /\
    (forall key given default,
       In (key, given) arguments -> dict_get key defaults = Some default ->
       dict_get key field' = Some (merged_argument default (dict_get key field) given)) /\
    (forall key, ~ In key (map fst arguments) -> dict_get key field' = dict_get key field) /\
    (forall key, key <> "render_command" -> dict_get key settings' = dict_get key settings) /\
    (forall key, key <> "rendercv_settings" -> dict_get key input' = dict_get key input).
Proof.
  intros Hsettings Hfield Hdefaults Hnodup.
  destruct (ensure_dictionary_at _ _ _ Hsettings) as (input1 & Hinput1 & Hget1 & Hother1).
  assert (Hfield1 : exists settings1,
             ensure_dictionary (VDict settings) "render_command" = Ok (VDict settings1) /\
             dict_get "render_command" settings1 = Some (VDict field) /\
             forall k, k <> "render_command" -> dict_get k settings1 = dict_get k settings)
    by (apply ensure_dictionary_at, Hfield).
  destruct Hfield1 as (settings1 & Hsettings1 & Hget2 & Hother2).
  destruct (update_arguments_on_dictionary defaults arguments field Hdefaults Hnodup)
    as (field' & Hfold & Hgiven & Hrest).
  exists (dict_set "rendercv_settings"
            (VDict (dict_set "render_command" (VDict field') settings1)) input1),
    (dict_set "render_command" (VDict field') settings1), field'.
  split.
  { unfold update_render_command_settings_of_the_input_file.
    rewrite Hinput1. cbn [bind Tree.getitem]. rewrite Hget1. cbn [bind].
    rewrite Hsettings1. cbn [bind Tree.getitem]. rewrite Hget2. cbn [bind].
    rewrite Hfold. reflexivity. }
  split; [apply dict_get_set_eq|]. split; [apply dict_get_set_eq|].
  split; [exact Hgiven|]. split; [exact Hrest|]. split.
  - intros key Hkey. rewrite dict_get_set_ne by exact Hkey. apply Hother2, Hkey.
  - intros key Hkey. rewrite dict_get_set_ne by exact Hkey. apply Hother1, Hkey.
Qed.

Lemma command_line_is_merged_into_the_settings_witness :
  update_render_command_settings_of_the_input_file
    [("dont_generate_png", CBool false); ("pdf_path", CNone)]
    (VDict [("cv", VDict []);
            ("rendercv_settings",
             VDict [("render_command", VDict [("pdf_path", VStr "a.pdf")])])])
    [("dont_generate_png", CBool true); ("pdf_path", CNone)]
  = Ok (VDict [("cv", VDict []);
               ("rendercv_settings",
                VDict [("render_command",
                        VDict [("pdf_path", VStr "a.pdf");
                               ("dont_generate_png", VBool true)])])]) /\
  exists input' settings' field',
    update_render_command_settings_of_the_input_file
      [("dont_generate_png", CBool false); ("pdf_path", CNone)]
      (VDict [("cv", VDict []);
              ("rendercv_settings",
               VDict [("render_command", VDict [("pdf_path", VStr "a.pdf")])])])
      [("dont_generate_png", CBool true); ("pdf_path", CNone)]
    = Ok (VDict input') /\
    dict_get "rendercv_settings" input' = Some (VDict settings') /\
    dict_get "render_command" settings' = Some (VDict field') /\
    dict_get "pdf_path" field' = Some (VStr "a.pdf") /\
    dict_get "dont_generate_png" field' = Some (VBool true).
Proof.
  split; [reflexivity|].
  destruct (command_line_is_merged_into_the_settings
              [("dont_generate_png", CBool false); ("pdf_path", CNone)]
              [("dont_generate_png", CBool true); ("pdf_path", CNone)]
              [("cv", VDict []);
               ("rendercv_settings",
                VDict [("render_command", VDict [("pdf_path", VStr "a.pdf")])])]
              [("render_command", VDict [("pdf_path", VStr "a.pdf")])]
              [("pdf_path", VStr "a.pdf")]
              eq_refl eq_refl
              ltac:(intros key given Hin; simpl in Hin;
                    repeat (destruct Hin as [Heq|Hin];
                            [injection Heq as <- <-; reflexivity|]);
                    contradiction)
              ltac:(repeat constructor; simpl; intuition discriminate))
    as (input' & settings' & field' & Hrun & Hs & Hf & Hgiven & _).
  exists input', settings', field'.
  split; [exact Hrun|]. split; [exact Hs|]. split; [exact Hf|]. split.
  - exact (Hgiven "pdf_path" CNone CNone ltac:(simpl; auto) eq_refl).
  - exact (Hgiven "dont_generate_png" (CBool true) (CBool false) ltac:(simpl; auto) eq_refl).
Defined.

(** ** More on keywords in bold *)

Section BoldFacts.
Context `{RegexLibrary}.

Lemma make_bold_unfold (fuel : nat) (keywords : list string)
  (dictionary : list (string * value)) :
  make_bold (S fuel) keywords dictionary =
  let* entries :=
    fold_result (fun entries keyword =>
                   map_result (on_entry_with (make_bold fuel keywords) keyword) entries)
      keywords (map (fun '(k, v) => (k, v, v)) dictionary) in
  Ok (map (fun '(k, _, n) => (k, n)) entries,
      map (fun '(k, v, _) => (k, v)) entries).
Proof. reflexivity. Qed.

Lemma map_result_Forall2 {A B : Type} (f : A -> result B) (l : list A) (l' : list B) :
  map_result f l = Ok l' -> Forall2 (fun a b => f a = Ok b) l l'.
Proof.
  revert l'. induction l as [|a l IH]; intros l' Hl; cbn [map_result] in Hl.
  - injection Hl as <-. constructor.
  - destruct (f a) as [b|] eqn:Hb; [|discriminate]. cbn [bind] in Hl.
    destruct (map_result f l) as [bs|]; [|discriminate]. cbn [bind] in Hl.
    injection Hl as <-. constructor; [exact Hb|]. apply IH. reflexivity.
Qed.

Lemma on_entry_kept (recur : list (string * value) ->
                             result (list (string * value) * list (string * value)))
  (keyword : string) (before after : string * value * value) :
  on_entry_with recur keyword before = Ok after -> entry_kept before after.
Proof.
  destruct before as [[key v] n]. unfold on_entry_with, entry_kept.
  destruct v; cbn [fst snd is_plain_scalar]; intros Hafter;
    try (injection Hafter as <-; split; [reflexivity|auto]).
  - destruct (re_sub _ _ s); [|discriminate]. injection Hafter as <-.
    split; [reflexivity|discriminate].
  - destruct (map_result _ items); [|discriminate]. injection Hafter as <-.
    split; [reflexivity|discriminate].
  - destruct (recur entries); [|discriminate]. injection Hafter as <-.
    split; [reflexivity|discriminate].
Qed.

Lemma entries_kept (recur : list (string * value) ->
                            result (list (string * value) * list (string * value)))
  (keywords : list string) :
  forall before after : list (string * value * value),
    fold_result (fun entries keyword => map_result (on_entry_with recur keyword) entries)
      keywords before = Ok after ->
    Forall2 entry_kept before after.
Proof.
  induction keywords as [|keyword keywords IH]; intros before after Hfold;
    cbn [fold_result] in Hfold.
  - injection Hfold as <-. apply Forall2_same_length_lookup_2; [reflexivity|].
    intros i x y Hx Hy. rewrite Hx in Hy. injection Hy as <-. split; auto.
  - destruct (map_result (on_entry_with recur keyword) before) as [middle|] eqn:Hmap;
      [|discriminate]. cbn [bind] in Hfold.
    apply map_result_Forall2 in Hmap. specialize (IH middle after Hfold).
    clear Hfold. revert after IH. induction Hmap as [|b m before middle Hbm Hmap IHmap];
      intros after IH; inversion IH; subst; constructor.
    + apply on_entry_kept in Hbm. destruct Hbm as [Hk Hs].
      match goal with Hma : entry_kept m _ |- _ => destruct Hma as [Hk' Hs'] end.
      split; [congruence|].
      intros Hscalar. specialize (Hs Hscalar). subst m. apply Hs', Hscalar.
    + apply IHmap. assumption.
Qed.

(** The function keeps the keys of the dictionary, in their order, and the
    values that are neither text nor containers; without keywords it
    returns the dictionary as it is. *)
Theorem bold_keywords_keep_keys_and_plain_values
  (dictionary : list (string * value)) (keywords : list string)
  (new_dictionary : list (string * value)) :
  make_given_keywords_bold_in_a_dictionary dictionary keywords = Ok new_dictionary ->
  map fst new_dictionary = map fst dictionary /\
  (forall i key v, dictionary !! i = Some (key, v) -> is_plain_scalar v = true ->
                   new_dictionary !! i = Some (key, v)) /\
  (keywords = [] -> new_dictionary = dictionary).
Proof.
  unfold make_given_keywords_bold_in_a_dictionary. cbn [value_depth].
  rewrite make_bold_unfold. intros Hrun.
  destruct (fold_result _ keywords _) as [entries|] eqn:Hfold; [|discriminate].
  cbn [bind fst] in Hrun. injection Hrun as <-.
  pose proof (entries_kept _ keywords _ _ Hfold) as Hkept.
  split; [|split].
  - clear Hfold. revert entries Hkept.
    induction dictionary as [|[k v] dictionary IH]; intros entries Hkept;
      inversion Hkept as [|? [[k' v'] n'] ? ? [Hk _] Hrest]; subst; [reflexivity|].
    cbn [map fst]. cbn [fst] in Hk. subst k'. f_equal. apply IH, Hrest.
  - intros i key v Hi Hscalar.
    assert (Hentry : entries !! i = Some (key, v, v)).
    { destruct (Forall2_lookup_l _ _ _ i (key, v, v) Hkept) as (after & Hafter & _ & Hsame).
      - rewrite list_lookup_fmap, Hi. reflexivity.
      - rewrite Hafter. f_equal. apply Hsame. exact Hscalar. }
    rewrite list_lookup_fmap, Hentry. reflexivity.
  - intros ->. cbn [fold_result] in Hfold. injection Hfold as <-.
    clear. induction dictionary as [|[k v] dictionary IH]; [reflexivity|].
    cbn [map]. f_equal. exact IH.
Qed.
End BoldFacts.

Lemma bold_keywords_keep_keys_and_plain_values_witness :
  map fst [("name", VStr "Go"); ("year", VInt 2020)] = ["name"; "year"] /\
  [("name", VStr "Go"); ("year", VInt 2020)] !! 1%nat = Some ("year", VInt 2020).
Proof.
  destruct (@bold_keywords_keep_keys_and_plain_values Demo.regex
              [("name", VStr "Go"); ("year", VInt 2020)] ["Go"]
              [("name", VStr "Go"); ("year", VInt 2020)] eq_refl) as (Hkeys & Hplain & _).
  split; [exact Hkeys|]. exact (Hplain 1%nat "year" (VInt 2020) eq_refl eq_refl).
Defined.

Lemma map_result_invariant {A B : Type} (f : A -> result B)
  (P : A -> Prop) (P' : B -> Prop) (E : exn -> Prop) (l : list A) :
  (forall a, In a l -> P a ->
     (forall b, f a = Ok b -> P' b) /\ (forall e, f a = Raise e -> E e)) ->
  Forall P l ->
  (forall l', map_result f l = Ok l' -> Forall P' l') /\
  (forall e, map_result f l = Raise e -> E e).
Proof.
  induction l as [|a l IH]; intros Hf HP; cbn [map_result].
  - split; [intros l' Heq; injection Heq as <-; constructor|discriminate].
  - inversion HP as [|? ? Ha Hl]; subst.
    destruct (Hf a (or_introl eq_refl) Ha) as [Hok Hraise].
    destruct IH as [IHok IHraise]; [intros; apply Hf; [right|]; assumption|exact Hl|].
    destruct (f a) as [b|e0]; cbn [bind]; [|split; [discriminate|intros e Heq; injection Heq as <-; auto]].
    destruct (map_result f l) as [bs|e0]; cbn [bind].
    + split; [|discriminate]. intros l' Heq; injection Heq as <-. constructor; auto.
    + split; [discriminate|]. intros e Heq; injection Heq as <-. auto.
Qed.

Lemma fold_result_invariant {A S : Type} (f : S -> A -> result S)
  (I : S -> Prop) (E : exn -> Prop) (l : list A) :
  (forall s a, In a l -> I s ->
     (forall s', f s a = Ok s' -> I s') /\ (forall e, f s a = Raise e -> E e)) ->
  forall s, I s ->
    (forall s', fold_result f l s = Ok s' -> I s') /\
    (forall e, fold_result f l s = Raise e -> E e).
Proof.
  induction l as [|a l IH]; intros Hf s Hs; cbn [fold_result].
  - split; [intros s' Heq; injection Heq as <-; exact Hs|discriminate].
  - destruct (Hf s a (or_introl eq_refl) Hs) as [Hok Hraise].
    destruct (f s a) as [s1|e0]; cbn [bind]; [|split; [discriminate|intros e Heq; injection Heq as <-; auto]].
    apply IH; [intros; apply Hf; [right|]; assumption|auto].
Qed.

Lemma fold_max_le {A : Type} (g : A -> nat) (l : list A) (m : nat) :
  fold_right (fun x acc => Nat.max (g x) acc) 0 l <= m <-> Forall (fun x => g x <= m) l.
Proof.
  induction l as [|a l IH]; cbn [fold_right].
  - split; [constructor|lia].
  - split.
    + intros Hmax. constructor; [lia|apply IH; lia].
    + intros Hall. inversion Hall as [|? ? Ha Hl]; subst. apply IH in Hl. lia.
Qed.

Lemma depth_dict_le (d : list (string * value)) (m : nat) :
  value_depth (VDict d) <= S m <-> Forall (fun kv => value_depth (snd kv) <= m) d.
Proof.
  cbn [value_depth]. rewrite <- (fold_max_le (fun kv => value_depth (snd kv))). lia.
Qed.

Lemma depth_list_le (l : list value) (m : nat) :
  value_depth (VList l) <= S m <-> Forall (fun v => value_depth v <= m) l.
Proof. cbn [value_depth]. rewrite <- (fold_max_le value_depth). lia. Qed.

Lemma depth_dict_positive (d : list (string * value)) : 1 <= value_depth (VDict d).
Proof. cbn [value_depth]. lia. Qed.

Lemma depth_list_positive (l : list value) : 1 <= value_depth (VList l).
Proof. cbn [value_depth]. lia. Qed.

Section BoldFuel.
Context `{RegexLibrary}.
Variable keywords : list string.

Lemma on_item_within (fuel m : nat) (keyword : string) (item : value) :
  bold_within keywords fuel -> m <= fuel -> value_depth item <= m ->
  (forall item', on_item_with (make_bold fuel keywords) keyword item = Ok item' ->
     value_depth item' <= m) /\
  (forall e, on_item_with (make_bold fuel keywords) keyword item = Raise e ->
     regex_failure keywords e).
Proof.
  intros Hfuel Hm Hitem. unfold on_item_with.
  destruct item; cbn beta iota; try (split; [intros ? Heq; injection Heq as <-; exact Hitem|discriminate]).
  destruct m as [|m]; [pose proof (depth_dict_positive entries); lia|].
  destruct (Hfuel m entries Hm Hitem) as [Hok Hraise].
  destruct (make_bold fuel keywords entries) as [r|e0]; cbn [bind].
  - split; [|discriminate]. intros ? Heq; injection Heq as <-. apply (Hok r eq_refl).
  - split; [discriminate|]. intros e Heq; injection Heq as <-. apply Hraise. reflexivity.
Qed.

Lemma on_entry_within (fuel m : nat) (keyword : string)
  (entry : string * value * value) :
  bold_within keywords fuel -> S m <= S fuel -> In keyword keywords -> entry_within m entry ->
  (forall entry', on_entry_with (make_bold fuel keywords) keyword entry = Ok entry' ->
     entry_within m entry') /\
  (forall e, on_entry_with (make_bold fuel keywords) keyword entry = Raise e ->
     regex_failure keywords e).
Proof.
  intros Hfuel Hm Hkeyword [Hvalue Hnew]. destruct entry as [[key v] n].
  cbn [fst snd] in Hvalue, Hnew. unfold on_entry_with.
  destruct v; cbn beta iota; try (split; [intros ? Heq; injection Heq as <-; split; assumption|discriminate]).
  - destruct (re_sub (word_pattern keyword) (emphasised keyword) s) as [r|e0] eqn:Hre;
      cbn [bind].
    + split; [|discriminate]. intros ? Heq; injection Heq as <-. split; cbn [fst snd value_depth]; lia.
    + split; [discriminate|]. intros e Heq; injection Heq as <-. exists keyword, s. auto.
  - destruct m as [|m]; [pose proof (depth_list_positive items); lia|].
    apply depth_list_le in Hvalue.
    destruct (map_result_invariant (on_item_with (make_bold fuel keywords) keyword)
                (fun v => value_depth v <= m) (fun v => value_depth v <= m)
                (regex_failure keywords) items) as [Hok Hraise];
      [intros a _ Ha; apply on_item_within; [exact Hfuel|lia|exact Ha]|exact Hvalue|].
    destruct (map_result _ items) as [items'|e0]; cbn [bind].
    + split; [|discriminate]. intros ? Heq; injection Heq as <-.
      split; cbn [fst snd]; apply depth_list_le, Hok; reflexivity.
    + split; [discriminate|]. intros e Heq; injection Heq as <-. apply Hraise. reflexivity.
  - destruct m as [|m]; [pose proof (depth_dict_positive entries); lia|].
    destruct (Hfuel m entries ltac:(lia) Hvalue) as [Hok Hraise].
    destruct (make_bold fuel keywords entries) as [r|e0]; cbn [bind].
    + split; [|discriminate]. intros ? Heq; injection Heq as <-.
      destruct (Hok r eq_refl). split; assumption.
    + split; [discriminate|]. intros e Heq; injection Heq as <-. apply Hraise. reflexivity.
Qed.

Lemma bold_within_all (fuel : nat) : bold_within keywords fuel.
Proof.
  induction fuel as [|fuel IH]; intros m d Hm Hdepth; [lia|].
  rewrite make_bold_unfold. apply depth_dict_le in Hdepth.
  assert (Hstart : Forall (entry_within m) (map (fun '(k, v) => (k, v, v)) d)).
  { apply List.Forall_forall. intros entry Hin. apply in_map_iff in Hin as ([k v] & <- & Hin).
    rewrite List.Forall_forall in Hdepth. specialize (Hdepth (k, v) Hin).
    split; exact Hdepth. }
  destruct (fold_result_invariant
              (fun entries keyword =>
                 map_result (on_entry_with (make_bold fuel keywords) keyword) entries)
              (Forall (entry_within m)) (regex_failure keywords) keywords) with
    (s := map (fun '(k, v) => (k, v, v)) d) as [Hok Hraise]; [|exact Hstart|].
  { intros entries keyword Hkeyword Hentries.
    apply (map_result_invariant _ (entry_within m) (entry_within m)); [|exact Hentries].
    intros entry _ Hentry. apply on_entry_within; [exact IH|lia|exact Hkeyword|exact Hentry]. }
  destruct (fold_result _ keywords _) as [entries|e0]; cbn [bind].
  - split; [|discriminate]. intros r Heq; injection Heq as <-. specialize (Hok entries eq_refl).
    cbn [fst snd]. split; apply depth_dict_le, List.Forall_forall;
      intros kv Hin; apply in_map_iff in Hin as ([[k v] n] & <- & Hin);
      rewrite List.Forall_forall in Hok; destruct (Hok _ Hin) as [Hv Hn]; assumption.
  - split; [discriminate|]. intros e Heq; injection Heq as <-. apply Hraise. reflexivity.
Qed.

(** The function fails only where the regular-expression library fails on
    the pattern of a keyword: the recursion itself ends on every
    dictionary. *)
Theorem bold_keywords_fail_only_in_the_regex (dictionary : list (string * value))
  (e : exn) :
  make_given_keywords_bold_in_a_dictionary dictionary keywords = Raise e ->
  regex_failure keywords e.
Proof.
  unfold make_given_keywords_bold_in_a_dictionary. intros Hrun.
  pose proof (depth_dict_positive dictionary) as Hpositive.
  destruct (value_depth (VDict dictionary)) as [|m] eqn:Hdepth; [lia|].
  destruct (bold_within_all (S m) m dictionary (le_n _) ltac:(lia)) as [_ Hraise].
  destruct (make_bold (S m) keywords dictionary) as [r|e0]; [discriminate|].
  injection Hrun as <-. apply Hraise. reflexivity.
Qed.
End BoldFuel.

Lemma bold_keywords_fail_only_in_the_regex_witness :
  @make_given_keywords_bold_in_a_dictionary picky_regex
    [("skills", VStr "Go and (ML")] ["Go"; "(ML"]
  = Raise (ExternalError "missing ), unterminated subpattern") /\
  @regex_failure picky_regex ["Go"; "(ML"]
    (ExternalError "missing ), unterminated subpattern").
Proof.
  split; [reflexivity|].
  exact (@bold_keywords_fail_only_in_the_regex picky_regex ["Go"; "(ML"]
           [("skills", VStr "Go and (ML")]
           (ExternalError "missing ), unterminated subpattern") eq_refl).
Defined.

(** ** More on custom themes *)

Section ThemeFiles.
Context `{ThemeEnvironment}.

Lemma first_missing_file_found (cwd0 folder : path) (before after : list string)
  (file : string) :
  (forall f, In f before -> path_exists cwd0 (Path.child folder f) = true) ->
  path_exists cwd0 (Path.child folder file) = false ->
  first_missing_file cwd0 folder (before ++ file :: after) = Some file.
Proof.
  induction before as [|f before IH]; intros Hbefore Hfile; cbn [app first_missing_file].
  - rewrite Hfile. reflexivity.
  - rewrite (Hbefore f (or_introl eq_refl)). cbn [negb].
    apply IH; [intros; apply Hbefore; right; assumption|exact Hfile].
Qed.

Lemma first_missing_file_none (cwd0 folder : path) (files : list string) :
  (forall f, In f files -> path_exists cwd0 (Path.child folder f) = true) ->
  first_missing_file cwd0 folder files = None.
Proof.
  induction files as [|f files IH]; intros Hfiles; cbn [first_missing_file]; [reflexivity|].
  rewrite (Hfiles f (or_introl eq_refl)). cbn [negb].
  apply IH. intros; apply Hfiles; right; assumption.
Qed.

(** A custom theme, with an alphanumeric name and an existing folder, that
    lacks one of the required template files is refused with an error that
    names the first file that is missing, in the order of the section
    templates, the preamble, the header and the entry types.  When no file
    is missing and the folder has no [__init__.py], the theme is accepted as
    a design that holds the theme name only: the other fields of the design
    are not looked at. *)
Theorem custom_theme_files_are_required
  (cwd0 : path) (design : design_arg)
  (available_theme_options : list (string * theme_class))
  (available_entry_type_names : list string) (theme : value) (theme_name : string) :
  design_theme design = Ok theme ->
  theme_lookup theme available_theme_options = Ok None ->
  str_of_scalar theme = Some theme_name ->
  PyStr.isalnum theme_name = true ->
  let custom_theme_folder := Path.child INPUT_FILE_DIRECTORY theme_name in
  path_exists cwd0 custom_theme_folder = true ->
  let outcome := snd (validate_design_options cwd0 design available_theme_options
                        available_entry_type_names) in
  (forall before file after,
     required_files available_entry_type_names = before ++ file :: after ->
     (forall f, In f before -> path_exists cwd0 (Path.child custom_theme_folder f) = true) ->
     path_exists cwd0 (Path.child custom_theme_folder file) = false ->
     outcome = Raise (ValueError [AStr (theme_file_message file custom_theme_folder);
                                  AStr ""; AStr theme_name])) /\
  ((forall f, In f (required_files available_entry_type_names) ->
      path_exists cwd0 (Path.child custom_theme_folder f) = true) ->
   path_exists cwd0 {| anchored := false; parts := [theme_name; "__init__.py"] |} = false ->
   outcome = Ok {| instance_class := "ThemeOptionsAreNotProvided";
                   instance_fields := [("theme", VStr theme_name)] |}).
Proof.
  intros Htheme Hlookup Hname Halnum folder Hfolder outcome.
  unfold outcome, validate_design_options.
  destruct design as [i|v]; [discriminate Htheme|].
  rewrite Htheme, Hlookup, Hname, Halnum. cbn [negb].
  fold folder. rewrite Hfolder. cbn [negb].
  split.
  - intros before file after Hrequired Hbefore Hfile.
    rewrite Hrequired, (first_missing_file_found _ _ _ _ _ Hbefore Hfile). reflexivity.
  - intros Hall Hinit.
    rewrite (first_missing_file_none _ _ _ Hall), Hinit. reflexivity.
Qed.
End ThemeFiles.

Lemma custom_theme_files_are_required_witness :
  snd (@validate_design_options Demo.environment (Demo.root ["data"])
         (DesignValue (VDict [("theme", VStr "mytheme"); ("font", VStr "Arial")]))
         [] ["TextEntry"])
  = Ok {| instance_class := "ThemeOptionsAreNotProvided";
          instance_fields := [("theme", VStr "mytheme")] |}.
Proof.
  exact (proj2 (@custom_theme_files_are_required Demo.environment (Demo.root ["data"])
                  (DesignValue (VDict [("theme", VStr "mytheme"); ("font", VStr "Arial")]))
                  [] ["TextEntry"] (VStr "mytheme") "mytheme"
                  eq_refl eq_refl eq_refl eq_refl eq_refl)
           ltac:(intros f Hf; simpl in Hf;
                 repeat (destruct Hf as [<-|Hf]; [reflexivity|]); contradiction)
           eq_refl).
Defined.

(** ** Progress accounting *)

Lemma started_app (a b : list event) : started (a ++ b) = started a + started b.
Proof. unfold started. rewrite List.filter_app, length_app. reflexivity. Qed.

Lemma finished_app (a b : list event) : finished (a ++ b) = finished a + finished b.
Proof. unfold finished. rewrite List.filter_app, length_app. reflexivity. Qed.

Lemma accounted_bind {A B : Type} (m : M A) (k : A -> M B)
  (post : B -> nat -> nat -> Prop) (fail : nat -> nat -> Prop) (s0 f0 : nat) :
  accounted m (fun _ s f => s = s0 /\ f = f0) (fun s f => fail s f) ->
  (forall a, accounted (k a) (fun b s f => post b (s0 + s) (f0 + f))
               (fun s f => fail (s0 + s) (f0 + f))) ->
  accounted (bindM m k) post fail.
Proof.
  intros Hm Hk w. unfold bindM. destruct (Hm w) as (l1 & Hl1 & Hr1).
  destruct (m w) as [w1 [a|e]]; cbn [fst snd] in *.
  - destruct Hr1 as [Hs Hf]. destruct (Hk a w1) as (l2 & Hl2 & Hr2).
    exists (l1 ++ l2). split; [rewrite Hl2, Hl1, app_assoc; reflexivity|].
    rewrite started_app, finished_app, Hs, Hf. exact Hr2.
  - exists l1. split; [exact Hl1|exact Hr1].
Qed.

Lemma accounted_assoc {A B C : Type} (m : M A) (k1 : A -> M B) (k2 : B -> M C)
  (post : C -> nat -> nat -> Prop) (fail : nat -> nat -> Prop) :
  accounted (bindM m (fun a => bindM (k1 a) k2)) post fail ->
  accounted (bindM (bindM m k1) k2) post fail.
Proof.
  intros Hm w. specialize (Hm w). unfold bindM in *.
  destruct (m w) as [w1 [a|e]]; [|exact Hm].
  destruct (k1 a w1) as [w2 [b|e]]; exact Hm.
Qed.

Lemma accounted_ret {A : Type} (a : A) (post : A -> nat -> nat -> Prop)
  (fail : nat -> nat -> Prop) :
  post a 0 0 -> accounted (ret a) post fail.
Proof. intros Hpost w. exists []. split; [symmetry; apply app_nil_r|exact Hpost]. Qed.

Lemma accounted_started (name : string) (post : unit -> nat -> nat -> Prop)
  (fail : nat -> nat -> Prop) :
  post tt 1 0 -> accounted (emit (StepStarted name)) post fail.
Proof. intros Hpost w. exists [StepStarted name]. split; [reflexivity|exact Hpost]. Qed.

Lemma accounted_finished (post : unit -> nat -> nat -> Prop) (fail : nat -> nat -> Prop) :
  post tt 0 1 -> accounted (emit StepFinished) post fail.
Proof. intros Hpost w. exists [StepFinished]. split; [reflexivity|exact Hpost]. Qed.

Lemma accounted_lift {A : Type} (r : result A) (post : A -> nat -> nat -> Prop)
  (fail : nat -> nat -> Prop) :
  (forall a, r = Ok a -> post a 0 0) -> fail 0 0 -> accounted (lift r) post fail.
Proof.
  intros Hpost Hfail w. exists []. split; [symmetry; apply app_nil_r|].
  cbn [lift snd]. destruct r; auto.
Qed.

Lemma quiet_lift {A : Type} (r : result A) : quiet (lift r).
Proof. apply accounted_lift; auto. Qed.

Lemma quiet_chdir (p : path) : quiet (chdir p).
Proof. intros w. exists []. split; [symmetry; apply app_nil_r|]. cbn. auto. Qed.

Lemma quiet_get_cwd : quiet get_cwd.
Proof. intros w. exists []. split; [symmetry; apply app_nil_r|]. cbn. auto. Qed.

Lemma quiet_weaken {A : Type} (m : M A) (post : A -> nat -> nat -> Prop)
  (fail : nat -> nat -> Prop) :
  quiet m -> (forall a, post a 0 0) -> fail 0 0 -> accounted m post fail.
Proof.
  intros Hm Hpost Hfail w. destruct (Hm w) as (l & Hl & Hr). exists l.
  split; [exact Hl|]. destruct (snd (m w)); destruct Hr as [Hs Hf]; rewrite Hs, Hf; auto.
Qed.

Section Accounting.
Context `{Collaborators} `{RegexLibrary}.

Lemma quiet_run_copies (calls : list (path * path)) : quiet (run_copies calls).
Proof.
  induction calls as [|[source destination] calls IH]; cbn [run_copies].
  - apply accounted_ret. auto.
  - apply (accounted_bind _ _ _ _ 0 0); [apply quiet_weaken; [apply quiet_lift|auto..]|].
    intros _. apply (accounted_bind _ _ _ _ 0 0).
    + intros w. exists [Copied source destination]. split; [reflexivity|]. cbn. auto.
    + intros _. exact IH.
Qed.

Lemma quiet_copy_to (paths : artifacts) (destination : option path) :
  quiet (copy_to paths destination).
Proof.
  destruct destination; cbn [copy_to]; [apply quiet_run_copies|].
  apply accounted_ret. auto.
Qed.
End Accounting.

Lemma accounted_bind_lift {A B : Type} (r : result A) (k : A -> M B)
  (post : B -> nat -> nat -> Prop) (fail : nat -> nat -> Prop) :
  (forall e, r = Raise e -> fail 0 0) ->
  (forall a, r = Ok a -> accounted (k a) post fail) ->
  accounted (bindM (lift r) k) post fail.
Proof.
  intros Hfail Hk w. unfold bindM, lift. destruct r as [a|e].
  - apply (Hk a eq_refl).
  - exists []. split; [symmetry; apply app_nil_r|]. apply (Hfail e eq_refl).
Qed.

Lemma accounted_bind_started {B : Type} (name : string) (k : unit -> M B)
  (post : B -> nat -> nat -> Prop) (fail : nat -> nat -> Prop) :
  accounted (k tt) (fun b s f => post b (S s) f) (fun s f => fail (S s) f) ->
  accounted (bindM (emit (StepStarted name)) k) post fail.
Proof.
  intros Hk. apply (accounted_bind _ _ _ _ 1 0).
  - apply accounted_started. auto.
  - intros []. exact Hk.
Qed.

Lemma accounted_bind_finished {B : Type} (k : unit -> M B)
  (post : B -> nat -> nat -> Prop) (fail : nat -> nat -> Prop) :
  accounted (k tt) (fun b s f => post b s (S f)) (fun s f => fail s (S f)) ->
  accounted (bindM (emit StepFinished) k) post fail.
Proof.
  intros Hk. apply (accounted_bind _ _ _ _ 0 1).
  - apply accounted_finished. auto.
  - intros []. exact Hk.
Qed.

Lemma accounted_bind_quiet {A B : Type} (m : M A) (k : A -> M B)
  (post : B -> nat -> nat -> Prop) (fail : nat -> nat -> Prop) :
  quiet m -> fail 0 0 -> (forall a, accounted (k a) post fail) ->
  accounted (bindM m k) post fail.
Proof.
  intros Hm Hfail Hk. apply (accounted_bind _ _ _ _ 0 0).
  - intros w. destruct (Hm w) as (l & Hl & Hr). exists l. split; [exact Hl|].
    destruct (snd (m w)); destruct Hr as [Hs Hf]; rewrite Hs, Hf; auto.
  - intros a. apply Hk.
Qed.

Lemma accounted_bind_ret {A B : Type} (a : A) (k : A -> M B)
  (post : B -> nat -> nat -> Prop) (fail : nat -> nat -> Prop) :
  accounted (k a) post fail -> accounted (bindM (ret a) k) post fail.
Proof. intros Hk w. exact (Hk w). Qed.

Ltac account :=
  repeat lazymatch goal with
    | |- accounted (bindM (bindM _ _) _) _ _ => apply accounted_assoc
    | |- accounted (bindM (emit (StepStarted _)) _) _ _ => apply accounted_bind_started
    | |- accounted (bindM (emit StepFinished) _) _ _ => apply accounted_bind_finished
    | |- accounted (bindM (lift _) _) _ _ =>
        apply accounted_bind_lift; [intros ? _; cbn; lia|intros ? ?]
    | |- accounted (bindM (ret _) _) _ _ => apply accounted_bind_ret
    | |- accounted (bindM (copy_to _ _) _) _ _ =>
        apply accounted_bind_quiet; [apply quiet_copy_to|cbn; lia|intros ?]
    | |- accounted (bindM get_cwd _) _ _ =>
        apply accounted_bind_quiet; [apply quiet_get_cwd|cbn; lia|intros ?]
    | |- accounted (bindM (chdir _) _) _ _ =>
        apply accounted_bind_quiet; [apply quiet_chdir|cbn; lia|intros ?]
    | |- accounted (emit StepFinished) _ _ => apply accounted_finished
    | |- accounted (ret _) _ _ => apply accounted_ret
    end.

Section AccountingTheorems.
Context `{Collaborators} `{RegexLibrary}.

Lemma render_stages_accounted (dm : data_model) (working_directory : path) :
  accounted (render_stages dm working_directory)
    (fun _ s f => exists st, settings_of dm = Some st /\
                             S s = steps_of (render_command st) /\ f = S s)
    (fun s f => s = f).
Proof.
  unfold render_stages.
  apply accounted_bind_lift; [intros ? _; reflexivity|intros rc Hrc].
  destruct (settings_of dm) as [st|] eqn:Hst; [|discriminate Hrc].
  injection Hrc as <-.
  unfold steps_of.
  destruct (dont_generate_png (render_command st)) eqn:Hpng,
    (dont_generate_markdown (render_command st)) eqn:Hmarkdown,
    (dont_generate_html (render_command st)) eqn:Hhtml; cbn [negb];
    account; exists st; rewrite ?Hpng, ?Hmarkdown, ?Hhtml; cbn; auto.
Qed.
End AccountingTheorems.

Lemma accounted_weaken {A : Type} (m : M A) (post post' : A -> nat -> nat -> Prop)
  (fail fail' : nat -> nat -> Prop) :
  accounted m post fail ->
  (forall a s f, post a s f -> post' a s f) ->
  (forall s f, fail s f -> fail' s f) ->
  accounted m post' fail'.
Proof.
  intros Hm Hpost Hfail w. destruct (Hm w) as (l & Hl & Hr). exists l.
  split; [exact Hl|]. destruct (snd (m w)); auto.
Qed.

Lemma steps_of_is_the_step_count (rc : render_command_settings) :
  Z.of_nat (steps_of rc) =
  spec_step_count (dont_generate_png rc) (dont_generate_markdown rc)
    (dont_generate_html rc).
Proof.
  unfold steps_of, spec_step_count.
  destruct (dont_generate_png rc), (dont_generate_markdown rc), (dont_generate_html rc);
    reflexivity.
Qed.

Section AccountingOfARun.
Context `{Collaborators} `{RegexLibrary}.

Lemma run_stages_accounted (input : value) (working_directory input_file_path : path) :
  accounted (run_stages input working_directory input_file_path)
    (fun _ s f => exists dm st,
       validated_model input input_file_path = Ok dm /\ settings_of dm = Some st /\
       s = steps_of (render_command st) /\ f = s)
    (fun s f => s = f + 1).
Proof.
  unfold run_stages. apply accounted_bind_started.
  apply accounted_bind_lift; [intros ? _; reflexivity|intros dm Hdm].
  apply accounted_bind_quiet; [apply quiet_chdir|reflexivity|intros _].
  eapply accounted_weaken; [apply render_stages_accounted| |].
  - intros _ s f (st & Hst & Hs & Hf). exists dm, st. cbn. repeat split; auto.
  - intros s f ->. cbn. lia.
Qed.

(** The progress of a run.  A run that succeeds has opened the reporter
    first and then started and finished the same number of steps, the number
    that the flags of the validated settings give: 6, less 1 without PNG,
    less 2 without Markdown, less 1 with Markdown and without HTML.  A run
    that fails has failed before the reporter was opened, with no event at
    all, or inside a step: it has then started one step more than it has
    finished, and no later step is started. *)
Theorem progress_is_accounted (input : value)
  (working_directory input_file_path : path) (w : world) :
  exists added,
    events (fst (run_rendercv_with_printer input working_directory input_file_path w))
    = events w ++ added /\
    match snd (run_rendercv_with_printer input working_directory input_file_path w) with
    | Ok _ =>
        exists dm st n rest,
          validated_model input input_file_path = Ok dm /\
          settings_of dm = Some st /\
          added = ReporterOpened n :: rest /\
          finished added = started added /\
          Z.of_nat (started added) =
            spec_step_count (dont_generate_png (render_command st))
              (dont_generate_markdown (render_command st))
              (dont_generate_html (render_command st))
    | Raise _ => added = [] \/ started added = finished added + 1
    end.
Proof.
  unfold run_rendercv_with_printer, bindM, lift.
  destruct (render_command_settings_dict input) as [settings_dict|e];
    [|exists []; split; [symmetry; apply app_nil_r|left; reflexivity]].
  destruct (compute_number_of_steps settings_dict) as [n|e];
    [|exists []; split; [symmetry; apply app_nil_r|left; reflexivity]].
  cbn [emit].
  destruct (run_stages_accounted input working_directory input_file_path
              {| cwd := cwd w; events := events w ++ [ReporterOpened n] |})
    as (l & Hl & Hr).
  exists (ReporterOpened n :: l). cbn [events] in Hl.
  split; [rewrite Hl, <- app_assoc; reflexivity|].
  destruct (snd (run_stages input working_directory input_file_path _)).
  - destruct Hr as (dm & st & Hdm & Hst & Hs & Hf).
    exists dm, st, n, l.
    assert (Hstarted : started (ReporterOpened n :: l) = started l) by reflexivity.
    assert (Hfinished : finished (ReporterOpened n :: l) = finished l) by reflexivity.
    rewrite Hstarted, Hfinished, Hf, Hs.
    split; [exact Hdm|]. split; [exact Hst|]. split; [reflexivity|].
    split; [reflexivity|]. apply steps_of_is_the_step_count.
  - right.
    assert (Hstarted : started (ReporterOpened n :: l) = started l) by reflexivity.
    assert (Hfinished : finished (ReporterOpened n :: l) = finished l) by reflexivity.
    rewrite Hstarted, Hfinished. exact Hr.
Qed.
End AccountingOfARun.

(** ** Reading the input *)

Lemma getitem_string_key (container : value) (key : string) (v : value) :
  Tree.getitem container (KStr key) = Ok v ->
  exists d, container = VDict d /\ dict_get key d = Some v.
Proof.
  destruct container; cbn [Tree.getitem]; try discriminate.
  intros Hget. exists entries. split; [reflexivity|].
  destruct (dict_get key entries); [injection Hget as <-; reflexivity|discriminate].
Qed.

Lemma setitem_string_key (container : value) (key : string) (v container' : value) :
  Tree.setitem container (KStr key) v = Ok container' ->
  exists d, container = VDict d /\ container' = VDict (dict_set key v d).
Proof.
  destruct container; cbn [Tree.setitem]; try discriminate.
  intros [= <-]. exists entries. auto.
Qed.

Lemma update_one_argument_on_a_dictionary (defaults : list (string * cli_value))
  (d : list (string * value)) (key : string) (given : cli_value) (field' : value) :
  update_one_argument defaults (VDict d) (key, given) = Ok field' ->
  exists d', field' = VDict d' /\
             forall k, k <> key -> dict_get k d' = dict_get k d.
Proof.
  cbn [update_one_argument].
  destruct (dict_get key defaults) as [default|]; [|discriminate].
  destruct (negb (cli_value_eqb given default)).
  - cbn [Tree.setitem]. intros [= <-]. eexists. split; [reflexivity|].
    intros k Hk. apply dict_get_set_ne, Hk.
  - cbn [py_in bind]. destruct (negb (dict_has key d)).
    + cbn [Tree.setitem]. intros [= <-]. eexists. split; [reflexivity|].
      intros k Hk. apply dict_get_set_ne, Hk.
    + intros [= <-]. exists d. auto.
Qed.

Lemma update_arguments_keep_other_keys (defaults : list (string * cli_value))
  (arguments : list (string * cli_value)) :
  forall (d : list (string * value)) (field' : value),
    fold_result (update_one_argument defaults) arguments (VDict d) = Ok field' ->
    exists d', field' = VDict d' /\
               forall k, ~ In k (map fst arguments) -> dict_get k d' = dict_get k d.
Proof.
  induction arguments as [|[key given] arguments IH]; intros d field'.
  - cbn [fold_result]. intros [= <-]. exists d. auto.
  - cbn [fold_result].
    destruct (update_one_argument defaults (VDict d) (key, given)) as [field1|e] eqn:Hstep;
      [|discriminate].
    cbn [bind]. intros Hfold.
    destruct (update_one_argument_on_a_dictionary _ _ _ _ _ Hstep) as (d1 & -> & Hd1).
    destruct (IH d1 field' Hfold) as (d' & -> & Hd').
    exists d'. split; [reflexivity|].
    intros k Hk. cbn [map fst In] in Hk.
    rewrite Hd' by tauto. apply Hd1. intros ->. tauto.
Qed.

Lemma non_default_argument_is_written (defaults : list (string * cli_value))
  (arguments : list (string * cli_value)) (key : string) (given default : cli_value) :
  forall field field' : value,
    fold_result (update_one_argument defaults) arguments field = Ok field' ->
    List.NoDup (map fst arguments) ->
    In (key, given) arguments ->
    dict_get key defaults = Some default ->
    cli_value_eqb given default = false ->
    exists d', field' = VDict d' /\ dict_get key d' = Some (value_of_cli given).
Proof.
  induction arguments as [|[key0 given0] arguments IH];
    intros field field' Hfold Hnodup Hin Hdefault Hne; [destruct Hin|].
  cbn [fold_result] in Hfold.
  destruct (update_one_argument defaults field (key0, given0)) as [field1|e] eqn:Hstep;
    [|discriminate].
  cbn [bind] in Hfold.
  inversion Hnodup as [|? ? Hnotin Hnodup']; subst.
  destruct Hin as [Heq|Hin]; [|exact (IH field1 field' Hfold Hnodup' Hin Hdefault Hne)].
  injection Heq as -> ->.
  cbn [update_one_argument] in Hstep. rewrite Hdefault, Hne in Hstep. cbn [negb] in Hstep.
  destruct (setitem_string_key _ _ _ _ Hstep) as (d & -> & ->).
  destruct (update_arguments_keep_other_keys _ _ _ _ Hfold) as (d' & -> & Hd').
  exists d'. split; [reflexivity|].
  rewrite Hd' by exact Hnotin. apply dict_get_set_eq.
Qed.

Lemma lookup_in_dictionaries (d : list (string * value)) (key : string)
  (rest : list string) (sub : value) :
  dict_get key d = Some sub ->
  lookup_path (VDict d) (key :: rest) = lookup_path sub rest.
Proof.
  intros Hget. cbn [lookup_path Tree.convert_key Tree.is_list Tree.getitem].
  rewrite Hget. reflexivity.
Qed.

Lemma non_default_argument_reaches_the_settings
  (defaults arguments : list (string * cli_value)) (input output : value)
  (key : string) (given default : cli_value) :
  update_render_command_settings_of_the_input_file defaults input arguments = Ok output ->
  List.NoDup (map fst arguments) ->
  In (key, given) arguments ->
  dict_get key defaults = Some default ->
  cli_value_eqb given default = false ->
  lookup_path output ["rendercv_settings"; "render_command"; key]
  = Some (value_of_cli given).
Proof.
  unfold update_render_command_settings_of_the_input_file.
  intros Hrun Hnodup Hin Hdefault Hne.
  destruct (ensure_dictionary input "rendercv_settings") as [input1|] eqn:H1;
    [|discriminate]. cbn [bind] in Hrun.
  destruct (Tree.getitem input1 (KStr "rendercv_settings")) as [settings|] eqn:H2;
    [|discriminate]. cbn [bind] in Hrun.
  destruct (ensure_dictionary settings "render_command") as [settings1|] eqn:H3;
    [|discriminate]. cbn [bind] in Hrun.
  destruct (Tree.getitem settings1 (KStr "render_command")) as [field|] eqn:H4;
    [|discriminate]. cbn [bind] in Hrun.
  destruct (fold_result (update_one_argument defaults) arguments field)
    as [field'|] eqn:H5; [|discriminate]. cbn [bind] in Hrun.
  destruct (Tree.setitem settings1 (KStr "render_command") field')
    as [settings'|] eqn:H6; [|discriminate]. cbn [bind] in Hrun.
  destruct (setitem_string_key _ _ _ _ Hrun) as (d & _ & ->).
  destruct (setitem_string_key _ _ _ _ H6) as (s & _ & ->).
  destruct (non_default_argument_is_written _ _ _ _ _ _ _ H5 Hnodup Hin Hdefault Hne)
    as (f & -> & Hf).
  rewrite (lookup_in_dictionaries _ _ _ _ (dict_get_set_eq _ _ _)).
  rewrite (lookup_in_dictionaries _ _ _ _ (dict_get_set_eq _ _ _)).
  rewrite (lookup_in_dictionaries _ _ _ _ Hf). reflexivity.
Qed.

Lemma update_keeps_the_other_fields
  (defaults arguments : list (string * cli_value)) (input output : value) :
  update_render_command_settings_of_the_input_file defaults input arguments = Ok output ->
  exists d d', input = VDict d /\ output = VDict d' /\
    forall k, k <> "rendercv_settings" -> dict_get k d' = dict_get k d.
Proof.
  unfold update_render_command_settings_of_the_input_file. intros Hrun.
  destruct (ensure_dictionary input "rendercv_settings") as [input1|] eqn:H1;
    [|discriminate]. cbn [bind] in Hrun.
  destruct (Tree.getitem input1 (KStr "rendercv_settings")) as [settings|] eqn:H2;
    [|discriminate]. cbn [bind] in Hrun.
  destruct (ensure_dictionary settings "render_command") as [settings1|] eqn:H3;
    [|discriminate]. cbn [bind] in Hrun.
  destruct (Tree.getitem settings1 (KStr "render_command")) as [field|] eqn:H4;
    [|discriminate]. cbn [bind] in Hrun.
  destruct (fold_result (update_one_argument defaults) arguments field)
    as [field'|] eqn:H5; [|discriminate]. cbn [bind] in Hrun.
  destruct (Tree.setitem settings1 (KStr "render_command") field')
    as [settings'|] eqn:H6; [|discriminate]. cbn [bind] in Hrun.
  destruct (setitem_string_key _ _ _ _ Hrun) as (d1 & -> & ->).
  unfold ensure_dictionary in H1.
  destruct (py_in "rendercv_settings" input) as [present|] eqn:Hin; [|discriminate].
  cbn [bind] in H1. destruct present.
  - injection H1 as ->. exists d1. eexists. split; [reflexivity|]. split; [reflexivity|].
    intros k Hk. apply dict_get_set_ne, Hk.
  - destruct (setitem_string_key _ _ _ _ H1) as (d & -> & [= ->]).
    exists d. eexists. split; [reflexivity|]. split; [reflexivity|].
    intros k Hk. rewrite !dict_get_set_ne by exact Hk. reflexivity.
Qed.

Section ReadInputTheorems.
Context `{InputFiles} `{TreeEvaluator}.

Lemma read_individual_file_on_a_dictionary (cli : list (string * cli_value))
  (d : list (string * value)) (field : string) (input' : value) :
  read_individual_file cli (VDict d) field = Ok input' ->
  exists d', input' = VDict d' /\
    (forall k, k <> field -> dict_get k d' = dict_get k d) /\
    (forall file, dict_get field cli = Some (CStr file) ->
       exists y v, read_a_yaml_file (absolute_path file) = Ok y /\
                   Tree.getitem y (KStr field) = Ok v /\
                   dict_get field d' = Some v).
Proof.
  unfold read_individual_file.
  destruct (dict_get field cli) as [[| |file]|].
  - intros [= <-]. exists d. split; [reflexivity|]. split; [auto|discriminate].
  - discriminate.
  - destruct (read_a_yaml_file (absolute_path file)) as [y|] eqn:Hy; [|discriminate].
    cbn [bind]. destruct (Tree.getitem y (KStr field)) as [v|] eqn:Hv; [|discriminate].
    cbn [bind Tree.setitem]. intros [= <-]. eexists. split; [reflexivity|]. split.
    + intros k Hk. apply dict_get_set_ne, Hk.
    + intros file' [= <-]. exists y, v. rewrite Hy. auto using dict_get_set_eq.
  - intros [= <-]. exists d. split; [reflexivity|]. split; [auto|discriminate].
Qed.

Lemma read_individual_file_needs_a_dictionary (cli : list (string * cli_value))
  (input input' : value) (field file : string) :
  read_individual_file cli input field = Ok input' ->
  dict_get field cli = Some (CStr file) ->
  exists d, input = VDict d.
Proof.
  unfold read_individual_file. intros Hrun Hcli. rewrite Hcli in Hrun.
  destruct (read_a_yaml_file (absolute_path file)) as [y|]; [|discriminate].
  cbn [bind] in Hrun. destruct (Tree.getitem y (KStr field)) as [v|]; [|discriminate].
  cbn [bind] in Hrun. destruct (setitem_string_key _ _ _ _ Hrun) as (d & -> & _).
  exists d. reflexivity.
Qed.

Lemma individual_files_keep_a_field_that_is_read (cli : list (string * cli_value))
  (field file : string) (y v : value) (fields : list string) :
  dict_get field cli = Some (CStr file) ->
  read_a_yaml_file (absolute_path file) = Ok y ->
  Tree.getitem y (KStr field) = Ok v ->
  forall (d : list (string * value)) (input' : value),
    dict_get field d = Some v ->
    fold_result (read_individual_file cli) fields (VDict d) = Ok input' ->
    exists d', input' = VDict d' /\ dict_get field d' = Some v.
Proof.
  intros Hcli Hy Hv. induction fields as [|g fields IH]; intros d input' Hd.
  - cbn [fold_result]. intros [= <-]. exists d. auto.
  - cbn [fold_result].
    destruct (read_individual_file cli (VDict d) g) as [input1|] eqn:Hstep; [|discriminate].
    cbn [bind]. intros Hfold.
    destruct (read_individual_file_on_a_dictionary _ _ _ _ Hstep)
      as (d1 & -> & Hother & Hsame).
    apply (IH d1 input'); [|exact Hfold].
    destruct (String.eqb_spec field g) as [<-|Hne].
    + destruct (Hsame file Hcli) as (y' & v' & Hy' & Hv' & Hd1).
      rewrite Hy in Hy'. injection Hy' as <-. rewrite Hv in Hv'. injection Hv' as <-.
      exact Hd1.
    + rewrite Hother by exact Hne. exact Hd.
Qed.

Lemma individual_file_is_read (cli : list (string * cli_value))
  (field file : string) (fields : list string) :
  dict_get field cli = Some (CStr file) ->
  In field fields ->
  forall input input' : value,
    fold_result (read_individual_file cli) fields input = Ok input' ->
    exists y v d', read_a_yaml_file (absolute_path file) = Ok y /\
                   Tree.getitem y (KStr field) = Ok v /\
                   input' = VDict d' /\ dict_get field d' = Some v.
Proof.
  intros Hcli. induction fields as [|g fields IH]; intros Hin input input'; [destruct Hin|].
  cbn [fold_result].
  destruct (read_individual_file cli input g) as [input1|] eqn:Hstep; [|discriminate].
  cbn [bind]. intros Hfold.
  destruct (String.eqb_spec field g) as [<-|Hne].
  - destruct (read_individual_file_needs_a_dictionary _ _ _ _ _ Hstep Hcli) as (d & ->).
    destruct (read_individual_file_on_a_dictionary _ _ _ _ Hstep)
      as (d1 & -> & _ & Hsame).
    destruct (Hsame file Hcli) as (y & v & Hy & Hv & Hd1).
    destruct (individual_files_keep_a_field_that_is_read cli field file y v fields
                Hcli Hy Hv d1 input' Hd1 Hfold) as (d' & -> & Hd').
    exists y, v, d'. auto.
  - destruct Hin as [->|Hin]; [contradiction Hne; reflexivity|].
    exact (IH Hin input1 input' Hfold).
Qed.

(** The command line wins.  When [read_and_construct_the_input] returns an
    input, every argument of the command line whose value is not the default
    is in [rendercv_settings.render_command] with the value of the command
    line: whatever the input file holds under that key, and whatever an
    override [--rendercv_settings.render_command.<key>] has written there.
    The command line is a dictionary, so that its keys are distinct. *)
Theorem command_line_wins_over_file_and_overrides
  (defaults cli : list (string * cli_value)) (input_file_path : path)
  (extra : option (list string)) (output : value)
  (key : string) (given default : cli_value) :
  read_and_construct_the_input defaults input_file_path cli extra = Done output ->
  List.NoDup (map fst cli) ->
  In (key, given) cli ->
  dict_get key defaults = Some default ->
  cli_value_eqb given default = false ->
  lookup_path output ["rendercv_settings"; "render_command"; key]
  = Some (value_of_cli given).
Proof.
  unfold read_and_construct_the_input. intros Hrun Hnodup Hin Hdefault Hne.
  destruct (read_the_files input_file_path cli) as [input|]; [|discriminate].
  destruct (apply_the_overrides input extra) as [input'| |]; try discriminate.
  destruct (update_render_command_settings_of_the_input_file defaults input' cli)
    as [output'|] eqn:Hupdate; [|discriminate].
  injection Hrun as ->.
  exact (non_default_argument_reaches_the_settings _ _ _ _ _ _ _
           Hupdate Hnodup Hin Hdefault Hne).
Qed.

(** A field from a file of its own.  When the command line names a file for
    a field of the data model other than [rendercv_settings], and there are
    no overrides, the input that [read_and_construct_the_input] returns has
    under that field what the named file has under it: the field of the
    input file is replaced, and the named file has been read and has the
    field. *)
Theorem field_is_taken_from_its_own_file
  (defaults cli : list (string * cli_value)) (input_file_path : path)
  (extra : option (list string)) (output : value) (field file : string) :
  read_and_construct_the_input defaults input_file_path cli extra = Done output ->
  extra = None \/ extra = Some [] ->
  In field rendercv_data_model_fields ->
  field <> "rendercv_settings" ->
  dict_get field cli = Some (CStr file) ->
  exists y v,
    read_a_yaml_file (absolute_path file) = Ok y /\
    Tree.getitem y (KStr field) = Ok v /\
    lookup_path output [field] = Some v.
Proof.
  unfold read_and_construct_the_input, read_the_files.
  intros Hrun Hextra Hin Hne Hcli.
  destruct (read_a_yaml_file input_file_path) as [input0|]; [|discriminate].
  cbn [bind] in Hrun.
  destruct (fold_result (read_individual_file cli) rendercv_data_model_fields input0)
    as [input|] eqn:Hfold; [|discriminate].
  destruct (individual_file_is_read cli field file _ Hcli Hin _ _ Hfold)
    as (y & v & d & Hy & Hv & -> & Hd).
  assert (Hoverrides : apply_the_overrides (VDict d) extra = Done (VDict d))
    by (destruct Hextra as [->| ->]; reflexivity).
  rewrite Hoverrides in Hrun.
  destruct (update_render_command_settings_of_the_input_file defaults (VDict d) cli)
    as [output'|] eqn:Hupdate; [|discriminate].
  injection Hrun as ->.
  destruct (update_keeps_the_other_fields _ _ _ _ Hupdate) as (d0 & d' & Heq & -> & Hkeep).
  injection Heq as <-.
  exists y, v. split; [exact Hy|]. split; [exact Hv|].
  rewrite (lookup_in_dictionaries d' field [] v); [reflexivity|].
  rewrite Hkeep by exact Hne. exact Hd.
Qed.

End ReadInputTheorems.

Lemma command_line_wins_over_file_and_overrides_witness :
  @read_and_construct_the_input demo_input_files Demo.tree_evaluator demo_defaults
    (Demo.root ["data"; "cv.yaml"])
    [("design", CNone); ("pdf_path", CStr "out.pdf")]
    (Some ["--rendercv_settings.render_command.pdf_path"; "other.pdf"])
  = Done (VDict [("cv", VDict [("name", VStr "Ada")]);
                 ("design", VDict [("theme", VStr "classic")]);
                 ("rendercv_settings",
                  VDict [("render_command",
                          VDict [("pdf_path", VStr "out.pdf");
                                 ("design", VNone)])])]) /\
  lookup_path
    (VDict [("cv", VDict [("name", VStr "Ada")]);
            ("design", VDict [("theme", VStr "classic")]);
            ("rendercv_settings",
             VDict [("render_command",
                     VDict [("pdf_path", VStr "out.pdf");
                            ("design", VNone)])])])
    ["rendercv_settings"; "render_command"; "pdf_path"]
  = Some (VStr "out.pdf").
Proof.
  split; [vm_compute; reflexivity|].
  apply (@command_line_wins_over_file_and_overrides demo_input_files Demo.tree_evaluator
           demo_defaults [("design", CNone); ("pdf_path", CStr "out.pdf")]
           (Demo.root ["data"; "cv.yaml"])
           (Some ["--rendercv_settings.render_command.pdf_path"; "other.pdf"])
           _ "pdf_path" (CStr "out.pdf") CNone).
  - vm_compute; reflexivity.
  - repeat constructor; simpl; intuition discriminate.
  - right. left. reflexivity.
  - reflexivity.
  - reflexivity.
Defined.

Lemma field_is_taken_from_its_own_file_witness :
  exists y v,
    @read_a_yaml_file demo_input_files (@absolute_path demo_input_files "design.yaml") = Ok y /\
    Tree.getitem y (KStr "design") = Ok v /\
    lookup_path
      (VDict [("cv", VDict [("name", VStr "Ada")]);
              ("design", VDict [("theme", VStr "sb2nov")]);
              ("rendercv_settings",
               VDict [("render_command",
                       VDict [("design", VStr "design.yaml");
                              ("pdf_path", VNone)])])])
      ["design"] = Some v.
Proof.
  apply (@field_is_taken_from_its_own_file demo_input_files Demo.tree_evaluator
           demo_defaults [("design", CStr "design.yaml"); ("pdf_path", CNone)]
           (Demo.root ["data"; "cv.yaml"]) None _ "design" "design.yaml").
  - vm_compute; reflexivity.
  - left. reflexivity.
  - right. left. reflexivity.
  - discriminate.
  - reflexivity.
Defined.
